(** * Evaluation pipeline of [main.py]: tolerant loading, shape
      normalisation and field resolution

    The development embeds [load_robust_json], [extract_list_from_data]
    and the pair loop of the [__main__] block of [src/main.py], together
    with the Python built-ins they call ([str.splitlines], [str.strip],
    [json.loads], [re.findall] on the two salvage patterns, the
    [unicode_escape] codec, [str], [len], truthiness).

    A Python [str] is a sequence of Unicode code points; a code point is a
    number in [N].

    Standard output is taken as Python opens it by default, encoding to
    UTF-8 and refusing what cannot be encoded.  Of the calls to [print]
    only the one that writes the query is part of the model: the text of
    every other is fixed text, a file name of the configuration, a decimal
    number, the message of an exception or the ASCII output of
    [json.dumps], and none of these holds a character that cannot be
    encoded. *)

From Stdlib Require Import List NArith ZArith Bool String Ascii Lia.
From Stdlib Require Import DecimalString Sorted.
Import ListNotations.

Local Open Scope N_scope.
Local Open Scope list_scope.

(* ================================================================== *)
(** * Python strings *)
(* ================================================================== *)

Definition str := list N.

(** [py "..."] is the Python [str] with the characters of the literal,
    except that a backquote in the literal stands for the double-quote
    character (code point 34), which cannot be typed inside a literal
    here. *)
Definition py_char (a : ascii) : N :=
  let c := N_of_ascii a in if c =? 96 then 34 else c.

Definition py (s : string) : str := map py_char (list_ascii_of_string s).

Fixpoint str_eqb (a b : str) : bool :=
  match a, b with
  | [], [] => true
  | x :: a', y :: b' => (x =? y) && str_eqb a' b'
  | _, _ => false
  end.

(** [len(s)] *)
Definition len (s : str) : nat := List.length s.

(** [k in [k1, ..., kn]] for string keys. *)
Definition str_in (k : str) (ks : list str) : bool := existsb (str_eqb k) ks.

(** [s.startswith(p)], returning what follows the prefix. *)
Fixpoint strip_prefix (p s : str) : option str :=
  match p, s with
  | [], _ => Some s
  | x :: p', y :: s' => if x =? y then strip_prefix p' s' else None
  | _ :: _, [] => None
  end.

Definition startswith (s p : str) : bool :=
  match strip_prefix p s with Some _ => true | None => false end.

(** [sep.join(parts)] *)
Fixpoint join (sep : str) (parts : list str) : str :=
  match parts with
  | [] => []
  | [p] => p
  | p :: rest => p ++ sep ++ join sep rest
  end.

(** Line boundaries of [str.splitlines]: LF, VT, FF, CR, FS, GS, RS, NEL,
    LINE SEPARATOR and PARAGRAPH SEPARATOR (CR LF counts as one). *)
Definition is_linebreak (c : N) : bool :=
  ((10 <=? c) && (c <=? 13)) || ((28 <=? c) && (c <=? 30)) ||
  (c =? 133) || (c =? 8232) || (c =? 8233).

(** [s.splitlines()]: [cur] is the line being read, most recent character
    first.  A line is emitted at each boundary; what follows the last
    boundary is emitted only when it is not empty. *)
Fixpoint splitlines_from (cur : str) (s : str) : list str :=
  match s with
  | [] => match cur with [] => [] | _ => [rev cur] end
  | c :: s' =>
      if c =? 13 then
        match s' with
        | d :: s'' =>
            if d =? 10 then rev cur :: splitlines_from [] s''
            else rev cur :: splitlines_from [] s'
        | [] => rev cur :: splitlines_from [] s'
        end
      else if is_linebreak c then rev cur :: splitlines_from [] s'
      else splitlines_from (c :: cur) s'
  end.

Definition splitlines (s : str) : list str := splitlines_from [] s.

(** [str.isspace] on one character, which is also the class [\s] of [re]
    for [str] patterns. *)
Definition isspace (c : N) : bool :=
  ((9 <=? c) && (c <=? 13)) || ((28 <=? c) && (c <=? 32)) ||
  (c =? 133) || (c =? 160) || (c =? 5760) ||
  ((8192 <=? c) && (c <=? 8202)) || (c =? 8232) || (c =? 8233) ||
  (c =? 8239) || (c =? 8287) || (c =? 12288).

Fixpoint lstrip (s : str) : str :=
  match s with
  | c :: s' => if isspace c then lstrip s' else s
  | [] => []
  end.

Definition rstrip (s : str) : str := rev (lstrip (rev s)).

(** [s.strip()] *)
Definition strip (s : str) : str := rstrip (lstrip s).

(** Decimal text of an integer, as [str(int)] gives it. *)
Definition str_of_Z (z : Z) : str :=
  map py_char (list_ascii_of_string (NilZero.string_of_int (Z.to_int z))).

(* ================================================================== *)
(** * Python values, exceptions *)
(* ================================================================== *)

(** A [float] is kept as what it was read from: one of the three JSON
    constants or a decimal literal [(-1)^neg * digits * 10^exp10], which
    Python rounds to the nearest binary64. *)
Inductive pyfloat : Type :=
| FNaN
| FInfinity (neg : bool)
| FDecimal (neg : bool) (digits : N) (exp10 : Z).

(** The values that [json.loads] and the salvage scraper build. *)
#[warnings="-register-all"]
Inductive value : Type :=
| VNone
| VBool (b : bool)
| VInt (z : Z)
| VFloat (f : pyfloat)
| VStr (s : str)
| VList (l : list value)
| VDict (d : list (str * value)).

(** A [dict] is its items in insertion order; keys are strings. *)
Definition dict := list (str * value).

Inductive exn : Type :=
| OSError
| UnicodeDecodeError
| UnicodeEncodeError
| JSONDecodeError
| RecursionError
| AttributeError
| IndexError.

Inductive result (A : Type) : Type :=
| Ok (a : A)
| Raise (e : exn).
Arguments Ok {A} a.
Arguments Raise {A} e.

Definition bind {A B : Type} (m : result A) (k : A -> result B) : result B :=
  match m with
  | Ok a => k a
  | Raise e => Raise e
  end.

(** [try: m  except ...: h e].  Every exception of the model derives from
    [Exception], so a bare [except] and [except Exception] catch the
    same. *)
Definition try_except {A : Type} (m : result A) (h : exn -> result A)
  : result A :=
  match m with
  | Ok a => Ok a
  | Raise e => h e
  end.

Declare Scope py_scope.
Delimit Scope py_scope with py.
Notation "x <- m ;; k" := (bind m (fun x => k))
  (at level 61, m at next level, right associativity) : py_scope.
Notation "' p <- m ;; k" := (bind m (fun x => match x with p => k end))
  (at level 61, p pattern, m at next level, right associativity) : py_scope.
Local Open Scope py_scope.

(** The parts of the interpreter that are data rather than code: the
    Unicode character database behind [\N{...}], [str.isdigit] and
    [str.isprintable] above ASCII, and the shortest-digits [repr] of a
    binary64 float. *)
Record PyRuntime : Type := {
  unicode_name : list N -> option N;
  unicode_digit : N -> bool;
  unicode_printable : N -> bool;
  float_repr : pyfloat -> str
}.

(** A runtime whose database is empty, for inputs that are plain ASCII
    and hold no float. *)
Definition ascii_runtime : PyRuntime :=
  {| unicode_name := fun _ => None;
     unicode_digit := fun _ => false;
     unicode_printable := fun _ => false;
     float_repr := fun _ => [] |}.

(** ** Dictionaries *)

Fixpoint dict_get (d : dict) (k : str) : option value :=
  match d with
  | [] => None
  | (k', v) :: d' => if str_eqb k k' then Some v else dict_get d' k
  end.

(** [k in d] *)
Definition dict_has (d : dict) (k : str) : bool :=
  match dict_get d k with Some _ => true | None => false end.

(** [d[k] = v]: an existing key keeps its place and takes the new value,
    a new key goes last. *)
Fixpoint dict_set (d : dict) (k : str) (v : value) : dict :=
  match d with
  | [] => [(k, v)]
  | (k', v') :: d' =>
      if str_eqb k k' then (k', v) :: d' else (k', v') :: dict_set d' k v
  end.

(** ** Truth value, [==] against a string, [repr] and [str] *)

(** A decimal literal denotes zero when its digits are zero or when it is
    at most [2^-1075], half the least positive binary64. *)
Definition float_is_zero (f : pyfloat) : bool :=
  match f with
  | FNaN | FInfinity _ => false
  | FDecimal _ m e =>
      (m =? 0) ||
      ((e <? 0)%Z && (Z.of_N m * 2 ^ 1075 <=? 10 ^ (- e))%Z)
  end.

(** [bool(v)] *)
Definition truthy (v : value) : bool :=
  match v with
  | VNone => false
  | VBool b => b
  | VInt z => negb (z =? 0)%Z
  | VFloat f => negb (float_is_zero f)
  | VStr s => match s with [] => false | _ => true end
  | VList l => match l with [] => false | _ => true end
  | VDict d => match d with [] => false | _ => true end
  end.

(** [v == s] for a string [s] *)
Definition eq_str (v : value) (s : str) : bool :=
  match v with
  | VStr t => str_eqb t s
  | _ => false
  end.

Definition hex_digit (n : N) : N := if n <? 10 then 48 + n else 87 + n.

Fixpoint hex_fixed (width : nat) (c : N) : str :=
  match width with
  | O => []
  | S w => hex_fixed w (c / 16) ++ [hex_digit (c mod 16)]
  end.

Section Repr.
Variable rt : PyRuntime.

Definition isprintable (c : N) : bool :=
  if c <? 128 then (32 <=? c) && (c <? 127) else unicode_printable rt c.

Definition repr_char (quote c : N) : str :=
  if (c =? quote) || (c =? 92) then [92; c]
  else if c =? 9 then [92; 116]
  else if c =? 10 then [92; 110]
  else if c =? 13 then [92; 114]
  else if isprintable c then [c]
  else if c <? 256 then [92; 120] ++ hex_fixed 2 c
  else if c <? 65536 then [92; 117] ++ hex_fixed 4 c
  else [92; 85] ++ hex_fixed 8 c.

(** [repr(s)]: single quotes, unless the string holds a single quote
    and no double quote. *)
Definition repr_str (s : str) : str :=
  let quote :=
    if existsb (N.eqb 39) s && negb (existsb (N.eqb 34) s) then 34 else 39 in
  [quote] ++ flat_map (repr_char quote) s ++ [quote].

Fixpoint repr (v : value) : str :=
  match v with
  | VNone => py "None"
  | VBool true => py "True"
  | VBool false => py "False"
  | VInt z => str_of_Z z
  | VFloat f => float_repr rt f
  | VStr s => repr_str s
  | VList l => py "[" ++ join (py ", ") (map repr l) ++ py "]"
  | VDict d =>
      py "{" ++
      join (py ", ")
        (map (fun kv => repr_str (fst kv) ++ py ": " ++ repr (snd kv)) d) ++
      py "}"
  end.

(** [str(v)] *)
Definition py_str (v : value) : str :=
  match v with
  | VStr s => s
  | _ => repr v
  end.
End Repr.


(* ================================================================== *)
(** * [json.loads] *)
(* ================================================================== *)

(** The decoder follows CPython's scanner ([Modules/_json.c]) with the
    default settings: strict strings, [dict] objects, [int] and [float]
    numbers, and the constants [NaN], [Infinity], [-Infinity].  A parser
    takes the text from the current position on and returns what it read
    with the text that follows.  The interpreter's recursion limit and its
    limit on the length of integer literals are taken as large enough. *)
Module Json.

(** JSON whitespace: space, tab, line feed, carriage return. *)
Definition is_ws (c : N) : bool :=
  (c =? 32) || (c =? 9) || (c =? 10) || (c =? 13).

Fixpoint skip_ws (s : str) : str :=
  match s with
  | c :: s' => if is_ws c then skip_ws s' else s
  | [] => []
  end.

Definition is_digit (c : N) : bool := (48 <=? c) && (c <=? 57).

Definition hex_value (c : N) : option N :=
  if (48 <=? c) && (c <=? 57) then Some (c - 48)
  else if (97 <=? c) && (c <=? 102) then Some (c - 87)
  else if (65 <=? c) && (c <=? 70) then Some (c - 55)
  else None.

(** [n] hexadecimal digits, most significant first. *)
Fixpoint hex_digits (n : nat) (acc : N) (s : str) : option (N * str) :=
  match n with
  | O => Some (acc, s)
  | S n' =>
      match s with
      | c :: s' =>
          match hex_value c with
          | Some h => hex_digits n' (16 * acc + h) s'
          | None => None
          end
      | [] => None
      end
  end.

Definition is_high_surrogate (c : N) : bool := (55296 <=? c) && (c <=? 56319).
Definition is_low_surrogate (c : N) : bool := (56320 <=? c) && (c <=? 57343).
Definition join_surrogates (hi lo : N) : N :=
  65536 + (hi - 55296) * 1024 + (lo - 56320).

(** The character of a one-letter escape. *)
Definition simple_escape (c : N) : option N :=
  if c =? 34 then Some 34            (* double quote *)
  else if c =? 92 then Some 92       (* backslash *)
  else if c =? 47 then Some 47       (* slash *)
  else if c =? 98 then Some 8        (* b: backspace *)
  else if c =? 102 then Some 12      (* f: form feed *)
  else if c =? 110 then Some 10      (* n: line feed *)
  else if c =? 114 then Some 13      (* r: carriage return *)
  else if c =? 116 then Some 9       (* t: tab *)
  else None.

(** What follows [\u]: four hex digits, and when they are a high
    surrogate directly followed by [\u] and four more hex digits, the
    pair is joined if the second is a low surrogate and left for the
    next round if it is not. *)
Definition unicode_escape (s : str) : result (N * str) :=
  match hex_digits 4 0 s with
  | None => Raise JSONDecodeError
  | Some (c, r) =>
      if is_high_surrogate c then
        match strip_prefix (py "\u") r with
        | Some r2 =>
            if (4 <=? len r2)%nat then
              match hex_digits 4 0 r2 with
              | None => Raise JSONDecodeError
              | Some (c2, r3) =>
                  if is_low_surrogate c2
                  then Ok (join_surrogates c c2, r3)
                  else Ok (c, r)
              end
            else Ok (c, r)
        | None => Ok (c, r)
        end
      else Ok (c, r)
  end.

(** [scanstring], from just after the opening quote on; [acc] holds the
    characters read so far, most recent first.  Every round reads at
    least one character, so as many rounds as the text is long suffice. *)
Fixpoint scanstring (fuel : nat) (acc : str) (s : str)
  : result (str * str) :=
  match fuel with
  | O => Raise JSONDecodeError
  | S fuel' =>
      match s with
      | [] => Raise JSONDecodeError               (* unterminated *)
      | c :: s' =>
          if c =? 34 then Ok (rev acc, s')
          else if c =? 92 then
            match s' with
            | [] => Raise JSONDecodeError         (* unterminated *)
            | e :: s'' =>
                if e =? 117 then
                  '(u, r) <- unicode_escape s'' ;;
                  scanstring fuel' (u :: acc) r
                else
                  match simple_escape e with
                  | Some x => scanstring fuel' (x :: acc) s''
                  | None => Raise JSONDecodeError (* invalid escape *)
                  end
            end
          else if c <=? 31 then Raise JSONDecodeError  (* control char *)
          else scanstring fuel' (c :: acc) s'
      end
  end.

Definition parse_string (s : str) : result (str * str) :=
  scanstring (len s) [] s.

(** Leading decimal digits and the rest. *)
Fixpoint span_digits (s : str) : str * str :=
  match s with
  | c :: s' =>
      if is_digit c then let '(d, r) := span_digits s' in (c :: d, r)
      else ([], s)
  | [] => ([], [])
  end.

Definition digits_value (d : str) : N :=
  fold_left (fun acc c => 10 * acc + (c - 48)) d 0.

(** The integer part: [0], or a non-zero digit and more digits. *)
Definition int_part (s : str) : option (str * str) :=
  match s with
  | c :: s' =>
      if c =? 48 then Some ([c], s')
      else if is_digit c then let '(d, r) := span_digits s' in Some (c :: d, r)
      else None
  | [] => None
  end.

(** The fraction: a dot and at least one digit, else nothing is read. *)
Definition frac_part (s : str) : option (str * str) :=
  match strip_prefix (py ".") s with
  | Some s' =>
      match span_digits s' with
      | ([], _) => None
      | (d, r) => Some (d, r)
      end
  | None => None
  end.

(** The exponent: [e] or [E], an optional sign and at least one digit,
    else nothing is read. *)
Definition exp_part (s : str) : option (Z * str) :=
  match s with
  | c :: s' =>
      if (c =? 101) || (c =? 69) then
        let '(neg, s1) :=
          match strip_prefix (py "-") s', strip_prefix (py "+") s' with
          | Some t, _ => (true, t)
          | None, Some t => (false, t)
          | None, None => (false, s')
          end in
        match span_digits s1 with
        | ([], _) => None
        | (d, r) =>
            let e := Z.of_N (digits_value d) in
            Some (if neg then (- e)%Z else e, r)
        end
      else None
  | [] => None
  end.

(** [_match_number]: a number with a fraction or an exponent is a
    [float], any other an [int]. *)
Definition match_number (s : str) : result (value * str) :=
  let '(neg, s0) :=
    match strip_prefix (py "-") s with
    | Some t => (true, t)
    | None => (false, s)
    end in
  match int_part s0 with
  | None => Raise JSONDecodeError
  | Some (ip, r0) =>
      let '(fp, r1) :=
        match frac_part r0 with
        | Some (d, r) => (Some d, r)
        | None => (None, r0)
        end in
      let '(ep, r2) :=
        match exp_part r1 with
        | Some (e, r) => (Some e, r)
        | None => (None, r1)
        end in
      match fp, ep with
      | None, None =>
          let n := Z.of_N (digits_value ip) in
          Ok (VInt (if neg then (- n)%Z else n), r2)
      | _, _ =>
          let fd := match fp with Some d => d | None => [] end in
          let e := match ep with Some e => e | None => 0%Z end in
          Ok (VFloat (FDecimal neg (digits_value (ip ++ fd))
                        (e - Z.of_nat (len fd))%Z), r2)
      end
  end.

(** The elements of an array after the first value has been found to
    exist: a value, then [']'] or [','] and the next value.  Every round
    reads at least one character, so [n] rounds suffice for a text shorter
    than [n]. *)
Fixpoint array_loop (scan : str -> result (value * str)) (n : nat)
    (acc : list value) (s : str) : result (value * str) :=
  match n with
  | O => Raise RecursionError
  | S n' =>
      '(v, r) <- scan s ;;
      match skip_ws r with
      | c :: r' =>
          if c =? 93 then Ok (VList (rev (v :: acc)), r')
          else if c =? 44 then array_loop scan n' (v :: acc) (skip_ws r')
          else Raise JSONDecodeError
      | [] => Raise JSONDecodeError
      end
  end.

(** [_parse_array], from just after the opening bracket on. *)
Definition parse_array (scan : str -> result (value * str)) (s : str)
  : result (value * str) :=
  match strip_prefix (py "]") (skip_ws s) with
  | Some r => Ok (VList [], r)
  | None => array_loop scan (S (len (skip_ws s))) [] (skip_ws s)
  end.

(** The members of an object: a quoted key, a colon, a value, then
    ['}'] or [','] and the next member. *)
Fixpoint object_loop (scan : str -> result (value * str)) (n : nat)
    (acc : dict) (s : str) : result (value * str) :=
  match n with
  | O => Raise RecursionError
  | S n' =>
      match strip_prefix (py "`") s with
      | Some s1 =>
          '(k, r1) <- parse_string s1 ;;
          match strip_prefix (py ":") (skip_ws r1) with
          | Some r2 =>
              '(v, r3) <- scan (skip_ws r2) ;;
              let acc' := dict_set acc k v in
              match skip_ws r3 with
              | c :: r4 =>
                  if c =? 125 then Ok (VDict acc', r4)
                  else if c =? 44 then object_loop scan n' acc' (skip_ws r4)
                  else Raise JSONDecodeError
              | [] => Raise JSONDecodeError
              end
          | None => Raise JSONDecodeError
          end
      | None => Raise JSONDecodeError
      end
  end.

(** [_parse_object], from just after the opening brace on. *)
Definition parse_object (scan : str -> result (value * str)) (s : str)
  : result (value * str) :=
  match strip_prefix (py "}") (skip_ws s) with
  | Some r => Ok (VDict [], r)
  | None => object_loop scan (S (len (skip_ws s))) [] (skip_ws s)
  end.

Definition constant (name : str) (v : value) (s : str)
  : option (value * str) :=
  match strip_prefix name s with
  | Some r => Some (v, r)
  | None => None
  end.

(** The named constants, chosen by the first character [c] of [s]. *)
Definition named_constant (c : N) (s : str) : option (value * str) :=
  if c =? 110 then constant (py "null") VNone s
  else if c =? 116 then constant (py "true") (VBool true) s
  else if c =? 102 then constant (py "false") (VBool false) s
  else if c =? 78 then constant (py "NaN") (VFloat FNaN) s
  else if c =? 73 then constant (py "Infinity") (VFloat (FInfinity false)) s
  else if c =? 45 then constant (py "-Infinity") (VFloat (FInfinity true)) s
  else None.

(** [scan_once]: [depth] bounds the nesting of arrays and objects. *)
Fixpoint scan_once (depth : nat) (s : str) : result (value * str) :=
  match s with
  | [] => Raise JSONDecodeError                    (* expecting value *)
  | c :: s' =>
      if c =? 34 then
        '(t, r) <- parse_string s' ;; Ok (VStr t, r)
      else if c =? 123 then
        match depth with
        | O => Raise RecursionError
        | S d => parse_object (scan_once d) s'
        end
      else if c =? 91 then
        match depth with
        | O => Raise RecursionError
        | S d => parse_array (scan_once d) s'
        end
      else
        match named_constant c s with
        | Some vr => Ok vr
        | None => match_number s
        end
  end.

(** [json.loads(s)]: no byte order mark, one value between optional
    whitespace, nothing after it.  A text never nests deeper than it is
    long. *)
Definition loads (s : str) : result value :=
  if startswith s [65279] then Raise JSONDecodeError
  else
    '(v, r) <- scan_once (len s) (skip_ws s) ;;
    match skip_ws r with
    | [] => Ok v
    | _ :: _ => Raise JSONDecodeError            (* extra data *)
    end.
End Json.

(** A scanner that reads forward. *)
Definition reads_forward (scan : str -> result (value * str)) : Prop :=
  forall s v r, scan s = Ok (v, r) -> (List.length r < List.length s)%nat.

(** A scanner that does not run out of rounds on a text of at most
    [bound] characters. *)
Definition rounds_suffice (scan : str -> result (value * str)) (bound : nat)
  : Prop :=
  forall s, (List.length s <= bound)%nat -> scan s <> Raise RecursionError.

(* ================================================================== *)
(** * Codecs and [str.isdigit] *)
(* ================================================================== *)

(** [s.encode('utf-8')]: surrogates cannot be encoded. *)
Definition utf8_char (c : N) : result (list N) :=
  if c <? 128 then Ok [c]
  else if c <? 2048 then Ok [192 + c / 64; 128 + c mod 64]
  else if c <? 65536 then
    if (55296 <=? c) && (c <=? 57343) then Raise UnicodeEncodeError
    else Ok [224 + c / 4096; 128 + (c / 64) mod 64; 128 + c mod 64]
  else if c <? 1114112 then
    Ok [240 + c / 262144; 128 + (c / 4096) mod 64;
        128 + (c / 64) mod 64; 128 + c mod 64]
  else Raise UnicodeEncodeError.

Fixpoint utf8_encode (s : str) : result (list N) :=
  match s with
  | [] => Ok []
  | c :: s' =>
      b <- utf8_char c ;;
      bs <- utf8_encode s' ;;
      Ok (b ++ bs)
  end.

(** [print(text)]: the text is encoded for standard output, which a lone
    surrogate in it makes fail. *)
Definition print (text : str) : result unit :=
  _ <- utf8_encode text ;; Ok tt.

Definition is_octal (c : N) : bool := (48 <=? c) && (c <=? 55).

(** Up to [n] further octal digits of an octal escape. *)
Fixpoint octal_digits (n : nat) (acc : N) (b : list N) : N * list N :=
  match n with
  | O => (acc, b)
  | S n' =>
      match b with
      | c :: b' =>
          if is_octal c then octal_digits n' (8 * acc + (c - 48)) b'
          else (acc, b)
      | [] => (acc, b)
      end
  end.

(** The bytes up to the first closing brace, and what follows it. *)
Fixpoint until_brace (b : list N) : option (list N * list N) :=
  match b with
  | [] => None
  | c :: b' =>
      if c =? 125 then Some ([], b')
      else match until_brace b' with
           | Some (name, r) => Some (c :: name, r)
           | None => None
           end
  end.

Section Codec.
Variable rt : PyRuntime.

(** What follows a backslash, for the escapes that produce exactly one
    character. *)
Definition escape_char (e : N) (b : list N) : option (result (N * list N)) :=
  if (e =? 92) || (e =? 39) || (e =? 34) then Some (Ok (e, b))
  else if e =? 98 then Some (Ok (8, b))
  else if e =? 102 then Some (Ok (12, b))
  else if e =? 116 then Some (Ok (9, b))
  else if e =? 110 then Some (Ok (10, b))
  else if e =? 114 then Some (Ok (13, b))
  else if e =? 118 then Some (Ok (11, b))
  else if e =? 97 then Some (Ok (7, b))
  else if is_octal e then Some (Ok (octal_digits 2 (e - 48) b))
  else if (e =? 120) || (e =? 117) || (e =? 85) then
    let count :=
      if e =? 120 then 2%nat else if e =? 117 then 4%nat else 8%nat in
    match Json.hex_digits count 0 b with
    | Some (c, r) =>
        if 1114111 <? c then Some (Raise UnicodeDecodeError)
        else Some (Ok (c, r))
    | None => Some (Raise UnicodeDecodeError)
    end
  else if e =? 78 then
    match strip_prefix (py "{") b with
    | Some b1 =>
        match until_brace b1 with
        | Some ((_ :: _) as name, r) =>
            match unicode_name rt name with
            | Some c => Some (Ok (c, r))
            | None => Some (Raise UnicodeDecodeError)
            end
        | _ => Some (Raise UnicodeDecodeError)
        end
    | None => Some (Raise UnicodeDecodeError)
    end
  else None.

(** [b.decode('unicode_escape')]: a byte other than a backslash is the
    character with its code; a backslash before a line feed is dropped
    with it; an unknown escape is kept as it stands.  As many rounds as
    there are bytes suffice. *)
Fixpoint unicode_escape_from (fuel : nat) (acc : str) (b : list N)
  : result str :=
  match b with
  | [] => Ok (rev acc)
  | c :: b' =>
      match fuel with
      | O => Raise UnicodeDecodeError
      | S fuel' =>
          if negb (c =? 92) then unicode_escape_from fuel' (c :: acc) b'
          else
            match b' with
            | [] => Raise UnicodeDecodeError
            | e :: b'' =>
                if e =? 10 then unicode_escape_from fuel' acc b''
                else
                  match escape_char e b'' with
                  | Some m =>
                      '(x, r) <- m ;;
                      unicode_escape_from fuel' (x :: acc) r
                  | None => unicode_escape_from fuel' (e :: 92 :: acc) b''
                  end
            end
      end
  end.

Definition unicode_escape_decode (b : list N) : result str :=
  unicode_escape_from (List.length b) [] b.

Definition isdigit_char (c : N) : bool :=
  if c <? 128 then (48 <=? c) && (c <=? 57) else unicode_digit rt c.

(** [s.isdigit()] *)
Definition isdigit (s : str) : bool :=
  match s with
  | [] => false
  | _ => forallb isdigit_char s
  end.
End Codec.

(* ================================================================== *)
(** * [re.findall] on the salvage patterns *)
(* ================================================================== *)

(** The two patterns differ in their quote character [q] only: the
    quote, one of the six role keys (first group), the quote, a colon,
    any whitespace, the quote, a run of plain or escaped characters
    (second group), the quote. *)
Module Re.

Definition role_keys : list str :=
  [py "user_query"; py "message"; py "query"; py "text"; py "response";
   py "bot_response"].

(** The second group and the closing quote: characters other than the
    quote and the backslash, or a backslash and any character but a line
    feed.  The two alternatives exclude each other and neither starts
    with a quote, so giving characters back never finds a match that
    the greedy run missed. *)
Fixpoint match_body (q : N) (acc : str) (s : str) : option (str * str) :=
  match s with
  | [] => None
  | c :: s' =>
      if c =? q then Some (rev acc, s')
      else if c =? 92 then
        match s' with
        | d :: s'' =>
            if d =? 10 then None else match_body q (d :: c :: acc) s''
        | [] => None
        end
      else match_body q (c :: acc) s'
  end.

(** After the key: the quote, a colon, whitespace, the quote, the body.
    The quote is not whitespace, so the run of whitespace is taken
    whole. *)
Definition match_after_key (q : N) (s : str) : option (str * str) :=
  match strip_prefix [q; 58] s with
  | Some s1 =>
      match strip_prefix [q] (lstrip s1) with
      | Some s2 => match_body q [] s2
      | None => None
      end
  | None => None
  end.

(** The alternatives of the first group, tried in their order. *)
Fixpoint match_keys (q : N) (keys : list str) (s : str)
  : option ((str * str) * str) :=
  match keys with
  | [] => None
  | k :: keys' =>
      match
        match strip_prefix k s with
        | Some r => match_after_key q r
        | None => None
        end
      with
      | Some (v, rest) => Some ((k, v), rest)
      | None => match_keys q keys' s
      end
  end.

(** A match that starts at the head of [s]: the groups and the text
    after the match. *)
Definition match_here (q : N) (s : str) : option ((str * str) * str) :=
  match strip_prefix [q] s with
  | Some s' => match_keys q role_keys s'
  | None => None
  end.

(** Every start position from left to right; after a match the scan
    resumes where the match ended, that is [skip] characters on. *)
Fixpoint findall_from (q : N) (skip : nat) (s : str) : list (str * str) :=
  match s with
  | [] => []
  | _ :: s' =>
      match skip with
      | S k => findall_from q k s'
      | O =>
          match match_here q s with
          | Some (kv, rest) =>
              kv :: findall_from q (len s - len rest - 1) s'
          | None => findall_from q 0 s'
          end
      end
  end.

Definition findall (q : N) (s : str) : list (str * str) :=
  findall_from q 0 s.
End Re.

(* ================================================================== *)
(** * [load_robust_json] *)
(* ================================================================== *)

Definition is_comment_line (line : str) : bool :=
  startswith (strip line) (py "//").

(** [[line for line in content.splitlines()
      if not line.strip().startswith("//")]] *)
Definition clean_lines (content : str) : list str :=
  filter (fun line => negb (is_comment_line line)) (splitlines content).

(** Strategy 1: the strict parse of the kept lines, joined by line
    feeds. *)
Definition strict_parse (content : str) : result value :=
  Json.loads (join [10] (clean_lines content)).

(** [found_items]: the matches of the double-quoted pattern, then those of
    the single-quoted one. *)
Definition found_items (content : str) : list (str * str) :=
  Re.findall 34 content ++ Re.findall 39 content.

Section Loader.
Variable rt : PyRuntime.

(** [value.encode('utf-8').decode('unicode_escape')] *)
Definition clean_value (v : str) : result str :=
  b <- utf8_encode v ;; unicode_escape_decode rt b.

(** The loop over [found_items], appending to [extracted_data]. *)
Fixpoint salvage_loop (found : list (str * str)) (extracted_data : list value)
  : result (list value) :=
  match found with
  | [] => Ok extracted_data
  | (key, v) :: rest =>
      clean_val <- clean_value v ;;
      if (len clean_val <? 2)%nat || isdigit rt clean_val
      then salvage_loop rest extracted_data
      else salvage_loop rest (extracted_data ++ [VDict [(key, VStr clean_val)]])
  end.

(** Strategy 2, the scraper, on the original text. *)
Definition salvage (content : str) : result (list value) :=
  salvage_loop (found_items content) [].

(** [load_robust_json(filename)].  [file] is what opening and reading
    the file gives: the text, or the exception raised. *)
Definition load_robust_json (file : result str) : result value :=
  try_except
    (content <- file ;;
     match strict_parse content with
     | Ok parsed => Ok parsed
     | Raise _ =>
         extracted_data <- salvage content ;;
         match extracted_data with
         | [] => Ok (VList [])
         | _ :: _ => Ok (VList extracted_data)
         end
     end)
    (fun _ => Ok (VList [])).
End Loader.

(* ================================================================== *)
(** * [extract_list_from_data] *)
(* ================================================================== *)

Definition possible_keys : list str :=
  [py "conversation_turns"; py "vector_data"; py "data"; py "chats";
   py "context"].

(** The loop over [possible_keys]: the first key that is present with a
    list as value. *)
Fixpoint probe (data : dict) (keys : list str) : option (list value) :=
  match keys with
  | [] => None
  | key :: keys' =>
      match dict_get data key with
      | Some (VList l) => Some l
      | _ => probe data keys'
      end
  end.

Definition extract_list_from_data (data : value) : list value :=
  match data with
  | VList l => l
  | VDict d =>
      match probe d possible_keys with
      | Some l => l
      | None =>
          if dict_has d (py "message") || dict_has d (py "text")
          then [data] else []
      end
  | _ => []
  end.

(* ================================================================== *)
(** * The pair loop of [__main__] *)
(* ================================================================== *)

Definition query_keys : list str :=
  [py "user_query"; py "message"; py "query"; py "text"].

Definition response_keys : list str :=
  [py "bot_response"; py "response"; py "answer"].

Definition context_keys : list str := [py "text"; py "context"; py "chunks"].

Definition context_sentinel : str := py "Context Not Found".

Definition response_placeholder : str := py "Generated Response".

(** [chat.get('role') != 'AI/Chatbot'] *)
Definition role_allows (chat : dict) : bool :=
  match dict_get chat (py "role") with
  | Some r => negb (eq_str r (py "AI/Chatbot"))
  | None => true
  end.

(** One round of the loop over [chat.items()]; the state is
    [(query, response)]. *)
Definition key_search_step (chat : dict) (st : value * value)
    (kv : str * value) : value * value :=
  let '(query, response) := st in
  let '(k, v) := kv in
  let query :=
    if str_in k query_keys && negb (truthy query)
    then (if role_allows chat then v else query)
    else query in
  let response :=
    if str_in k response_keys && negb (truthy response) then v else response in
  (query, response).

(** The loop over [chat.items()], from [query = None], [response = None]. *)
Definition key_search (chat : dict) : value * value :=
  fold_left (key_search_step chat) chat (VNone, VNone).

(** [if not query and 'message' in chat: query = chat['message']] *)
Definition message_fallback (chat : dict) (query : value) : value :=
  if negb (truthy query) then
    match dict_get chat (py "message") with
    | Some m => m
    | None => query
    end
  else query.

(** The query of a chat item, after the key search and the fallback. *)
Definition resolve_query (chat : dict) : value :=
  message_fallback chat (fst (key_search chat)).

(** The response of a chat item as the key search leaves it. *)
Definition resolve_response (chat : dict) : value := snd (key_search chat).

(** An invocation of [evaluator.evaluate_response]. *)
Record oracle_call : Type := {
  call_index : nat;
  call_query : value;
  call_context : str;
  call_response : str
}.

(** What a run of the loop leaves behind: the pairs it took up, the
    oracle calls it made, and the exception that ended it, if any. *)
Record run : Type := {
  visited : list (value * value);
  calls : list oracle_call;
  crash : option exn
}.

Definition empty_run : run := {| visited := []; calls := []; crash := None |}.

Inductive outcome : Type :=
| CouldNotLoad
| Evaluated (limit : nat) (r : run).

Section Driver.
Variable rt : PyRuntime.

(** The loop over [ctx.items()]. *)
Definition context_step (context_text : str) (kv : str * value) : str :=
  if str_in (fst kv) context_keys then py_str rt (snd kv) else context_text.

Definition resolve_context (ctx : value) : str :=
  match ctx with
  | VDict d => fold_left context_step d context_sentinel
  | _ => py_str rt ctx
  end.

(** [query and len(str(query)) > 5] *)
Definition gate (query : value) : bool :=
  truthy query && (5 <? len (py_str rt query))%nat.

(** [if not response: response = "Generated Response"], then
    [str(response)]. *)
Definition forwarded_response (response : value) : str :=
  py_str rt (if negb (truthy response) then VStr response_placeholder
             else response).

(** [f"Query: {str(query)[:100]}..."] *)
Definition query_line (query : value) : str :=
  py "Query: " ++ firstn 100 (py_str rt query) ++ py "...".

(** The body of the loop for pair [i]: the oracle call it makes, if any.
    [chat.items()] needs a dict, and the query is printed before the
    oracle is called. *)
Definition process_pair (i : nat) (chat ctx : value)
  : result (option oracle_call) :=
  match chat with
  | VDict d =>
      let query := resolve_query d in
      let response := resolve_response d in
      let context_text := resolve_context ctx in
      if gate query then
        _ <- print (query_line query) ;;
        Ok (Some {| call_index := i;
                    call_query := query;
                    call_context := context_text;
                    call_response := forwarded_response response |})
      else Ok None
  | _ => Raise AttributeError
  end.

(** [l[i]] *)
Definition index (l : list value) (i : nat) : result value :=
  match nth_error l i with
  | Some v => Ok v
  | None => Raise IndexError
  end.

(** [for i in range(limit)], from index [i] on with [n] rounds to go. *)
Fixpoint pair_loop (chat_list context_list : list value) (i n : nat)
    (r : run) : run :=
  match n with
  | O => r
  | S n' =>
      match
        (chat <- index chat_list i ;;
         ctx <- index context_list i ;;
         Ok (chat, ctx))
      with
      | Raise e => {| visited := visited r; calls := calls r; crash := Some e |}
      | Ok (chat, ctx) =>
          let seen := visited r ++ [(chat, ctx)] in
          match process_pair i chat ctx with
          | Raise e => {| visited := seen; calls := calls r; crash := Some e |}
          | Ok None =>
              pair_loop chat_list context_list (S i) n'
                {| visited := seen; calls := calls r; crash := None |}
          | Ok (Some c) =>
              pair_loop chat_list context_list (S i) n'
                {| visited := seen; calls := calls r ++ [c]; crash := None |}
          end
      end
  end.

Definition is_none (v : value) : bool :=
  match v with VNone => true | _ => false end.

(** [if not chat_list and isinstance(chats_data, list):
      chat_list = chats_data] *)
Definition flat_fallback (items : list value) (data : value) : list value :=
  match items, data with
  | [], VList l => l
  | _, _ => items
  end.

(** From the loaded data to the end of the loop. *)
Definition evaluate (chats_data contexts_data : value) : outcome :=
  if negb (is_none chats_data) && negb (is_none contexts_data) then
    let chat_list :=
      flat_fallback (extract_list_from_data chats_data) chats_data in
    let context_list :=
      flat_fallback (extract_list_from_data contexts_data) contexts_data in
    let limit := Nat.min (List.length chat_list) (List.length context_list) in
    Evaluated limit (pair_loop chat_list context_list 0 limit empty_run)
  else CouldNotLoad.

(** The [__main__] block: [chat_file] and [context_file] are what
    reading the two configured files gives. *)
Definition main (chat_file context_file : result str) : result outcome :=
  chats_data <- load_robust_json rt chat_file ;;
  contexts_data <- load_robust_json rt context_file ;;
  Ok (evaluate chats_data contexts_data).
End Driver.

(* ================================================================== *)
(** * The resolution rules in the words of the specification *)
(* ================================================================== *)

(** These definitions follow the specification text, not the code; the
    theorems below compare them with the code. *)
Module Spec.

(** The first value, in stored order, whose key is in [keys]. *)
Definition first_value (keys : list str) (d : dict) : option value :=
  option_map snd (find (fun kv => str_in (fst kv) keys) d).

(** Query resolution as worded: the first value whose key is a query
    key is accepted unless the role is the chatbot's; when nothing was
    accepted, the value under the message key is used. *)
Definition query (chat : dict) : value :=
  match (if role_allows chat then first_value query_keys chat else None) with
  | Some v => v
  | None =>
      match dict_get chat (py "message") with
      | Some m => m
      | None => VNone
      end
  end.

(** Response resolution as worded: the first value whose key is a
    response key, else the placeholder. *)
Definition response (chat : dict) : value :=
  match first_value response_keys chat with
  | Some v => v
  | None => VStr response_placeholder
  end.
End Spec.

(** The oracle call that pair [i] makes when its chat item is the
    mapping [d] and its query passes the gate. *)
Definition call_for (rt : PyRuntime) (i : nat) (d : dict) (ctx : value)
  : oracle_call :=
  {| call_index := i;
     call_query := resolve_query d;
     call_context := resolve_context rt ctx;
     call_response := forwarded_response rt (resolve_response d) |}.

Definition is_dict (v : value) : bool :=
  match v with VDict _ => true | _ => false end.

(** The text can be written to standard output. *)
Definition printable (text : str) : bool :=
  match print text with
  | Ok _ => true
  | Raise _ => false
  end.

(** The chat item [d] gets its oracle call: its query passes the gate
    and the line that shows it can be printed. *)
Definition makes_call (rt : PyRuntime) (d : dict) : bool :=
  gate rt (resolve_query d) && printable (query_line rt (resolve_query d)).

(** The exception that the body of the loop raises on a chat item, if
    any: a chat item that is not a mapping has no [items()], and a query
    that passes the gate may fail to print. *)
Definition pair_raises (rt : PyRuntime) (chat : value) : option exn :=
  match chat with
  | VDict d =>
      if gate rt (resolve_query d) &&
         negb (printable (query_line rt (resolve_query d)))
      then Some UnicodeEncodeError else None
  | _ => Some AttributeError
  end.

(** The position of the first chat item on which the body of the loop
    raises, with the exception. *)
Fixpoint first_raising (rt : PyRuntime) (l : list value)
  : option (nat * exn) :=
  match l with
  | [] => None
  | chat :: l' =>
      match pair_raises rt chat with
      | Some e => Some (0%nat, e)
      | None =>
          match first_raising rt l' with
          | Some (k, e) => Some (S k, e)
          | None => None
          end
      end
  end.

(** The calls of a run are those of its visited pairs whose chat item
    gets its call. *)
Definition calls_match (rt : PyRuntime) (r : run) : Prop :=
  forall c,
    In c (calls r) <->
    exists i d ctx,
      nth_error (visited r) i = Some (VDict d, ctx) /\
      makes_call rt d = true /\
      c = call_for rt i d ctx.

(** A run ends in an exception only at a chat item on which the body of
    the loop raises, with that exception. *)
Definition crash_at_raising_pair (rt : PyRuntime) (r : run) : Prop :=
  forall e, crash r = Some e ->
    exists seen chat ctx,
      visited r = seen ++ [(chat, ctx)] /\ pair_raises rt chat = Some e.

(** The first truthy value, in stored order, whose key is in [keys]; when
    every such value is falsy, the last of them; [VNone] when there is
    none. *)
Definition first_truthy (keys : list str) (d : dict) : value :=
  let matches := filter (fun kv => str_in (fst kv) keys) d in
  match find (fun kv => truthy (snd kv)) matches with
  | Some kv => snd kv
  | None => last (map snd matches) VNone
  end.

(** The assignment [if k in keys and not cur: cur = v] of the key
    search, on its own. *)
Definition accept_step (keys : list str) (cur : value) (kv : str * value)
  : value :=
  if str_in (fst kv) keys && negb (truthy cur) then snd kv else cur.

(** The last value, in stored order, whose key is in [keys]. *)
Definition last_value (keys : list str) (d : dict) : option value :=
  match rev (filter (fun kv => str_in (fst kv) keys) d) with
  | kv :: _ => Some (snd kv)
  | [] => None
  end.

(** The first of [keys] that is present in [d] with a list as value. *)
Definition first_list_key (d : dict) (keys : list str) : option str :=
  find (fun key => match dict_get d key with
                   | Some (VList _) => true
                   | _ => false
                   end) keys.

(** A string of ASCII decimal digits only. *)
Definition decimal_only (s : str) : bool := forallb Json.is_digit s.

(** What the salvage scraper may emit: a one-key dict, the key one of the
    six role keys, the value a string of two characters or more that is
    not a run of digits. *)
Definition salvage_item (rt : PyRuntime) (item : value) : Prop :=
  exists key v,
    item = VDict [(key, VStr v)] /\
    In key Re.role_keys /\
    (2 <= len v)%nat /\
    isdigit rt v = false /\
    decimal_only v = false.

(** [eol s t]: [t] is [s] with line ends rewritten the way splitting into
    lines and joining them by line feeds does: a carriage return, alone or
    before a line feed, becomes a line feed, and a line end that closes
    the text is dropped. *)
Inductive eol : str -> str -> Prop :=
| eol_nil : eol [] []
| eol_last_lf : eol [10] []
| eol_last_cr : eol [13] []
| eol_last_crlf : eol [13; 10] []
| eol_same (c : N) (s t : str) : eol s t -> eol (c :: s) (c :: t)
| eol_cr (s t : str) : eol s t -> eol (13 :: s) (10 :: t)
| eol_crlf (s t : str) : eol s t -> eol (13 :: 10 :: s) (10 :: t).

(** The only line boundaries of the text are line feeds and carriage
    returns. *)
Definition plain_line_ends (content : str) : bool :=
  forallb (fun c => negb (is_linebreak c) || (c =? 10) || (c =? 13)) content.

(** Some line of the text is a comment. *)
Definition has_comment_line (content : str) : bool :=
  existsb is_comment_line (splitlines content).

(* ================================================================== *)
(** * Strings and dictionaries *)
(* ================================================================== *)

Lemma str_eqb_refl (s : str) : str_eqb s s = true.
Proof.
  induction s as [|c s IH]; simpl; [reflexivity|].
  now rewrite N.eqb_refl, IH.
Qed.

Lemma str_eqb_eq (a b : str) : str_eqb a b = true <-> a = b.
Proof.
  split.
  - revert b; induction a as [|x a IH]; intros [|y b]; simpl; try discriminate.
    + reflexivity.
    + intros H. apply andb_true_iff in H as [Hx Hab].
      apply N.eqb_eq in Hx. apply IH in Hab. now subst.
  - intros ->. apply str_eqb_refl.
Qed.

Lemma str_in_In (k : str) (ks : list str) : str_in k ks = true <-> In k ks.
Proof.
  unfold str_in. rewrite existsb_exists. split.
  - intros [x [Hin Heq]]. apply str_eqb_eq in Heq. now subst.
  - intros Hin. exists k. split; [assumption | apply str_eqb_refl].
Qed.

Lemma strip_prefix_app (p s r : str) :
  strip_prefix p s = Some r -> s = p ++ r.
Proof.
  revert s. induction p as [|x p IH]; intros [|y s]; simpl;
    try discriminate.
  - now intros [= ->].
  - now intros [= ->].
  - destruct (N.eqb_spec x y) as [->|]; [|discriminate].
    intros H. now rewrite (IH _ H).
Qed.

(* ================================================================== *)
(** * The decoder reads forward and never runs out of rounds *)
(* ================================================================== *)

Lemma skip_ws_length (s : str) :
  (List.length (Json.skip_ws s) <= List.length s)%nat.
Proof.
  induction s as [|c s IH]; simpl; [lia|].
  destruct (Json.is_ws c); simpl; lia.
Qed.

Lemma strip_prefix_length (p s r : str) :
  strip_prefix p s = Some r ->
  List.length s = (List.length p + List.length r)%nat.
Proof.
  intros H. apply strip_prefix_app in H. subst. apply length_app.
Qed.

Lemma hex_digits_length (n : nat) (acc : N) (s : str) c r :
  Json.hex_digits n acc s = Some (c, r) ->
  List.length s = (n + List.length r)%nat.
Proof.
  revert acc s. induction n as [|n IH]; intros acc s; simpl.
  - now intros [= _ ->].
  - destruct s as [|x s]; [discriminate|].
    destruct (Json.hex_value x); [|discriminate].
    intros H. apply IH in H. simpl. lia.
Qed.

Lemma unicode_escape_length (s : str) u r :
  Json.unicode_escape s = Ok (u, r) ->
  (List.length r < List.length s)%nat.
Proof.
  unfold Json.unicode_escape.
  destruct (Json.hex_digits 4 0 s) as [[c r1]|] eqn:E; [|discriminate].
  apply hex_digits_length in E.
  assert (Hdone : Ok (c, r1) = Ok (u, r) ->
                  (List.length r < List.length s)%nat)
    by (intros [= _ <-]; lia).
  destruct (Json.is_high_surrogate c); [|exact Hdone].
  destruct (strip_prefix (py "\u") r1) as [r2|] eqn:E1; [|exact Hdone].
  apply strip_prefix_length in E1.
  destruct (4 <=? len r2)%nat; [|exact Hdone].
  destruct (Json.hex_digits 4 0 r2) as [[c2 r3]|] eqn:E2; [|discriminate].
  apply hex_digits_length in E2.
  destruct (Json.is_low_surrogate c2); [|exact Hdone].
  intros [= _ <-]. simpl in E1. lia.
Qed.

Lemma scanstring_length (fuel : nat) (acc s : str) t r :
  Json.scanstring fuel acc s = Ok (t, r) ->
  (List.length r < List.length s)%nat.
Proof.
  revert acc s. induction fuel as [|fuel IH]; intros acc s; simpl;
    [discriminate|].
  destruct s as [|c s']; [discriminate|].
  destruct (c =? 34); [intros [= _ <-]; simpl; lia|].
  destruct (c =? 92).
  - destruct s' as [|e s'']; [discriminate|].
    destruct (e =? 117).
    + destruct (Json.unicode_escape s'') as [[u r1]|x] eqn:E; simpl;
        [|discriminate].
      apply unicode_escape_length in E. intros H. apply IH in H.
      simpl. lia.
    + destruct (Json.simple_escape e); [|discriminate].
      intros H. apply IH in H. simpl. lia.
  - destruct (c <=? 31); [discriminate|].
    intros H. apply IH in H. simpl. lia.
Qed.

Lemma span_digits_length (s : str) :
  List.length s =
  (List.length (fst (Json.span_digits s)) +
   List.length (snd (Json.span_digits s)))%nat.
Proof.
  induction s as [|c s IH]; simpl; [reflexivity|].
  destruct (Json.is_digit c); [|reflexivity].
  destruct (Json.span_digits s) as [d r]. simpl in *. lia.
Qed.

Lemma int_part_length (s : str) ip r :
  Json.int_part s = Some (ip, r) -> (List.length r < List.length s)%nat.
Proof.
  destruct s as [|c s']; simpl; [discriminate|].
  destruct (c =? 48); [intros [= _ <-]; lia|].
  destruct (Json.is_digit c); [|discriminate].
  pose proof (span_digits_length s') as H.
  destruct (Json.span_digits s') as [d r0]. intros [= _ <-]. simpl in H. lia.
Qed.

Lemma frac_part_length (s : str) d r :
  Json.frac_part s = Some (d, r) -> (List.length r <= List.length s)%nat.
Proof.
  unfold Json.frac_part.
  destruct (strip_prefix (py ".") s) as [s'|] eqn:E; [|discriminate].
  apply strip_prefix_length in E.
  pose proof (span_digits_length s') as H.
  destruct (Json.span_digits s') as [[|x d0] r0]; [discriminate|].
  intros [= _ <-]. simpl in *. lia.
Qed.

Lemma exp_part_length (s : str) e r :
  Json.exp_part s = Some (e, r) -> (List.length r <= List.length s)%nat.
Proof.
  unfold Json.exp_part. destruct s as [|c s']; [discriminate|].
  destruct ((c =? 101) || (c =? 69)); [|discriminate].
  assert (Hs : exists neg s1,
    match strip_prefix (py "-") s', strip_prefix (py "+") s' with
    | Some t, _ => (true, t)
    | None, Some t => (false, t)
    | None, None => (false, s')
    end = (neg, s1) /\ (List.length s1 <= List.length s')%nat).
  { destruct (strip_prefix (py "-") s') as [t|] eqn:E1.
    - apply strip_prefix_length in E1. exists true, t. split; [reflexivity|lia].
    - destruct (strip_prefix (py "+") s') as [t|] eqn:E2.
      + apply strip_prefix_length in E2. exists false, t.
        split; [reflexivity|lia].
      + exists false, s'. split; [reflexivity|lia]. }
  destruct Hs as (neg & s1 & -> & Hl).
  pose proof (span_digits_length s1) as H.
  destruct (Json.span_digits s1) as [[|x d0] r0]; [discriminate|].
  intros [= _ <-]. simpl in *. lia.
Qed.

Lemma match_number_length (s : str) v r :
  Json.match_number s = Ok (v, r) -> (List.length r < List.length s)%nat.
Proof.
  unfold Json.match_number.
  assert (Hs : exists neg s0,
    match strip_prefix (py "-") s with
    | Some t => (true, t)
    | None => (false, s)
    end = (neg, s0) /\ (List.length s0 <= List.length s)%nat).
  { destruct (strip_prefix (py "-") s) as [t|] eqn:E1.
    - apply strip_prefix_length in E1. exists true, t. split; [reflexivity|lia].
    - exists false, s. split; [reflexivity|lia]. }
  destruct Hs as (neg & s0 & -> & Hl).
  destruct (Json.int_part s0) as [[ip r0]|] eqn:Ei; [|discriminate].
  apply int_part_length in Ei.
  assert (H1 : exists fp r1,
    match Json.frac_part r0 with
    | Some (d, r) => (Some d, r)
    | None => (None, r0)
    end = (fp, r1) /\ (List.length r1 <= List.length r0)%nat).
  { destruct (Json.frac_part r0) as [[d r1]|] eqn:Ef.
    - apply frac_part_length in Ef. eauto.
    - eauto. }
  destruct H1 as (fp & r1 & -> & Hr1).
  assert (H2 : exists ep r2,
    match Json.exp_part r1 with
    | Some (e, r) => (Some e, r)
    | None => (None, r1)
    end = (ep, r2) /\ (List.length r2 <= List.length r1)%nat).
  { destruct (Json.exp_part r1) as [[e r2]|] eqn:Ee.
    - apply exp_part_length in Ee. eauto.
    - eauto. }
  destruct H2 as (ep & r2 & -> & Hr2).
  destruct fp, ep; intros [= _ <-]; lia.
Qed.

Lemma array_loop_length scan (n : nat) (acc : list value) (s : str) v r :
  reads_forward scan ->
  Json.array_loop scan n acc s = Ok (v, r) ->
  (List.length r < List.length s)%nat.
Proof.
  intros Hf. revert acc s. induction n as [|n IH]; intros acc s; simpl;
    [discriminate|].
  destruct (scan s) as [[x r1]|e] eqn:E; simpl; [|discriminate].
  apply Hf in E. pose proof (skip_ws_length r1) as Hw.
  destruct (Json.skip_ws r1) as [|c r2]; [discriminate|].
  destruct (c =? 93); [intros [= _ <-]; simpl in Hw; lia|].
  destruct (c =? 44); [|discriminate].
  intros H. apply IH in H. pose proof (skip_ws_length r2). simpl in Hw. lia.
Qed.

Lemma object_loop_length scan (n : nat) (acc : dict) (s : str) v r :
  reads_forward scan ->
  Json.object_loop scan n acc s = Ok (v, r) ->
  (List.length r < List.length s)%nat.
Proof.
  intros Hf. revert acc s. induction n as [|n IH]; intros acc s;
    cbn [Json.object_loop]; [discriminate|].
  destruct (strip_prefix (py "`") s) as [s1|] eqn:E1; [|discriminate].
  apply strip_prefix_length in E1.
  destruct (Json.parse_string s1) as [[k r1]|e] eqn:Ek; cbn [bind];
    [|discriminate].
  apply scanstring_length in Ek. pose proof (skip_ws_length r1) as Hw1.
  destruct (strip_prefix (py ":") (Json.skip_ws r1)) as [r2|] eqn:E2;
    [|discriminate].
  apply strip_prefix_length in E2.
  pose proof (skip_ws_length r2) as Hw2.
  destruct (scan (Json.skip_ws r2)) as [[x r3]|e] eqn:E; cbn [bind];
    [|discriminate].
  apply Hf in E. pose proof (skip_ws_length r3) as Hw3.
  destruct (Json.skip_ws r3) as [|c4 r4]; [discriminate|].
  destruct (c4 =? 125); [intros [= _ <-]; simpl in *; lia|].
  destruct (c4 =? 44); [|discriminate].
  intros H. apply IH in H. pose proof (skip_ws_length r4). simpl in *. lia.
Qed.

Lemma parse_array_length scan (s : str) v r :
  reads_forward scan ->
  Json.parse_array scan s = Ok (v, r) -> (List.length r <= List.length s)%nat.
Proof.
  intros Hf. unfold Json.parse_array. pose proof (skip_ws_length s) as Hw.
  destruct (strip_prefix (py "]") (Json.skip_ws s)) as [r1|] eqn:E.
  - apply strip_prefix_length in E. intros [= _ <-]. lia.
  - intros H. apply array_loop_length in H; [lia|assumption].
Qed.

Lemma parse_object_length scan (s : str) v r :
  reads_forward scan ->
  Json.parse_object scan s = Ok (v, r) -> (List.length r <= List.length s)%nat.
Proof.
  intros Hf. unfold Json.parse_object. pose proof (skip_ws_length s) as Hw.
  destruct (strip_prefix (py "}") (Json.skip_ws s)) as [r1|] eqn:E.
  - apply strip_prefix_length in E. intros [= _ <-]. lia.
  - intros H. apply object_loop_length in H; [lia|assumption].
Qed.

Lemma constant_length (name : str) (v : value) (s : str) w r :
  name <> [] ->
  Json.constant name v s = Some (w, r) ->
  (List.length r < List.length s)%nat.
Proof.
  intros Hn. unfold Json.constant.
  destruct (strip_prefix name s) as [r'|] eqn:E; [|discriminate].
  intros [= _ <-]. apply strip_prefix_length in E.
  destruct name; [congruence|]. simpl in E. lia.
Qed.

Lemma named_constant_length (c : N) (s : str) v r :
  Json.named_constant c s = Some (v, r) ->
  (List.length r < List.length s)%nat.
Proof.
  unfold Json.named_constant.
  repeat match goal with
         | |- (if ?b then _ else _) = _ -> _ => destruct b
         end;
    try discriminate; intros H; eapply constant_length; try eassumption;
    discriminate.
Qed.

(** The three bracketing cases of [scan_once] are settled by [tac_obj]
    and [tac_arr] when arrays and objects may nest, and by [discriminate]
    when the depth is used up. *)
Ltac scan_once_cases c tac_str tac_obj tac_arr :=
  destruct (c =? 34); [tac_str|];
  destruct (c =? 123); [first [discriminate | tac_obj]|];
  destruct (c =? 91); [first [discriminate | tac_arr]|].

Lemma scan_once_length (depth : nat) : reads_forward (Json.scan_once depth).
Proof.
  induction depth as [|d IH]; intros s v r;
    (destruct s as [|c s']; cbn [Json.scan_once]; [discriminate|]).
  all: scan_once_cases c
    ltac:(destruct (Json.parse_string s') as [[t r1]|e] eqn:E; simpl;
          [intros [= _ <-]; apply scanstring_length in E; simpl; lia
          |discriminate])
    ltac:(intros H; apply parse_object_length in H; [simpl; lia|exact IH])
    ltac:(intros H; apply parse_array_length in H; [simpl; lia|exact IH]).
  all: destruct (Json.named_constant c (c :: s')) as [[v1 r1]|] eqn:E;
    [intros [= -> ->]; now apply named_constant_length in E
    |apply match_number_length].
Qed.

Lemma unicode_escape_error (s : str) e :
  Json.unicode_escape s = Raise e -> e = JSONDecodeError.
Proof.
  unfold Json.unicode_escape.
  destruct (Json.hex_digits 4 0 s) as [[c r1]|]; [|now intros [= <-]].
  destruct (Json.is_high_surrogate c); [|discriminate].
  destruct (strip_prefix (py "\u") r1) as [r2|]; [|discriminate].
  destruct (4 <=? len r2)%nat; [|discriminate].
  destruct (Json.hex_digits 4 0 r2) as [[c2 r3]|]; [|now intros [= <-]].
  destruct (Json.is_low_surrogate c2); discriminate.
Qed.

Lemma scanstring_error (fuel : nat) (acc s : str) e :
  Json.scanstring fuel acc s = Raise e -> e = JSONDecodeError.
Proof.
  revert acc s. induction fuel as [|fuel IH]; intros acc s; simpl;
    [now intros [= <-]|].
  destruct s as [|c s']; [now intros [= <-]|].
  destruct (c =? 34); [discriminate|].
  destruct (c =? 92).
  - destruct s' as [|x s'']; [now intros [= <-]|].
    destruct (x =? 117).
    + destruct (Json.unicode_escape s'') as [[u r1]|x'] eqn:E; simpl.
      * apply IH.
      * intros [= <-]. now apply unicode_escape_error in E.
    + destruct (Json.simple_escape x); [apply IH|now intros [= <-]].
  - destruct (c <=? 31); [now intros [= <-]|apply IH].
Qed.

Lemma match_number_error (s : str) e :
  Json.match_number s = Raise e -> e = JSONDecodeError.
Proof.
  unfold Json.match_number.
  destruct (match strip_prefix (py "-") s with
            | Some t => (true, t)
            | None => (false, s)
            end) as [neg s0].
  destruct (Json.int_part s0) as [[ip r0]|]; [|now intros [= <-]].
  destruct (match Json.frac_part r0 with
            | Some (d, r1) => (Some d, r1)
            | None => (None, r0)
            end) as [fp r1].
  destruct (match Json.exp_part r1 with
            | Some (x, r2) => (Some x, r2)
            | None => (None, r1)
            end) as [ep r2].
  destruct fp, ep; discriminate.
Qed.

Lemma array_loop_rounds scan (n : nat) (acc : list value) (s : str) :
  reads_forward scan ->
  rounds_suffice scan (List.length s) ->
  (List.length s < n)%nat ->
  Json.array_loop scan n acc s <> Raise RecursionError.
Proof.
  intros Hf. revert acc s. induction n as [|n IH]; intros acc s Hr Hn;
    [lia|]. simpl.
  destruct (scan s) as [[x r1]|e] eqn:E; simpl.
  - apply Hf in E. pose proof (skip_ws_length r1) as Hw.
    destruct (Json.skip_ws r1) as [|c r2]; [discriminate|].
    destruct (c =? 93); [discriminate|].
    destruct (c =? 44); [|discriminate].
    pose proof (skip_ws_length r2). simpl in Hw.
    apply IH; [|lia]. intros t Ht. apply Hr. lia.
  - intros [= ->]. now apply (Hr s (le_n _)).
Qed.

Lemma object_loop_rounds scan (n : nat) (acc : dict) (s : str) :
  reads_forward scan ->
  rounds_suffice scan (List.length s) ->
  (List.length s < n)%nat ->
  Json.object_loop scan n acc s <> Raise RecursionError.
Proof.
  intros Hf. revert acc s. induction n as [|n IH]; intros acc s Hr Hn;
    [lia|]. cbn [Json.object_loop].
  destruct (strip_prefix (py "`") s) as [s1|] eqn:E1; [|discriminate].
  apply strip_prefix_length in E1.
  destruct (Json.parse_string s1) as [[k r1]|e] eqn:Ek; cbn [bind].
  2: { apply scanstring_error in Ek. now subst. }
  apply scanstring_length in Ek. pose proof (skip_ws_length r1) as Hw1.
  destruct (strip_prefix (py ":") (Json.skip_ws r1)) as [r2|] eqn:E2;
    [|discriminate].
  apply strip_prefix_length in E2.
  pose proof (skip_ws_length r2) as Hw2. simpl in E1, E2.
  destruct (scan (Json.skip_ws r2)) as [[x r3]|e] eqn:E; cbn [bind].
  - apply Hf in E. pose proof (skip_ws_length r3) as Hw3.
    destruct (Json.skip_ws r3) as [|c4 r4]; [discriminate|].
    destruct (c4 =? 125); [discriminate|].
    destruct (c4 =? 44); [|discriminate].
    pose proof (skip_ws_length r4). simpl in *.
    apply IH; [|lia]. intros t Ht. apply Hr. lia.
  - intros [= ->]. apply (Hr (Json.skip_ws r2)); [lia|exact E].
Qed.

Lemma scan_once_rounds (depth : nat) :
  rounds_suffice (Json.scan_once depth) depth.
Proof.
  induction depth as [|d IH]; intros s Hs;
    (destruct s as [|c s']; cbn [Json.scan_once]; [discriminate|]);
    [simpl in Hs; lia|].
  simpl in Hs. pose proof (skip_ws_length s') as Hw.
  scan_once_cases c
    ltac:(destruct (Json.parse_string s') as [[t r1]|e] eqn:E; simpl;
          [discriminate|apply scanstring_error in E; now subst])
    ltac:(unfold Json.parse_object;
          destruct (strip_prefix (py "}") (Json.skip_ws s'));
          [discriminate|];
          apply object_loop_rounds;
          [apply scan_once_length
          |intros t Ht; apply IH; lia
          |unfold len; lia])
    ltac:(unfold Json.parse_array;
          destruct (strip_prefix (py "]") (Json.skip_ws s'));
          [discriminate|];
          apply array_loop_rounds;
          [apply scan_once_length
          |intros t Ht; apply IH; lia
          |unfold len; lia]).
  destruct (Json.named_constant c (c :: s')); [discriminate|].
  intros H. apply match_number_error in H. discriminate.
Qed.

(** The decoder never runs out of depth or rounds. *)
Lemma loads_rounds (s : str) : Json.loads s <> Raise RecursionError.
Proof.
  unfold Json.loads. destruct (startswith s [65279]); [discriminate|].
  destruct (Json.scan_once (len s) (Json.skip_ws s)) as [[v r]|x] eqn:E;
    simpl.
  - destruct (Json.skip_ws r); discriminate.
  - intros [= ->].
    apply (scan_once_rounds (len s) (Json.skip_ws s));
      [apply skip_ws_length|exact E].
Qed.

(** The rounds given to [scanstring] do not matter once they cover the
    text. *)
Lemma scanstring_fuel (f1 f2 : nat) (acc s : str) :
  (List.length s <= f1)%nat -> (List.length s <= f2)%nat ->
  Json.scanstring f1 acc s = Json.scanstring f2 acc s.
Proof.
  revert f2 acc s. induction f1 as [|f1 IH]; intros [|f2] acc s H1 H2;
    try (destruct s; [reflexivity|simpl in *; lia]).
  simpl. destruct s as [|c s']; [reflexivity|]. simpl in H1, H2.
  destruct (c =? 34); [reflexivity|].
  destruct (c =? 92).
  - destruct s' as [|e s'']; [reflexivity|]. simpl in H1, H2.
    destruct (e =? 117).
    + destruct (Json.unicode_escape s'') as [[u r1]|x] eqn:E; simpl;
        [|reflexivity].
      apply unicode_escape_length in E. apply IH; lia.
    + destruct (Json.simple_escape e); [|reflexivity]. apply IH; lia.
  - destruct (c <=? 31); [reflexivity|]. apply IH; lia.
Qed.

Lemma octal_digits_length (n : nat) (acc : N) (b : list N) :
  (List.length (snd (octal_digits n acc b)) <= List.length b)%nat.
Proof.
  revert acc b. induction n as [|n IH]; intros acc b; cbn [octal_digits];
    [simpl; lia|].
  destruct b as [|c b']; [simpl; lia|].
  destruct (is_octal c); [|simpl; lia].
  specialize (IH (8 * acc + (c - 48)) b'). cbn [List.length]. lia.
Qed.

Lemma until_brace_length (b : list N) name r :
  until_brace b = Some (name, r) -> (List.length r < List.length b)%nat.
Proof.
  revert name. induction b as [|c b IH]; intros name; simpl; [discriminate|].
  destruct (c =? 125); [intros [= _ <-]; lia|].
  destruct (until_brace b) as [[n0 r0]|]; [|discriminate].
  intros [= _ <-]. specialize (IH n0 eq_refl). lia.
Qed.

Lemma escape_char_length (rt : PyRuntime) (e : N) (b : list N) x r :
  escape_char rt e b = Some (Ok (x, r)) ->
  (List.length r <= List.length b)%nat.
Proof.
  unfold escape_char.
  repeat match goal with
         | |- context [if ?c then Some (Ok (_, b)) else _] =>
             destruct c; [intros [= _ <-]; lia|]
         end.
  destruct (is_octal e).
  { pose proof (octal_digits_length 2 (e - 48) b) as H.
    destruct (octal_digits 2 (e - 48) b). intros [= _ <-]. exact H. }
  destruct ((e =? 120) || (e =? 117) || (e =? 85)).
  { destruct (Json.hex_digits _ 0 b) as [[c r1]|] eqn:E; [|discriminate].
    apply hex_digits_length in E.
    destruct (1114111 <? c); [discriminate|]. intros [= _ <-]. lia. }
  destruct (e =? 78); [|discriminate].
  destruct (strip_prefix (py "{") b) as [b1|] eqn:Eb; [|discriminate].
  apply strip_prefix_length in Eb.
  destruct (until_brace b1) as [[[|n0 name] r1]|] eqn:E; try discriminate.
  apply until_brace_length in E.
  destruct (unicode_name rt (n0 :: name)); [|discriminate].
  intros [= _ <-]. lia.
Qed.

(** The same for the [unicode_escape] codec. *)
Lemma unicode_escape_fuel (rt : PyRuntime) (f1 f2 : nat) (acc : str)
    (b : list N) :
  (List.length b <= f1)%nat -> (List.length b <= f2)%nat ->
  unicode_escape_from rt f1 acc b = unicode_escape_from rt f2 acc b.
Proof.
  revert f2 acc b. induction f1 as [|f1 IH]; intros [|f2] acc b H1 H2;
    try (destruct b; [reflexivity|simpl in *; lia]).
  simpl. destruct b as [|c b']; [reflexivity|]. simpl in H1, H2.
  destruct (negb (c =? 92)); [apply IH; lia|].
  destruct b' as [|e b'']; [reflexivity|]. simpl in H1, H2.
  destruct (e =? 10); [apply IH; lia|].
  destruct (escape_char rt e b'') as [[[x r]|x]|] eqn:E; simpl;
    [|reflexivity|apply IH; lia].
  apply escape_char_length in E. apply IH; lia.
Qed.

(** ** Rounds and depth beyond the length of the text change nothing *)

Lemma array_loop_ext scan1 scan2 (n1 n2 : nat) (acc : list value) (s : str) :
  reads_forward scan1 ->
  (forall t, (List.length t <= List.length s)%nat -> scan1 t = scan2 t) ->
  (List.length s < n1)%nat -> (List.length s < n2)%nat ->
  Json.array_loop scan1 n1 acc s = Json.array_loop scan2 n2 acc s.
Proof.
  intros Hf. revert n2 acc s.
  induction n1 as [|n1 IH]; intros [|n2] acc s He H1 H2; try lia.
  simpl. rewrite <- (He s (le_n _)).
  destruct (scan1 s) as [[x r1]|e] eqn:E; simpl; [|reflexivity].
  apply Hf in E. pose proof (skip_ws_length r1) as Hw.
  destruct (Json.skip_ws r1) as [|c r2]; [reflexivity|].
  destruct (c =? 93); [reflexivity|].
  destruct (c =? 44); [|reflexivity].
  pose proof (skip_ws_length r2). simpl in Hw.
  apply IH; [|lia|lia]. intros t Ht. apply He. lia.
Qed.

Lemma object_loop_ext scan1 scan2 (n1 n2 : nat) (acc : dict) (s : str) :
  reads_forward scan1 ->
  (forall t, (List.length t <= List.length s)%nat -> scan1 t = scan2 t) ->
  (List.length s < n1)%nat -> (List.length s < n2)%nat ->
  Json.object_loop scan1 n1 acc s = Json.object_loop scan2 n2 acc s.
Proof.
  intros Hf. revert n2 acc s.
  induction n1 as [|n1 IH]; intros [|n2] acc s He H1 H2; try lia.
  cbn [Json.object_loop].
  destruct (strip_prefix (py "`") s) as [s1|] eqn:E1; [|reflexivity].
  apply strip_prefix_length in E1.
  destruct (Json.parse_string s1) as [[k r1]|e] eqn:Ek; cbn [bind];
    [|reflexivity].
  apply scanstring_length in Ek. pose proof (skip_ws_length r1) as Hw1.
  destruct (strip_prefix (py ":") (Json.skip_ws r1)) as [r2|] eqn:E2;
    [|reflexivity].
  apply strip_prefix_length in E2.
  pose proof (skip_ws_length r2) as Hw2. simpl in E1, E2.
  rewrite <- (He (Json.skip_ws r2)) by lia.
  destruct (scan1 (Json.skip_ws r2)) as [[x r3]|e] eqn:E; cbn [bind];
    [|reflexivity].
  apply Hf in E. pose proof (skip_ws_length r3) as Hw3.
  destruct (Json.skip_ws r3) as [|c4 r4]; [reflexivity|].
  destruct (c4 =? 125); [reflexivity|].
  destruct (c4 =? 44); [|reflexivity].
  pose proof (skip_ws_length r4). simpl in *.
  apply IH; [|lia|lia]. intros t Ht. apply He. lia.
Qed.

Lemma scan_once_depth (d1 d2 : nat) (s : str) :
  (List.length s <= d1)%nat -> (List.length s <= d2)%nat ->
  Json.scan_once d1 s = Json.scan_once d2 s.
Proof.
  revert d2 s. induction d1 as [|d1 IH]; intros d2 s H1 H2;
    (destruct s as [|c s']; [now destruct d2|]); simpl in H1, H2; [lia|].
  destruct d2 as [|d2]; [lia|]. cbn [Json.scan_once].
  pose proof (skip_ws_length s') as Hw.
  destruct (c =? 34); [reflexivity|].
  destruct (c =? 123).
  { unfold Json.parse_object.
    destruct (strip_prefix (py "}") (Json.skip_ws s')); [reflexivity|].
    apply object_loop_ext; [apply scan_once_length| |unfold len; lia..].
    intros t Ht. apply IH; lia. }
  destruct (c =? 91); [|reflexivity].
  unfold Json.parse_array.
  destruct (strip_prefix (py "]") (Json.skip_ws s')); [reflexivity|].
  apply array_loop_ext; [apply scan_once_length| |unfold len; lia..].
  intros t Ht. apply IH; lia.
Qed.

(** ** A line feed after the text *)

Lemma skip_ws_lf (s : str) :
  Json.skip_ws (s ++ [10]) =
  match Json.skip_ws s with
  | [] => []
  | t => t ++ [10]
  end.
Proof.
  induction s as [|c s IH]; [reflexivity|].
  cbn [app Json.skip_ws]. destruct (Json.is_ws c); [exact IH|reflexivity].
Qed.

Lemma strip_prefix_lf (p s : str) :
  ~ In 10 p ->
  strip_prefix p (s ++ [10]) =
  match strip_prefix p s with
  | Some r => Some (r ++ [10])
  | None => None
  end.
Proof.
  revert s. induction p as [|x p IH]; intros s Hp; [reflexivity|].
  assert (Hx : x <> 10) by (intros ->; apply Hp; now left).
  assert (Hp' : ~ In 10 p) by (intros H; apply Hp; now right).
  destruct s as [|y s]; cbn [app strip_prefix].
  - destruct (N.eqb_spec x 10); [contradiction|reflexivity].
  - destruct (x =? y); [now apply IH|reflexivity].
Qed.

Lemma hex_digits_lf (n : nat) (acc : N) (s : str) :
  Json.hex_digits n acc (s ++ [10]) =
  match Json.hex_digits n acc s with
  | Some (c, r) => Some (c, r ++ [10])
  | None => None
  end.
Proof.
  revert acc s. induction n as [|n IH]; intros acc s; [reflexivity|].
  destruct s as [|x s]; cbn [app Json.hex_digits]; [reflexivity|].
  destruct (Json.hex_value x); [apply IH|reflexivity].
Qed.

Lemma unicode_escape_lf (s : str) u r' :
  Json.unicode_escape (s ++ [10]) = Ok (u, r') ->
  exists r, r' = r ++ [10] /\ Json.unicode_escape s = Ok (u, r).
Proof.
  unfold Json.unicode_escape. rewrite hex_digits_lf.
  destruct (Json.hex_digits 4 0 s) as [[c r1]|]; [|discriminate].
  assert (Hdone : Ok (c, r1 ++ [10]) = Ok (u, r') ->
                  exists r, r' = r ++ [10] /\ Ok (c, r1) = Ok (u, r))
    by (intros [= <- <-]; now exists r1).
  destruct (Json.is_high_surrogate c); [|exact Hdone].
  rewrite strip_prefix_lf by (vm_compute; intuition discriminate).
  destruct (strip_prefix (py "\u") r1) as [r2|]; [|exact Hdone].
  rewrite hex_digits_lf.
  assert (Hlen : len (r2 ++ [10]) = S (len r2))
    by (unfold len; rewrite length_app; simpl; lia).
  rewrite Hlen.
  destruct (Nat.leb_spec 4 (S (len r2))) as [H4|H4];
    destruct (Nat.leb_spec 4 (len r2)) as [H4'|H4']; try lia.
  - destruct (Json.hex_digits 4 0 r2) as [[c2 r3]|]; [|discriminate].
    destruct (Json.is_low_surrogate c2); [|exact Hdone].
    intros [= <- <-]. now exists r3.
  - destruct (Json.hex_digits 4 0 r2) as [[c2 r3]|] eqn:E; [|discriminate].
    apply hex_digits_length in E. unfold len in *. lia.
  - exact Hdone.
Qed.

Lemma scanstring_lf (fuel : nat) (acc s : str) t r' :
  Json.scanstring fuel acc (s ++ [10]) = Ok (t, r') ->
  exists r, r' = r ++ [10] /\ Json.scanstring fuel acc s = Ok (t, r).
Proof.
  revert acc s. induction fuel as [|fuel IH]; intros acc s;
    cbn [Json.scanstring]; [discriminate|].
  destruct s as [|c s']; [discriminate|]. cbn [app].
  destruct (c =? 34); [intros [= <- <-]; now exists s'|].
  destruct (c =? 92).
  - destruct s' as [|e s'']; [discriminate|]. cbn [app].
    destruct (e =? 117).
    + destruct (Json.unicode_escape (s'' ++ [10])) as [[u r1']|x] eqn:E;
        cbn [bind]; [|discriminate].
      apply unicode_escape_lf in E as (r1 & -> & ->). cbn [bind].
      apply IH.
    + destruct (Json.simple_escape e); [apply IH|discriminate].
  - destruct (c <=? 31); [discriminate|apply IH].
Qed.

Lemma parse_string_lf (s : str) t r' :
  Json.parse_string (s ++ [10]) = Ok (t, r') ->
  exists r, r' = r ++ [10] /\ Json.parse_string s = Ok (t, r).
Proof.
  unfold Json.parse_string. intros H.
  apply scanstring_lf in H as (r & -> & H). exists r. split; [reflexivity|].
  rewrite <- H. apply scanstring_fuel; unfold len; rewrite ?length_app;
    simpl; lia.
Qed.

Lemma span_digits_lf (s : str) :
  Json.span_digits (s ++ [10]) =
  (fst (Json.span_digits s), snd (Json.span_digits s) ++ [10]).
Proof.
  induction s as [|c s IH]; [reflexivity|].
  cbn [app Json.span_digits]. destruct (Json.is_digit c); [|reflexivity].
  rewrite IH. now destruct (Json.span_digits s).
Qed.

Lemma int_part_lf (s : str) :
  Json.int_part (s ++ [10]) =
  match Json.int_part s with
  | Some (ip, r) => Some (ip, r ++ [10])
  | None => None
  end.
Proof.
  destruct s as [|c s]; [reflexivity|]. cbn [app Json.int_part].
  destruct (c =? 48); [reflexivity|].
  destruct (Json.is_digit c); [|reflexivity].
  rewrite span_digits_lf. now destruct (Json.span_digits s).
Qed.

Lemma frac_part_lf (s : str) :
  Json.frac_part (s ++ [10]) =
  match Json.frac_part s with
  | Some (d, r) => Some (d, r ++ [10])
  | None => None
  end.
Proof.
  unfold Json.frac_part.
  rewrite strip_prefix_lf by (vm_compute; intuition discriminate).
  destruct (strip_prefix (py ".") s) as [s'|]; [|reflexivity].
  rewrite span_digits_lf. now destruct (Json.span_digits s') as [[|x d] r].
Qed.

Lemma exp_part_lf (s : str) :
  Json.exp_part (s ++ [10]) =
  match Json.exp_part s with
  | Some (e, r) => Some (e, r ++ [10])
  | None => None
  end.
Proof.
  destruct s as [|c s]; [reflexivity|]. cbn [app Json.exp_part].
  destruct ((c =? 101) || (c =? 69)); [|reflexivity].
  rewrite !strip_prefix_lf by (vm_compute; intuition discriminate).
  destruct (strip_prefix (py "-") s) as [t|];
    [|destruct (strip_prefix (py "+") s) as [t|]];
    rewrite span_digits_lf;
    match goal with
    | |- context [Json.span_digits ?x] =>
        now destruct (Json.span_digits x) as [[|y d] r]
    end.
Qed.

Lemma match_number_lf (s : str) :
  Json.match_number (s ++ [10]) =
  match Json.match_number s with
  | Ok (v, r) => Ok (v, r ++ [10])
  | Raise e => Raise e
  end.
Proof.
  unfold Json.match_number.
  rewrite strip_prefix_lf by (vm_compute; intuition discriminate).
  destruct (strip_prefix (py "-") s) as [t|]; cbv beta iota;
    rewrite int_part_lf;
    match goal with
    | |- context [Json.int_part ?x] =>
        destruct (Json.int_part x) as [[ip r0]|]; [|reflexivity]
    end;
    rewrite frac_part_lf;
    destruct (Json.frac_part r0) as [[d r1]|];
    rewrite exp_part_lf;
    match goal with
    | |- context [Json.exp_part ?x] =>
        now destruct (Json.exp_part x) as [[e r2]|]
    end.
Qed.

Lemma constant_lf (name : str) (v : value) (s : str) :
  ~ In 10 name ->
  Json.constant name v (s ++ [10]) =
  match Json.constant name v s with
  | Some (w, r) => Some (w, r ++ [10])
  | None => None
  end.
Proof.
  intros Hn. unfold Json.constant. rewrite strip_prefix_lf by assumption.
  now destruct (strip_prefix name s).
Qed.

Lemma named_constant_lf (c : N) (s : str) :
  Json.named_constant c (s ++ [10]) =
  match Json.named_constant c s with
  | Some (w, r) => Some (w, r ++ [10])
  | None => None
  end.
Proof.
  unfold Json.named_constant.
  repeat match goal with
         | |- (if ?b then _ else _) = _ => destruct b
         end;
    try reflexivity; apply constant_lf; vm_compute; intuition discriminate.
Qed.

Lemma reads_forward_nil scan x :
  reads_forward scan -> scan [] <> Ok x.
Proof. intros Hf H. destruct x as [v r]. apply Hf in H. simpl in H. lia. Qed.

Section LineFeed.
Variable scan : str -> result (value * str).
Hypothesis scan_forward : reads_forward scan.
Hypothesis scan_lf :
  forall s v r',
    scan (s ++ [10]) = Ok (v, r') ->
    exists r, r' = r ++ [10] /\ scan s = Ok (v, r).

(** Scanning after skipped whitespace. *)
Lemma scan_skip_lf (s : str) v r' :
  scan (Json.skip_ws (s ++ [10])) = Ok (v, r') ->
  exists r, r' = r ++ [10] /\ scan (Json.skip_ws s) = Ok (v, r).
Proof.
  rewrite skip_ws_lf. destruct (Json.skip_ws s) as [|c t].
  - intros H. now apply reads_forward_nil in H.
  - apply scan_lf.
Qed.

Lemma array_loop_lf (n : nat) (acc : list value) (s : str) v r' :
  Json.array_loop scan n acc (s ++ [10]) = Ok (v, r') ->
  exists r, r' = r ++ [10] /\ Json.array_loop scan n acc s = Ok (v, r).
Proof.
  revert acc s. induction n as [|n IH]; intros acc s; cbn [Json.array_loop];
    [discriminate|].
  destruct (scan (s ++ [10])) as [[x r1']|e] eqn:E; cbn [bind];
    [|discriminate].
  apply scan_lf in E as (r1 & -> & ->). cbn [bind]. rewrite skip_ws_lf.
  destruct (Json.skip_ws r1) as [|c r2]; [discriminate|]. cbn [app].
  destruct (c =? 93); [intros [= <- <-]; now exists r2|].
  destruct (c =? 44); [|discriminate].
  rewrite skip_ws_lf. destruct (Json.skip_ws r2) as [|c2 t] eqn:E2.
  - destruct n as [|n']; cbn [Json.array_loop]; [discriminate|].
    destruct (scan []) as [x'|e] eqn:E0; [|discriminate].
    now apply reads_forward_nil in E0.
  - apply IH.
Qed.

Lemma object_loop_lf (n : nat) (acc : dict) (s : str) v r' :
  Json.object_loop scan n acc (s ++ [10]) = Ok (v, r') ->
  exists r, r' = r ++ [10] /\ Json.object_loop scan n acc s = Ok (v, r).
Proof.
  revert acc s. induction n as [|n IH]; intros acc s;
    cbn [Json.object_loop]; [discriminate|].
  rewrite strip_prefix_lf by (vm_compute; intuition discriminate).
  destruct (strip_prefix (py "`") s) as [s1|]; [|discriminate].
  destruct (Json.parse_string (s1 ++ [10])) as [[k r1']|e] eqn:Ek;
    cbn [bind]; [|discriminate].
  apply parse_string_lf in Ek as (r1 & -> & ->). cbn [bind].
  rewrite skip_ws_lf. destruct (Json.skip_ws r1) as [|c1 t1]; [discriminate|].
  rewrite strip_prefix_lf by (vm_compute; intuition discriminate).
  destruct (strip_prefix (py ":") (c1 :: t1)) as [r2|]; [|discriminate].
  destruct (scan (Json.skip_ws (r2 ++ [10]))) as [[x r3']|e] eqn:E;
    cbn [bind]; [|discriminate].
  apply scan_skip_lf in E as (r3 & -> & ->). cbn [bind]. rewrite skip_ws_lf.
  destruct (Json.skip_ws r3) as [|c r4]; [discriminate|]. cbn [app].
  destruct (c =? 125); [intros [= <- <-]; now exists r4|].
  destruct (c =? 44); [|discriminate].
  rewrite skip_ws_lf. destruct (Json.skip_ws r4) as [|c2 t] eqn:E2.
  - destruct n as [|n']; cbn [Json.object_loop]; discriminate.
  - apply IH.
Qed.

Lemma parse_array_lf (s : str) v r' :
  Json.parse_array scan (s ++ [10]) = Ok (v, r') ->
  exists r, r' = r ++ [10] /\ Json.parse_array scan s = Ok (v, r).
Proof.
  unfold Json.parse_array. rewrite skip_ws_lf.
  destruct (Json.skip_ws s) as [|c t] eqn:Es.
  - cbn [strip_prefix py map list_ascii_of_string]. cbn [Json.array_loop].
    destruct (scan []) as [x'|e] eqn:E0; [|discriminate].
    now apply reads_forward_nil in E0.
  - rewrite strip_prefix_lf by (vm_compute; intuition discriminate).
    destruct (strip_prefix (py "]") (c :: t)) as [r|];
      [intros [= <- <-]; now exists r|].
    intros H. apply array_loop_lf in H as (r & -> & H).
    exists r. split; [reflexivity|]. rewrite <- H.
    apply array_loop_ext; auto; unfold len; rewrite ?length_app; simpl; lia.
Qed.

Lemma parse_object_lf (s : str) v r' :
  Json.parse_object scan (s ++ [10]) = Ok (v, r') ->
  exists r, r' = r ++ [10] /\ Json.parse_object scan s = Ok (v, r).
Proof.
  unfold Json.parse_object. rewrite skip_ws_lf.
  destruct (Json.skip_ws s) as [|c t] eqn:Es.
  - cbn [strip_prefix py map list_ascii_of_string]. cbn [Json.object_loop].
    discriminate.
  - rewrite strip_prefix_lf by (vm_compute; intuition discriminate).
    destruct (strip_prefix (py "}") (c :: t)) as [r|];
      [intros [= <- <-]; now exists r|].
    intros H. apply object_loop_lf in H as (r & -> & H).
    exists r. split; [reflexivity|]. rewrite <- H.
    apply object_loop_ext; auto; unfold len; rewrite ?length_app; simpl; lia.
Qed.
End LineFeed.

Lemma scan_once_lf (depth : nat) (s : str) v r' :
  Json.scan_once depth (s ++ [10]) = Ok (v, r') ->
  exists r, r' = r ++ [10] /\ Json.scan_once depth s = Ok (v, r).
Proof.
  revert s v r'. induction depth as [|d IH]; intros s v r';
    (destruct s as [|c s'];
     [destruct v; discriminate|cbn [app Json.scan_once]]).
  all: scan_once_cases c
    ltac:(destruct (Json.parse_string (s' ++ [10])) as [[t r1']|e] eqn:E;
          cbn [bind]; [|discriminate];
          apply parse_string_lf in E as (r1 & -> & ->); cbn [bind];
          intros [= <- <-]; now exists r1)
    ltac:(apply parse_object_lf; [apply scan_once_length|exact IH])
    ltac:(apply parse_array_lf; [apply scan_once_length|exact IH]).
  all: change (c :: s' ++ [10]) with ((c :: s') ++ [10]);
    rewrite named_constant_lf, match_number_lf;
    destruct (Json.named_constant c (c :: s')) as [[w r]|];
    [intros [= <- <-]; now exists r|];
    destruct (Json.match_number (c :: s')) as [[w r]|e]; [|discriminate];
    intros [= <- <-]; now exists r.
Qed.

(** A final line feed does not change what the decoder returns. *)
Lemma loads_lf (s : str) (v : value) :
  Json.loads (s ++ [10]) = Ok v -> Json.loads s = Ok v.
Proof.
  unfold Json.loads.
  assert (Hb : startswith (s ++ [10]) [65279] = startswith s [65279])
    by (unfold startswith; rewrite strip_prefix_lf;
        [now destruct (strip_prefix [65279] s)
        |vm_compute; intuition discriminate]).
  rewrite Hb. destruct (startswith s [65279]); [discriminate|].
  rewrite skip_ws_lf.
  destruct (Json.skip_ws s) as [|c t] eqn:Es.
  - destruct (len (s ++ [10])); discriminate.
  - destruct (Json.scan_once (len (s ++ [10])) ((c :: t) ++ [10]))
      as [[w r']|e] eqn:E; cbn [bind]; [|discriminate].
    apply scan_once_lf in E as (r & -> & E).
    pose proof (skip_ws_length s) as Hw. rewrite Es in Hw.
    rewrite (scan_once_depth _ (len s)) in E
      by (unfold len; rewrite ?length_app; simpl in *; lia).
    rewrite E. cbn [bind]. rewrite skip_ws_lf.
    now destruct (Json.skip_ws r).
Qed.

(* ================================================================== *)
(** * The tolerant loader *)
(* ================================================================== *)

Lemma match_keys_in (q : N) (keys : list str) (s : str) kv rest :
  Re.match_keys q keys s = Some (kv, rest) -> In (fst kv) keys.
Proof.
  induction keys as [|k keys IH]; simpl; [discriminate|].
  destruct (match strip_prefix k s with
            | Some r => Re.match_after_key q r
            | None => None
            end) as [[v r]|].
  - intros [= <- _]. now left.
  - intros H. right. now apply IH.
Qed.

(** Every first group that [findall] returns is one of the role keys. *)
Lemma findall_keys (q : N) (s : str) (skip : nat) :
  Forall (fun kv => In (fst kv) Re.role_keys) (Re.findall_from q skip s).
Proof.
  revert skip. induction s as [|c s IH]; intros skip;
    cbn [Re.findall_from]; [constructor|].
  destruct skip as [|k]; [|apply IH].
  destruct (Re.match_here q (c :: s)) as [[kv rest]|] eqn:E; [|apply IH].
  constructor; [|apply IH].
  unfold Re.match_here in E.
  destruct (strip_prefix [q] (c :: s)); [|discriminate].
  now apply match_keys_in in E.
Qed.

Lemma found_items_keys (content : str) :
  Forall (fun kv => In (fst kv) Re.role_keys) (found_items content).
Proof.
  unfold found_items. apply Forall_app. split; apply findall_keys.
Qed.

Lemma decimal_only_isdigit (rt : PyRuntime) (s : str) :
  s <> [] -> decimal_only s = true -> isdigit rt s = true.
Proof.
  intros Hne Hd. unfold isdigit. destruct s as [|c s]; [congruence|].
  unfold decimal_only in Hd. rewrite forallb_forall in *.
  intros x Hx. specialize (Hd x Hx). unfold isdigit_char.
  unfold Json.is_digit in Hd. apply andb_true_iff in Hd as [H1 H2].
  apply N.leb_le in H2.
  destruct (N.ltb_spec x 128); [|lia].
  now rewrite H1, (proj2 (N.leb_le _ _) H2).
Qed.

Lemma salvage_loop_items (rt : PyRuntime) (found : list (str * str))
    (extracted items : list value) :
  Forall (fun kv => In (fst kv) Re.role_keys) found ->
  Forall (salvage_item rt) extracted ->
  salvage_loop rt found extracted = Ok items ->
  Forall (salvage_item rt) items.
Proof.
  revert extracted. induction found as [|[key v] found IH];
    intros extracted Hk He; simpl.
  - now intros [= <-].
  - inversion Hk as [|? ? Hkey Hrest]; subst.
    destruct (clean_value rt v) as [clean_val|e]; simpl; [|discriminate].
    destruct ((len clean_val <? 2)%nat) eqn:Hlen; simpl.
    + now apply IH.
    + destruct (isdigit rt clean_val) eqn:Hd; [now apply IH|].
      apply IH; [assumption|].
      apply Forall_app. split; [assumption|]. constructor; [|constructor].
      apply Nat.ltb_ge in Hlen.
      exists key, clean_val. repeat split; try assumption.
      destruct (decimal_only clean_val) eqn:Hdec; [|reflexivity].
      rewrite (decimal_only_isdigit rt clean_val) in Hd;
        [discriminate| |assumption].
      intros ->. simpl in Hlen. lia.
Qed.

(** C4. Whatever salvage emits is a one-key mapping whose key is one of
    the six role keys and whose unescaped value has two characters or
    more and is not a run of digits; the malformed text with a query
    pair and an id pair yields the query item alone. *)
Theorem salvage_items_filtered (rt : PyRuntime) :
  (forall content items,
      salvage rt content = Ok items -> Forall (salvage_item rt) items) /\
  Re.role_keys =
    [py "user_query"; py "message"; py "query"; py "text"; py "response";
     py "bot_response"] /\
  load_robust_json rt (Ok (py "`query`: `What is 2+2?`, `id`: `42`")) =
    Ok (VList [VDict [(py "query", VStr (py "What is 2+2?"))]]).
Proof.
  split; [|split].
  - intros content items H. unfold salvage in H.
    apply (salvage_loop_items rt (found_items content) [] items);
      [apply found_items_keys | constructor | exact H].
  - reflexivity.
  - vm_compute. reflexivity.
Qed.

Lemma salvage_items_filtered_witness :
  Forall (salvage_item ascii_runtime)
    [VDict [(py "text", VStr (py "it's ok"))]].
Proof.
  apply (proj1 (salvage_items_filtered ascii_runtime)
           (py "{'id': '7', 'text': 'it\'s ok', 'query': '12345'")
           [VDict [(py "text", VStr (py "it's ok"))]]).
  vm_compute. reflexivity.
Defined.

(** The loader returns a value whatever reading the file gave. *)
Lemma load_robust_json_returns (rt : PyRuntime) (file : result str) :
  exists v, load_robust_json rt file = Ok v.
Proof.
  unfold load_robust_json. destruct file as [content|e]; simpl;
    [|now exists (VList [])].
  destruct (strict_parse content) as [v|e]; simpl; [now exists v|].
  destruct (salvage rt content) as [[|x l]|e']; simpl; eauto.
Qed.

(** C1. The loader never lets an exception out: it returns a value for
    every outcome of reading the file, the empty list when reading
    failed, and the empty list when the strict parse failed and salvage
    found nothing. *)
Theorem load_robust_json_never_raises (rt : PyRuntime) (file : result str) :
  (exists v, load_robust_json rt file = Ok v) /\
  (forall e, file = Raise e -> load_robust_json rt file = Ok (VList [])) /\
  (forall content e,
      file = Ok content ->
      strict_parse content = Raise e ->
      salvage rt content = Ok [] ->
      load_robust_json rt file = Ok (VList [])).
Proof.
  split; [|split].
  - apply load_robust_json_returns.
  - now intros e ->.
  - intros content e -> Hs Hv. unfold load_robust_json. simpl.
    now rewrite Hs, Hv.
Qed.

Lemma load_robust_json_never_raises_witness :
  load_robust_json ascii_runtime (Raise OSError) = Ok (VList []) /\
  load_robust_json ascii_runtime (Ok (py "{`id`: 42, oops")) = Ok (VList []).
Proof.
  split.
  - apply (proj1 (proj2 (load_robust_json_never_raises ascii_runtime
                           (Raise OSError))) OSError).
    reflexivity.
  - apply (proj2 (proj2 (load_robust_json_never_raises ascii_runtime
                           (Ok (py "{`id`: 42, oops"))))
             (py "{`id`: 42, oops") JSONDecodeError).
    + reflexivity.
    + vm_compute. reflexivity.
    + vm_compute. reflexivity.
Defined.

(** ** When the strict parse gives [None] *)

Lemma array_loop_list scan (n : nat) (acc : list value) (s : str) v r :
  Json.array_loop scan n acc s = Ok (v, r) -> exists l, v = VList l.
Proof.
  revert acc s. induction n as [|n IH]; intros acc s; simpl; [discriminate|].
  destruct (scan s) as [[x r1]|e]; simpl; [|discriminate].
  destruct (Json.skip_ws r1) as [|c r2]; [discriminate|].
  destruct (c =? 93); [intros [= <- _]; eauto|].
  destruct (c =? 44); [apply IH|discriminate].
Qed.

Lemma object_loop_dict scan (n : nat) (acc : dict) (s : str) v r :
  Json.object_loop scan n acc s = Ok (v, r) -> exists d, v = VDict d.
Proof.
  revert acc s. induction n as [|n IH]; intros acc s;
    cbn [Json.object_loop]; [discriminate|].
  destruct (strip_prefix (py "`") s) as [s1|]; [|discriminate].
  destruct (Json.parse_string s1) as [[k r1]|e]; cbn [bind]; [|discriminate].
  destruct (strip_prefix (py ":") (Json.skip_ws r1)) as [r2|];
    [|discriminate].
  destruct (scan (Json.skip_ws r2)) as [[x r3]|e]; cbn [bind];
    [|discriminate].
  destruct (Json.skip_ws r3) as [|c4 r4]; [discriminate|].
  destruct (c4 =? 125); [intros [= <- _]; eauto|].
  destruct (c4 =? 44); [apply IH|discriminate].
Qed.

Lemma parse_array_list scan (s : str) v r :
  Json.parse_array scan s = Ok (v, r) -> exists l, v = VList l.
Proof.
  unfold Json.parse_array.
  destruct (strip_prefix (py "]") (Json.skip_ws s));
    [intros [= <- _]; eauto|apply array_loop_list].
Qed.

Lemma parse_object_dict scan (s : str) v r :
  Json.parse_object scan s = Ok (v, r) -> exists d, v = VDict d.
Proof.
  unfold Json.parse_object.
  destruct (strip_prefix (py "}") (Json.skip_ws s));
    [intros [= <- _]; eauto|apply object_loop_dict].
Qed.

Lemma match_number_not_none (s : str) r :
  Json.match_number s <> Ok (VNone, r).
Proof.
  unfold Json.match_number.
  destruct (match strip_prefix (py "-") s with
            | Some t => (true, t)
            | None => (false, s)
            end) as [neg s0].
  destruct (Json.int_part s0) as [[ip r0]|]; [|discriminate].
  destruct (match Json.frac_part r0 with
            | Some (d, r1) => (Some d, r1)
            | None => (None, r0)
            end) as [fp r1].
  destruct (match Json.exp_part r1 with
            | Some (e, r2) => (Some e, r2)
            | None => (None, r1)
            end) as [ep r2].
  destruct fp, ep; discriminate.
Qed.

Lemma constant_none (name : str) (v : value) (s r : str) :
  Json.constant name v s = Some (VNone, r) -> v = VNone /\ s = name ++ r.
Proof.
  unfold Json.constant.
  destruct (strip_prefix name s) as [r'|] eqn:E; [|discriminate].
  intros [= -> ->]. split; [reflexivity|]. now apply strip_prefix_app.
Qed.

Lemma named_constant_none (c : N) (s r : str) :
  Json.named_constant c s = Some (VNone, r) -> s = py "null" ++ r.
Proof.
  unfold Json.named_constant.
  repeat match goal with
         | |- (if ?b then _ else _) = _ -> _ => destruct b
         end;
    try discriminate; intros H; apply constant_none in H as [Hv Hs];
    (exact Hs || discriminate).
Qed.

(** Only the literal null is read as [None]. *)
Lemma scan_once_none (depth : nat) (s r : str) :
  Json.scan_once depth s = Ok (VNone, r) -> s = py "null" ++ r.
Proof.
  destruct s as [|c s']; [destruct depth; discriminate|].
  destruct depth as [|d]; cbn [Json.scan_once].
  all: scan_once_cases c
    ltac:(destruct (Json.parse_string s') as [[t r1]|e]; discriminate)
    ltac:(intros H; apply parse_object_dict in H as [x Hx]; discriminate)
    ltac:(intros H; apply parse_array_list in H as [x Hx]; discriminate).
  all: destruct (Json.named_constant c (c :: s')) as [[v r1]|] eqn:E;
    [intros [= -> ->]; now apply named_constant_none in E
    |intros H; now apply match_number_not_none in H].
Qed.

Lemma loads_none (s : str) :
  Json.loads s = Ok VNone <->
  exists r, Json.skip_ws s = py "null" ++ r /\ Json.skip_ws r = [].
Proof.
  unfold Json.loads. split.
  - destruct (startswith s [65279]); [discriminate|].
    destruct (Json.scan_once (len s) (Json.skip_ws s)) as [[v r]|e] eqn:E;
      simpl; [|discriminate].
    destruct (Json.skip_ws r) eqn:Er; [|discriminate].
    intros [= ->]. exists r. split; [|assumption].
    now apply scan_once_none in E.
  - intros (r & Hs & Hr).
    assert (Hb : startswith s [65279] = false).
    { destruct s as [|c s']; [reflexivity|].
      unfold startswith. cbn [strip_prefix].
      destruct (N.eqb_spec 65279 c) as [<-|]; [|reflexivity].
      simpl in Hs. discriminate. }
    rewrite Hb, Hs.
    assert (Hn : forall depth,
               Json.scan_once depth (py "null" ++ r) = Ok (VNone, r))
      by (intros [|d]; reflexivity).
    rewrite Hn. simpl. now rewrite Hr.
Qed.

(** C10, as the code has it.  The loader returns [None] exactly when the
    strict parse of the kept lines gives [None], that is when these lines
    hold the literal null between optional whitespace; every failure path
    returns a list.  The driver reports that it could not load data
    exactly when one of the two files is such a null document, and
    otherwise goes on to the pair loop. *)
Theorem load_robust_json_none_iff (rt : PyRuntime) :
  (forall file,
      load_robust_json rt file = Ok VNone <->
      exists content, file = Ok content /\ strict_parse content = Ok VNone) /\
  (forall content,
      strict_parse content = Ok VNone <->
      exists r,
        Json.skip_ws (join [10] (clean_lines content)) = py "null" ++ r /\
        Json.skip_ws r = []) /\
  (forall chat_file context_file,
      main rt chat_file context_file = Ok CouldNotLoad <->
      load_robust_json rt chat_file = Ok VNone \/
      load_robust_json rt context_file = Ok VNone) /\
  (forall chat_file context_file,
      main rt chat_file context_file = Ok CouldNotLoad \/
      exists limit r, main rt chat_file context_file = Ok (Evaluated limit r)).
Proof.
  assert (Hload : forall file,
    load_robust_json rt file = Ok VNone <->
    exists content, file = Ok content /\ strict_parse content = Ok VNone).
  { intros file. unfold load_robust_json. split.
    - destruct file as [content|e]; simpl; [|discriminate].
      destruct (strict_parse content) as [v|e] eqn:E; simpl.
      + intros [= ->]. now exists content.
      + destruct (salvage rt content) as [[|x l]|e']; simpl; discriminate.
    - intros (content & -> & H). simpl. now rewrite H. }
  assert (Hmain : forall f1 f2,
    main rt f1 f2 =
    match load_robust_json rt f1, load_robust_json rt f2 with
    | Ok a, Ok b => Ok (evaluate rt a b)
    | Raise e, _ => Raise e
    | Ok _, Raise e => Raise e
    end).
  { intros f1 f2. unfold main.
    destruct (load_robust_json rt f1); simpl; [|reflexivity].
    now destruct (load_robust_json rt f2). }
  split; [exact Hload|]. split; [intros content; apply loads_none|].
  split.
  - intros f1 f2. rewrite Hmain.
    destruct (load_robust_json_returns rt f1) as [a Ha].
    destruct (load_robust_json_returns rt f2) as [b Hb].
    rewrite Ha, Hb. unfold evaluate. split.
    + destruct a; simpl; auto; destruct b; simpl; auto; discriminate.
    + intros [[= ->]|[= ->]]; simpl; [reflexivity|].
      now rewrite andb_false_r.
  - intros f1 f2. rewrite Hmain.
    destruct (load_robust_json_returns rt f1) as [a Ha].
    destruct (load_robust_json_returns rt f2) as [b Hb].
    rewrite Ha, Hb. unfold evaluate.
    destruct (negb (is_none a) && negb (is_none b)); eauto.
Qed.

Lemma load_robust_json_none_iff_witness :
  main ascii_runtime (Ok (py " null ")) (Ok (py "[]")) = Ok CouldNotLoad.
Proof.
  apply (proj1 (proj2 (proj2 (load_robust_json_none_iff ascii_runtime)))).
  left.
  apply (proj1 (load_robust_json_none_iff ascii_runtime)).
  exists (py " null "). split; [reflexivity|].
  apply (proj1 (proj2 (load_robust_json_none_iff ascii_runtime))).
  exists (py " "). split; vm_compute; reflexivity.
Defined.

(** C10 as worded fails: a file that holds the JSON literal null loads as
    [None], and the driver then takes the branch that reports that the
    data could not be loaded. *)
Lemma load_robust_json_returns_none :
  load_robust_json ascii_runtime (Ok (py "null")) = Ok VNone /\
  main ascii_runtime (Ok (py "null")) (Ok (py "[{`text`: `some context`}]"))
    = Ok CouldNotLoad.
Proof. split; vm_compute; reflexivity. Qed.

(** ** Strategy 1 on a text of one line *)

Lemma splitlines_from_plain (cur s : str) :
  forallb (fun c => negb (is_linebreak c)) s = true ->
  splitlines_from cur s =
  match rev cur ++ s with
  | [] => []
  | line => [line]
  end.
Proof.
  revert cur. induction s as [|c s IH]; intros cur H; cbn [splitlines_from].
  - rewrite app_nil_r. destruct cur as [|x cur]; [reflexivity|].
    simpl. now destruct (rev cur ++ [x]) eqn:E;
      [apply app_eq_nil in E as [_ E]; discriminate|].
  - simpl in H. apply andb_true_iff in H as [Hc Hs].
    apply negb_true_iff in Hc.
    assert (H13 : (c =? 13) = false).
    { destruct (N.eqb_spec c 13) as [->|]; [discriminate|reflexivity]. }
    rewrite H13, Hc, (IH _ Hs). simpl. now rewrite <- app_assoc.
Qed.

(** A text without line boundaries that is not a comment is parsed as it
    stands. *)
Lemma strict_parse_single_line (content : str) :
  forallb (fun c => negb (is_linebreak c)) content = true ->
  is_comment_line content = false ->
  strict_parse content = Json.loads content.
Proof.
  intros Hl Hc. unfold strict_parse, clean_lines, splitlines.
  rewrite (splitlines_from_plain [] content Hl). simpl.
  destruct content as [|c s]; [reflexivity|].
  cbn [filter]. now rewrite Hc.
Qed.

(** ** Strategy 1 on a text whose lines end in line feeds *)

Lemma join_cons (sep p q : str) (rest : list str) :
  join sep (p :: q :: rest) = p ++ sep ++ join sep (q :: rest).
Proof. reflexivity. Qed.

Lemma splitlines_from_lf (cur s : str) :
  (forall c, In c s -> is_linebreak c = true -> c = 10) ->
  exists tail,
    (tail = [] \/ tail = [10]) /\
    rev cur ++ s = join [10] (splitlines_from cur s) ++ tail.
Proof.
  revert cur. induction s as [|c s IH]; intros cur Hlf;
    cbn [splitlines_from].
  - exists []. split; [now left|].
    destruct cur as [|x cur]; [reflexivity|]. simpl. now rewrite !app_nil_r.
  - assert (Hs : forall x, In x s -> is_linebreak x = true -> x = 10)
      by (intros x Hx; apply Hlf; now right).
    destruct (is_linebreak c) eqn:Hc.
    + assert (c = 10) as -> by (apply Hlf; [now left|assumption]).
      simpl (10 =? 13). cbv iota.
      destruct (IH [] Hs) as (tail & Ht & Heq). simpl in Heq.
      destruct (splitlines_from [] s) as [|l ls] eqn:El.
      * exists [10]. split; [now right|]. simpl in Heq. simpl.
        destruct Ht as [->| ->]; [now subst|].
        subst s. simpl in El. discriminate.
      * exists tail. split; [assumption|].
        rewrite join_cons, Heq. now rewrite <- !app_assoc.
    + assert (H13 : (c =? 13) = false).
      { destruct (N.eqb_spec c 13) as [->|]; [discriminate|reflexivity]. }
      rewrite H13. destruct (IH (c :: cur) Hs) as (tail & Ht & Heq).
      exists tail. split; [assumption|]. rewrite <- Heq. simpl.
      now rewrite <- app_assoc.
Qed.

(** On a text that has no line boundary but the line feed and no comment
    line, the strict parser is handed the text itself, less its final
    line feed if it ends in one. *)
Lemma clean_text_lf_only (content : str) :
  (forall c, In c content -> is_linebreak c = true -> c = 10) ->
  Forall (fun line => is_comment_line line = false) (splitlines content) ->
  exists tail,
    (tail = [] \/ tail = [10]) /\
    content = join [10] (clean_lines content) ++ tail.
Proof.
  intros Hlf Hc. unfold clean_lines.
  replace (filter (fun line => negb (is_comment_line line))
             (splitlines content)) with (splitlines content).
  - apply (splitlines_from_lf [] content Hlf).
  - symmetry. apply forallb_filter_id. apply forallb_forall.
    rewrite Forall_forall in Hc. intros l Hl. now rewrite (Hc l Hl).
Qed.

(** Where the line feed is the only line boundary in a well-formed text
    without comment lines, strategy 1 loses nothing: the loader returns
    what the strict parser returns on the text itself. *)
Lemma strict_parse_lf_text (rt : PyRuntime) (content : str) (v : value) :
  (forall c, In c content -> is_linebreak c = true -> c = 10) ->
  Forall (fun line => is_comment_line line = false) (splitlines content) ->
  Json.loads content = Ok v ->
  strict_parse content = Ok v /\ load_robust_json rt (Ok content) = Ok v.
Proof.
  intros Hlf Hc Hv.
  assert (Hs : strict_parse content = Ok v).
  { unfold strict_parse.
    destruct (clean_text_lf_only content Hlf Hc) as (tail & [->| ->] & Heq).
    - rewrite app_nil_r in Heq. now rewrite <- Heq.
    - apply loads_lf. now rewrite <- Heq. }
  split; [exact Hs|]. unfold load_robust_json. simpl. now rewrite Hs.
Qed.

(** C5, at the failing input.  The text is a JSON array holding one
    string with a LINE SEPARATOR (U+2028) inside: the strict parser reads
    it, and no line of it is a comment, yet the loader splits the string
    at that character, rejoins the halves with a line feed, fails to
    parse the result and returns the empty list of the scraper. *)
Theorem strict_parse_not_lossless (rt : PyRuntime) :
  Json.loads (py "[`a" ++ [8232] ++ py "b`]") =
    Ok (VList [VStr (py "a" ++ [8232] ++ py "b")]) /\
  clean_lines (py "[`a" ++ [8232] ++ py "b`]") =
    splitlines (py "[`a" ++ [8232] ++ py "b`]") /\
  strict_parse (py "[`a" ++ [8232] ++ py "b`]") = Raise JSONDecodeError /\
  load_robust_json rt (Ok (py "[`a" ++ [8232] ++ py "b`]")) = Ok (VList []) /\
  load_robust_json rt (Ok (py "[`a" ++ [8232] ++ py "b`]")) <>
    Json.loads (py "[`a" ++ [8232] ++ py "b`]").
Proof.
  repeat split; try (vm_compute; reflexivity).
  vm_compute. discriminate.
Qed.

(* ================================================================== *)
(** * The shape normalizer *)
(* ================================================================== *)

Lemma probe_first_list_key (d : dict) (keys : list str) :
  probe d keys =
  match first_list_key d keys with
  | Some key => match dict_get d key with
                | Some (VList l) => Some l
                | _ => None
                end
  | None => None
  end.
Proof.
  induction keys as [|key keys IH]; simpl; [reflexivity|].
  destruct (dict_get d key) as [[| | | | |l|]|] eqn:E; simpl;
    try exact IH.
  now rewrite E.
Qed.

(** C8. The shape normalizer returns a list unchanged; for a mapping it
    probes conversation_turns, vector_data, data, chats, context in this
    order and returns the value of the first that is present and
    list-valued; failing that, a mapping with a message or text key is
    wrapped in a one-element list; every other input gives the empty
    list. *)
Theorem extract_list_from_data_cases :
  possible_keys =
    [py "conversation_turns"; py "vector_data"; py "data"; py "chats";
     py "context"] /\
  (forall l, extract_list_from_data (VList l) = l) /\
  (forall d,
      extract_list_from_data (VDict d) =
      match first_list_key d possible_keys with
      | Some key =>
          match dict_get d key with Some (VList l) => l | _ => [] end
      | None =>
          if dict_has d (py "message") || dict_has d (py "text")
          then [VDict d] else []
      end) /\
  extract_list_from_data VNone = [] /\
  (forall b, extract_list_from_data (VBool b) = []) /\
  (forall z, extract_list_from_data (VInt z) = []) /\
  (forall f, extract_list_from_data (VFloat f) = []) /\
  (forall s, extract_list_from_data (VStr s) = []).
Proof.
  repeat split; try reflexivity.
  intros d. unfold extract_list_from_data.
  rewrite probe_first_list_key.
  destruct (first_list_key d possible_keys) as [key|] eqn:Hk; [|reflexivity].
  unfold first_list_key in Hk. apply find_some in Hk as [_ Hl].
  destruct (dict_get d key) as [[| | | | |l|]|]; try discriminate.
  reflexivity.
Qed.

(* ================================================================== *)
(** * The field resolver *)
(* ================================================================== *)

Lemma last_cons_default {A : Type} (l : list A) (a d : A) :
  last (a :: l) d = last l a.
Proof.
  revert a d. induction l as [|x l IH]; intros a d; [reflexivity|].
  change (last (a :: x :: l) d) with (last (x :: l) d).
  rewrite (IH x d). symmetry. apply IH.
Qed.

Section Accept.
Variable keys : list str.

Lemma accept_truthy (l : dict) (cur : value) :
  truthy cur = true -> fold_left (accept_step keys) l cur = cur.
Proof.
  intros Hc. induction l as [|kv l IH]; simpl; [reflexivity|].
  unfold accept_step at 2. rewrite Hc, andb_false_r. exact IH.
Qed.

Lemma accept_falsy (l : dict) (cur : value) :
  truthy cur = false ->
  fold_left (accept_step keys) l cur =
  match find (fun kv => truthy (snd kv))
             (filter (fun kv => str_in (fst kv) keys) l) with
  | Some kv => snd kv
  | None => last (map snd (filter (fun kv => str_in (fst kv) keys) l)) cur
  end.
Proof.
  revert cur. induction l as [|[k v] l IH]; intros cur Hc; simpl.
  - reflexivity.
  - unfold accept_step at 2. simpl.
    destruct (str_in k keys) eqn:Hk; simpl.
    + rewrite Hc. simpl. destruct (truthy v) eqn:Hv.
      * now apply accept_truthy.
      * rewrite (IH v Hv).
        change (match map snd (filter (fun kv => str_in (fst kv) keys) l) with
                | [] => v
                | _ :: _ =>
                    last (map snd (filter (fun kv => str_in (fst kv) keys) l))
                      cur
                end)
          with (last (v :: map snd (filter (fun kv => str_in (fst kv) keys) l))
                  cur).
        now rewrite last_cons_default.
    + now apply IH.
Qed.

Lemma accept_from_none (l : dict) :
  fold_left (accept_step keys) l VNone = first_truthy keys l.
Proof. now rewrite accept_falsy. Qed.
End Accept.

#[local] Opaque str_in.

(** The two components of the key search do not interact. *)
Lemma key_search_split (chat l : dict) (q r : value) :
  fold_left (key_search_step chat) l (q, r) =
  (if role_allows chat then fold_left (accept_step query_keys) l q else q,
   fold_left (accept_step response_keys) l r).
Proof.
  revert q r. induction l as [|[k v] l IH]; intros q r; simpl.
  - now destruct (role_allows chat).
  - rewrite IH. unfold accept_step at 2 4. cbn [fst snd].
    destruct (role_allows chat); [reflexivity|].
    now destruct (str_in k query_keys && negb (truthy q)).
Qed.

Lemma key_search_query (chat : dict) :
  fst (key_search chat) =
  if role_allows chat then first_truthy query_keys chat else VNone.
Proof.
  unfold key_search. rewrite key_search_split. simpl.
  now rewrite accept_from_none.
Qed.

Lemma key_search_response (chat : dict) :
  resolve_response chat = first_truthy response_keys chat.
Proof.
  unfold resolve_response, key_search. rewrite key_search_split. simpl.
  apply accept_from_none.
Qed.

Lemma context_fold (rt : PyRuntime) (d : dict) (cur : str) :
  fold_left (context_step rt) d cur =
  match last_value context_keys d with
  | Some v => py_str rt v
  | None => cur
  end.
Proof.
  unfold last_value. revert cur.
  induction d as [|[k v] d IH]; intros cur; simpl; [reflexivity|].
  rewrite IH. unfold context_step at 1. simpl.
  destruct (str_in k context_keys) eqn:Hk; simpl; [|reflexivity].
  destruct (rev (filter (fun kv => str_in (fst kv) context_keys) d))
    as [|kv' l'] eqn:E; simpl; reflexivity.
Qed.

Lemma filter_idem {A : Type} (f : A -> bool) (l : list A) :
  filter f (filter f l) = filter f l.
Proof.
  induction l as [|a l IH]; simpl; [reflexivity|].
  destruct (f a) eqn:E; simpl; [rewrite E, IH|]; auto.
Qed.

Lemma first_truthy_filter (keys : list str) (d : dict) :
  first_truthy keys (filter (fun kv => str_in (fst kv) keys) d) =
  first_truthy keys d.
Proof. unfold first_truthy. now rewrite filter_idem. Qed.

(** C6. For a mapping the resolved context is the string form of the last
    value, in stored order, whose key is text, context or chunks, and the
    sentinel when there is no such key; for anything else it is the
    string form of the item itself. *)
Theorem resolve_context_cases (rt : PyRuntime) (ctx : value) :
  resolve_context rt ctx =
  match ctx with
  | VDict d =>
      match last_value [py "text"; py "context"; py "chunks"] d with
      | Some v => py_str rt v
      | None => py "Context Not Found"
      end
  | _ => py_str rt ctx
  end.
Proof.
  destruct ctx; try reflexivity.
  unfold resolve_context. apply context_fold.
Qed.

(** C2, as the code has it.  With a role other than the chatbot's, the
    key search yields the first truthy value, in stored order, whose key
    is user_query, message, query or text: a falsy value (empty, zero,
    null) does not count as accepted and a later match replaces it.  With
    the chatbot's role it yields nothing.  The fallback fires exactly
    when the key search left a falsy query and the item has a message
    key, and it then gives the message value.  In particular a chatbot
    item with a message key gets nothing from the key search and its
    message from the fallback. *)
Theorem resolve_query_first_truthy (chat : dict) :
  fst (key_search chat) =
    (if role_allows chat
     then first_truthy
            [py "user_query"; py "message"; py "query"; py "text"] chat
     else VNone) /\
  resolve_query chat =
    (if negb (truthy (fst (key_search chat))) && dict_has chat (py "message")
     then match dict_get chat (py "message") with
          | Some m => m
          | None => VNone
          end
     else fst (key_search chat)) /\
  (forall m,
      dict_get chat (py "role") = Some (VStr (py "AI/Chatbot")) ->
      dict_get chat (py "message") = Some m ->
      fst (key_search chat) = VNone /\ resolve_query chat = m).
Proof.
  split; [apply key_search_query|]. split.
  - unfold resolve_query, message_fallback, dict_has.
    destruct (truthy (fst (key_search chat))); simpl; [reflexivity|].
    now destruct (dict_get chat (py "message")).
  - intros m Hrole Hmsg.
    assert (Hk : fst (key_search chat) = VNone).
    { rewrite key_search_query. unfold role_allows. rewrite Hrole.
      now vm_compute. }
    split; [exact Hk|].
    unfold resolve_query, message_fallback. rewrite Hk. simpl.
    now rewrite Hmsg.
Qed.

Lemma resolve_query_first_truthy_witness :
  fst (key_search [(py "role", VStr (py "AI/Chatbot"));
                   (py "message", VStr (py "Here is my answer."))]) = VNone /\
  resolve_query [(py "role", VStr (py "AI/Chatbot"));
                 (py "message", VStr (py "Here is my answer."))] =
  VStr (py "Here is my answer.").
Proof.
  apply (proj2 (proj2 (resolve_query_first_truthy
           [(py "role", VStr (py "AI/Chatbot"));
            (py "message", VStr (py "Here is my answer."))]))).
  - vm_compute. reflexivity.
  - vm_compute. reflexivity.
Defined.

(** C2 as worded fails: an item whose message is empty and whose query
    key holds a question resolves to the question, not to the first
    matching value. *)
Lemma resolve_query_not_first_match :
  resolve_query [(py "message", VStr []);
                 (py "query", VStr (py "What is this?"))]
    = VStr (py "What is this?") /\
  Spec.query [(py "message", VStr []);
              (py "query", VStr (py "What is this?"))]
    = VStr [] /\
  resolve_query [(py "message", VStr []);
                 (py "query", VStr (py "What is this?"))]
    <> Spec.query [(py "message", VStr []);
                   (py "query", VStr (py "What is this?"))].
Proof.
  split; [vm_compute; reflexivity|]. split; [vm_compute; reflexivity|].
  vm_compute. discriminate.
Qed.

(** C7, as the code has it.  The response is the first truthy value, in
    stored order, whose key is bot_response, response or answer; it
    depends on the entries under these keys only, so neither the query
    search nor the role touches it.  What is forwarded to the oracle is
    its string form, or the placeholder when no truthy value was
    found. *)
Theorem resolve_response_first_truthy (rt : PyRuntime) (chat : dict) :
  response_keys = [py "bot_response"; py "response"; py "answer"] /\
  resolve_response chat = first_truthy response_keys chat /\
  resolve_response chat =
    resolve_response (filter (fun kv => str_in (fst kv) response_keys) chat) /\
  forwarded_response rt (resolve_response chat) =
    (if truthy (first_truthy response_keys chat)
     then py_str rt (first_truthy response_keys chat)
     else py "Generated Response").
Proof.
  split; [reflexivity|]. split; [apply key_search_response|]. split.
  - now rewrite !key_search_response, first_truthy_filter.
  - rewrite key_search_response. unfold forwarded_response.
    now destruct (truthy (first_truthy response_keys chat)).
Qed.

(** C7 as worded fails: with an empty response and a later answer, the
    answer is forwarded, not the first matching value. *)
Lemma resolve_response_not_first_match :
  forwarded_response ascii_runtime
    (resolve_response [(py "message", VStr (py "hello world"));
                       (py "response", VStr []);
                       (py "answer", VStr (py "forty-two"))])
    = py "forty-two" /\
  py_str ascii_runtime
    (Spec.response [(py "message", VStr (py "hello world"));
                    (py "response", VStr []);
                    (py "answer", VStr (py "forty-two"))])
    = [] /\
  forwarded_response ascii_runtime
    (resolve_response [(py "message", VStr (py "hello world"));
                       (py "response", VStr []);
                       (py "answer", VStr (py "forty-two"))])
    <> py_str ascii_runtime
         (Spec.response [(py "message", VStr (py "hello world"));
                         (py "response", VStr []);
                         (py "answer", VStr (py "forty-two"))]).
Proof.
  split; [vm_compute; reflexivity|]. split; [vm_compute; reflexivity|].
  vm_compute. discriminate.
Qed.

#[local] Transparent str_in.

(* ================================================================== *)
(** * The pair loop *)
(* ================================================================== *)

Lemma utf8_encode_error (s : str) (e : exn) :
  utf8_encode s = Raise e -> e = UnicodeEncodeError.
Proof.
  induction s as [|c s IH]; simpl; [discriminate|].
  destruct (utf8_char c) as [b|e1] eqn:Hc; simpl.
  - destruct (utf8_encode s) as [bs|e2]; simpl; [discriminate|].
    intros [= <-]. now apply IH.
  - intros [= <-]. unfold utf8_char in Hc.
    repeat match type of Hc with
           | (if ?b then _ else _) = _ => destruct b
           end; congruence.
Qed.

Lemma print_cases (text : str) :
  print text = if printable text then Ok tt else Raise UnicodeEncodeError.
Proof.
  unfold printable, print.
  destruct (utf8_encode text) as [b|e] eqn:E; simpl; [reflexivity|].
  now rewrite (utf8_encode_error _ _ E).
Qed.

(** On text of Unicode code points, printing fails exactly on a
    surrogate. *)
Lemma printable_no_surrogate (text : str) :
  Forall (fun c => c < 1114112) text ->
  printable text =
  negb (existsb (fun c => (55296 <=? c) && (c <=? 57343)) text).
Proof.
  unfold printable, print.
  induction 1 as [|c text Hc Ht IH]; [reflexivity|].
  cbn [utf8_encode existsb].
  assert (Hu : if (55296 <=? c) && (c <=? 57343)
               then utf8_char c = Raise UnicodeEncodeError
               else exists b, utf8_char c = Ok b).
  { unfold utf8_char.
    destruct (N.leb_spec 55296 c); destruct (N.leb_spec c 57343); simpl;
      destruct (N.ltb_spec c 128); try lia; eauto;
      destruct (N.ltb_spec c 2048); try lia; eauto;
      destruct (N.ltb_spec c 65536); try lia; eauto;
      destruct (N.ltb_spec c 1114112); try lia; eauto. }
  destruct ((55296 <=? c) && (c <=? 57343)).
  - rewrite Hu. reflexivity.
  - destruct Hu as [b Hb]. rewrite Hb. cbn [bind orb].
    rewrite <- IH. now destruct (utf8_encode text).
Qed.

Section PairLoop.
Variable rt : PyRuntime.
Variables chat_list context_list : list value.

(** The body of the loop on a mapping: nothing happens when the query
    fails the gate; when it passes, the oracle is called if the query
    line can be printed, and printing raises if it cannot. *)
Lemma process_pair_dict (i : nat) (d : dict) (ctx : value) :
  process_pair rt i (VDict d) ctx =
  if gate rt (resolve_query d) then
    if printable (query_line rt (resolve_query d))
    then Ok (Some (call_for rt i d ctx))
    else Raise UnicodeEncodeError
  else Ok None.
Proof.
  unfold process_pair. destruct (gate rt (resolve_query d)); [|reflexivity].
  rewrite print_cases.
  now destruct (printable (query_line rt (resolve_query d))).
Qed.

Lemma process_pair_cases (i : nat) (chat ctx : value) :
  process_pair rt i chat ctx =
  match pair_raises rt chat with
  | Some e => Raise e
  | None =>
      Ok (match chat with
          | VDict d =>
              if makes_call rt d then Some (call_for rt i d ctx) else None
          | _ => None
          end)
  end.
Proof.
  destruct chat as [| | | | | |d]; try reflexivity.
  rewrite process_pair_dict. unfold pair_raises, makes_call.
  destruct (gate rt (resolve_query d)); [|reflexivity].
  now destruct (printable (query_line rt (resolve_query d))).
Qed.

Lemma process_pair_raises (i : nat) (chat ctx : value) (e : exn) :
  process_pair rt i chat ctx = Raise e <-> pair_raises rt chat = Some e.
Proof.
  rewrite process_pair_cases.
  destruct (pair_raises rt chat); split; congruence.
Qed.

Lemma process_pair_returns (i : nat) (chat ctx : value) o :
  process_pair rt i chat ctx = Ok o -> pair_raises rt chat = None.
Proof.
  rewrite process_pair_cases. now destruct (pair_raises rt chat).
Qed.

(** One more pair taken up, with the calls its body made. *)
Lemma calls_match_step (r : run) (chat ctx : value) (made : list oracle_call) :
  calls_match rt r ->
  (forall c, In c made <->
             exists d, chat = VDict d /\ makes_call rt d = true /\
                       c = call_for rt (List.length (visited r)) d ctx) ->
  forall o,
    calls_match rt {| visited := visited r ++ [(chat, ctx)];
                   calls := calls r ++ made;
                   crash := o |}.
Proof.
  intros Hr Hmade o c. simpl. rewrite in_app_iff, (Hr c), (Hmade c). split.
  - intros [(i & d & x & Hn & Hg & Hc) | (d & Hd & Hg & Hc)].
    + exists i, d, x. split; [|now split].
      rewrite nth_error_app1; [assumption|].
      apply nth_error_Some. now rewrite Hn.
    + exists (List.length (visited r)), d, ctx. subst chat.
      split; [|now split].
      rewrite nth_error_app2 by lia. now rewrite Nat.sub_diag.
  - intros (i & d & x & Hn & Hg & Hc).
    destruct (Nat.lt_ge_cases i (List.length (visited r))) as [Hlt|Hge].
    + left. exists i, d, x. split; [|now split].
      now rewrite nth_error_app1 in Hn.
    + right. rewrite nth_error_app2 in Hn by assumption.
      destruct (i - List.length (visited r))%nat as [|k] eqn:Ek; simpl in Hn.
      * injection Hn as -> ->. exists d. split; [reflexivity|].
        split; [assumption|]. replace (List.length (visited r)) with i by lia.
        assumption.
      * now destruct k.
Qed.

(** The calls of the loop are those of the pairs it takes up whose chat
    item gets its call. *)
Lemma pair_loop_calls (n i : nat) (r : run) :
  List.length (visited r) = i ->
  calls_match rt r ->
  calls_match rt (pair_loop rt chat_list context_list i n r).
Proof.
  revert i r. induction n as [|n IH]; intros i r Hlen Hr; simpl;
    [assumption|].
  unfold index.
  destruct (nth_error chat_list i) as [chat|]; simpl;
    [|intros c; simpl; apply Hr].
  destruct (nth_error context_list i) as [ctx|]; simpl;
    [|intros c; simpl; apply Hr].
  assert (Hstep : forall made o,
    (forall c, In c made <->
       exists d, chat = VDict d /\ makes_call rt d = true /\
                 c = call_for rt i d ctx) ->
    calls_match rt {| visited := visited r ++ [(chat, ctx)];
                   calls := calls r ++ made; crash := o |}).
  { intros made o Hm. apply calls_match_step; [assumption|].
    now rewrite Hlen. }
  rewrite process_pair_cases.
  destruct (pair_raises rt chat) as [e|] eqn:He.
  - rewrite <- (app_nil_r (calls r)). apply Hstep. intros c. simpl.
    split; [intros []|]. intros (d & -> & Hg & _).
    unfold pair_raises in He. unfold makes_call in Hg.
    apply andb_true_iff in Hg as [Hg Hp]. rewrite Hg, Hp in He.
    discriminate.
  - destruct chat as [| | | | | |d]; try discriminate;
      try (apply IH; [simpl; rewrite length_app; simpl; lia|];
           rewrite <- (app_nil_r (calls r)); apply Hstep; intros c; simpl;
           split; [intros []|]; intros (d' & Hd & _); discriminate).
    destruct (makes_call rt d) eqn:Hg;
      (apply IH; [simpl; rewrite length_app; simpl; lia|]).
    + apply Hstep. intros c. simpl. split.
      * intros [<-|[]]. now exists d.
      * intros (d' & [= <-] & _ & ->). now left.
    + rewrite <- (app_nil_r (calls r)). apply Hstep. intros c. simpl.
      split; [intros []|]. intros (d' & [= <-] & Hg' & _). congruence.
Qed.

(** The loop ends in an exception only at a chat item on which its body
    raises. *)
Lemma pair_loop_crash (n i : nat) (r : run) :
  (i + n <= List.length chat_list)%nat ->
  (i + n <= List.length context_list)%nat ->
  crash_at_raising_pair rt r ->
  crash_at_raising_pair rt (pair_loop rt chat_list context_list i n r).
Proof.
  revert i r. induction n as [|n IH]; intros i r Hc Hx Hr; simpl;
    [assumption|].
  unfold index.
  destruct (nth_error chat_list i) as [chat|] eqn:Ec;
    [|apply nth_error_None in Ec; lia].
  destruct (nth_error context_list i) as [ctx|] eqn:Ex;
    [|apply nth_error_None in Ex; lia].
  simpl.
  destruct (process_pair rt i chat ctx) as [[c0|]|e] eqn:Hp.
  - apply IH; [lia|lia|]. intros e. simpl. discriminate.
  - apply IH; [lia|lia|]. intros e. simpl. discriminate.
  - intros e'. simpl. intros [= <-]. apply process_pair_raises in Hp.
    now exists (visited r), chat, ctx.
Qed.

(** The pairs of a run that ended without an exception are the next
    [n] pairs of the two lists, in order. *)
Lemma pair_loop_visited (n i : nat) (r : run) :
  crash (pair_loop rt chat_list context_list i n r) = None ->
  visited (pair_loop rt chat_list context_list i n r) =
  visited r ++
  firstn n (combine (skipn i chat_list) (skipn i context_list)).
Proof.
  revert i r. induction n as [|n IH]; intros i r; simpl.
  - now rewrite app_nil_r.
  - unfold index.
    destruct (nth_error chat_list i) as [chat|] eqn:Ec; simpl;
      [|discriminate].
    destruct (nth_error context_list i) as [ctx|] eqn:Ex; simpl;
      [|discriminate].
    assert (Hsk : combine (skipn i chat_list) (skipn i context_list) =
                  (chat, ctx) ::
                  combine (skipn (S i) chat_list) (skipn (S i) context_list)).
    { clear IH. revert chat_list context_list Ec Ex.
      induction i as [|i IHi]; intros [|a cl] [|b xl]; simpl;
        try discriminate.
      - now intros [= ->] [= ->].
      - intros Hc Hx. now apply IHi. }
    destruct (process_pair rt i chat ctx) as [[c0|]|e]; [| |discriminate];
      intros H; rewrite (IH _ _ H); simpl; rewrite Hsk; simpl;
      now rewrite <- app_assoc.
Qed.

(** The loop from pair [i] on stops at the first chat item on which its
    body raises. *)
Lemma pair_loop_first_raising (n i : nat) (r : run) :
  (i + n <= List.length chat_list)%nat ->
  (i + n <= List.length context_list)%nat ->
  crash r = None ->
  let r' := pair_loop rt chat_list context_list i n r in
  let pairs := combine (skipn i chat_list) (skipn i context_list) in
  match first_raising rt (firstn n (skipn i chat_list)) with
  | None => crash r' = None /\ visited r' = visited r ++ firstn n pairs
  | Some (k, e) =>
      crash r' = Some e /\ visited r' = visited r ++ firstn (S k) pairs
  end.
Proof.
  revert i r. induction n as [|n IH]; intros i r Hc Hx Hr; simpl.
  - now rewrite app_nil_r.
  - unfold index.
    destruct (nth_error chat_list i) as [chat|] eqn:Ec;
      [|apply nth_error_None in Ec; lia].
    destruct (nth_error context_list i) as [ctx|] eqn:Ex;
      [|apply nth_error_None in Ex; lia].
    assert (Hsk : forall (l : list value) (a : value),
              nth_error l i = Some a -> skipn i l = a :: skipn (S i) l).
    { clear. induction i as [|i IHi]; intros [|b l] a; simpl;
        try discriminate.
      - now intros [= ->].
      - intros H. now apply IHi. }
    rewrite (Hsk _ _ Ec), (Hsk _ _ Ex).
    cbn [firstn first_raising combine bind].
    destruct (process_pair rt i chat ctx) as [[c0|]|e] eqn:Hp;
      [apply process_pair_returns in Hp; rewrite Hp
      |apply process_pair_returns in Hp; rewrite Hp
      |apply process_pair_raises in Hp; rewrite Hp; now split];
      match goal with
      | |- context [pair_loop _ _ _ _ _ ?r0] =>
          specialize (IH (S i) r0 ltac:(lia) ltac:(lia) eq_refl)
      end;
      cbn [visited crash] in IH;
      destruct (first_raising rt (firstn n (skipn (S i) chat_list)))
        as [[k e]|];
      destruct IH as [-> ->]; rewrite <- app_assoc; now split.
Qed.
End PairLoop.

Lemma Forall_firstn (A : Type) (P : A -> Prop) (n : nat) (l : list A) :
  Forall P l -> Forall P (firstn n l).
Proof.
  intros H. revert n. induction H as [|a l Ha Hl IH]; intros [|n]; simpl;
    constructor; auto.
Qed.

Lemma first_raising_none (rt : PyRuntime) (l : list value) :
  Forall (fun chat => pair_raises rt chat = None) l ->
  first_raising rt l = None.
Proof.
  induction 1 as [|chat l Hc Hl IH]; simpl; [reflexivity|].
  now rewrite Hc, IH.
Qed.

Lemma first_raising_bound (rt : PyRuntime) (l : list value) (k : nat)
    (e : exn) :
  first_raising rt l = Some (k, e) ->
  (k < List.length l)%nat /\
  exists chat, nth_error l k = Some chat /\ pair_raises rt chat = Some e.
Proof.
  revert k. induction l as [|chat l IH]; intros k; simpl; [discriminate|].
  destruct (pair_raises rt chat) as [e0|] eqn:Hc.
  - intros [= <- <-]. split; [lia|]. now exists chat.
  - destruct (first_raising rt l) as [[k0 e0]|]; [|discriminate].
    intros [= <- <-]. destruct (IH k0 eq_refl) as [Hk Hn].
    split; [lia|exact Hn].
Qed.

Lemma nth_error_firstn (A : Type) (k : nat) (l : list A) (i : nat) (x : A) :
  nth_error (firstn k l) i = Some x <->
  (i < List.length (firstn k l))%nat /\ nth_error l i = Some x.
Proof.
  revert l i. induction k as [|k IH]; intros l i.
  - simpl. destruct i; simpl; split; try discriminate; intros [H _]; lia.
  - destruct l as [|a l]; simpl.
    + destruct i; simpl; split; try discriminate; intros [H _]; lia.
    + destruct i as [|i]; simpl.
      * split; [intros H; split; [lia|assumption]|now intros [_ H]].
      * rewrite IH. split; intros [H1 H2]; (split; [lia|assumption]).
Qed.

Lemma nth_error_combine (A B : Type) (a : list A) (b : list B) (i : nat)
    (x : A) (y : B) :
  nth_error (combine a b) i = Some (x, y) <->
  nth_error a i = Some x /\ nth_error b i = Some y.
Proof.
  revert b i. induction a as [|u a IH]; intros b i.
  - simpl. destruct i; simpl; split; try discriminate; now intros [H _].
  - destruct b as [|v b]; simpl.
    + destruct i; simpl; split; try discriminate; now intros [_ H].
    + destruct i as [|i]; simpl; [|apply IH].
      split; [now intros [= -> ->]|now intros [[= ->] [= ->]]].
Qed.

(** How far a run gets: up to and including the first pair on whose
    chat item the body of the loop raises, or through every pair. *)
Lemma pair_loop_taken (rt : PyRuntime) (chat_list context_list : list value) :
  let limit := Nat.min (List.length chat_list) (List.length context_list) in
  let r := pair_loop rt chat_list context_list 0 limit empty_run in
  let taken :=
    match first_raising rt (firstn limit chat_list) with
    | None => limit
    | Some (k, _) => S k
    end in
  visited r = firstn taken (combine chat_list context_list) /\
  List.length (visited r) = taken /\
  crash r =
    match first_raising rt (firstn limit chat_list) with
    | None => None
    | Some (_, e) => Some e
    end.
Proof.
  intros limit r taken.
  pose proof (pair_loop_first_raising rt chat_list context_list limit 0
                empty_run (Nat.le_min_l _ _) (Nat.le_min_r _ _) eq_refl)
    as H.
  cbn [app skipn visited crash empty_run] in H. fold r in H. subst taken.
  assert (Hl : List.length (combine chat_list context_list) = limit)
    by apply length_combine.
  destruct (first_raising rt (firstn limit chat_list)) as [[k e]|] eqn:Hf;
    destruct H as [Hc Hv]; rewrite Hv; (split; [reflexivity|]);
    (split; [|exact Hc]); rewrite length_firstn, Hl.
  - apply first_raising_bound in Hf as [Hk _].
    rewrite length_firstn in Hk. lia.
  - lia.
Qed.

(** The pairs of a run are those of the two lists at the positions it
    got to. *)
Lemma pair_loop_positions (rt : PyRuntime)
    (chat_list context_list : list value) (i : nat) (chat ctx : value) :
  let limit := Nat.min (List.length chat_list) (List.length context_list) in
  let r := pair_loop rt chat_list context_list 0 limit empty_run in
  nth_error (visited r) i = Some (chat, ctx) <->
  (i < List.length (visited r))%nat /\
  nth_error chat_list i = Some chat /\
  nth_error context_list i = Some ctx.
Proof.
  intros limit r.
  destruct (pair_loop_taken rt chat_list context_list) as (Hv & _ & _).
  fold limit in Hv. fold r in Hv.
  rewrite Hv at 1. rewrite nth_error_firstn, <- Hv, nth_error_combine.
  reflexivity.
Qed.

(** The calls of a whole run. *)
Lemma pair_loop_calls_match (rt : PyRuntime)
    (chat_list context_list : list value) :
  calls_match rt
    (pair_loop rt chat_list context_list 0
       (Nat.min (List.length chat_list) (List.length context_list))
       empty_run).
Proof.
  apply pair_loop_calls; [reflexivity|].
  intros c. simpl. split; [intros []|].
  intros (i & d & ctx & H & _). now destruct i.
Qed.

(** C3, at the failing input.  The chat file holds one mapping whose
    message starts with a lone surrogate, written as an escape.  Its
    resolved query is truthy and thirteen characters long, so the pair
    passes the gate; yet the oracle is not called: the query is printed
    first, the surrogate cannot be encoded for standard output, and the
    UnicodeEncodeError ends the run.  On every mapping, a query that fails
    the gate gives neither a call nor an exception, and one that passes
    it gives the call exactly when the line that shows its first hundred
    characters can be printed. *)
Theorem gated_query_fails_to_print (rt : PyRuntime) :
  load_robust_json rt (Ok (py "[{`message`: `\ud800 hello there`}]")) =
    Ok (VList [VDict [(py "message", VStr (55296 :: py " hello there"))]]) /\
  resolve_query [(py "message", VStr (55296 :: py " hello there"))] =
    VStr (55296 :: py " hello there") /\
  truthy (VStr (55296 :: py " hello there")) = true /\
  len (py_str rt (VStr (55296 :: py " hello there"))) = 13%nat /\
  print (query_line rt (VStr (55296 :: py " hello there"))) =
    Raise UnicodeEncodeError /\
  main rt (Ok (py "[{`message`: `\ud800 hello there`}]"))
          (Ok (py "[`ctx`]")) =
    Ok (Evaluated 1
          {| visited :=
               [(VDict [(py "message", VStr (55296 :: py " hello there"))],
                 VStr (py "ctx"))];
             calls := [];
             crash := Some UnicodeEncodeError |}) /\
  (forall i d ctx,
      process_pair rt i (VDict d) ctx =
      if truthy (resolve_query d) &&
         (5 <? len (py_str rt (resolve_query d)))%nat
      then
        match print (py "Query: " ++
                     firstn 100 (py_str rt (resolve_query d)) ++ py "...") with
        | Ok _ => Ok (Some (call_for rt i d ctx))
        | Raise e => Raise e
        end
      else Ok None).
Proof.
  split; [vm_compute; reflexivity|].
  split; [vm_compute; reflexivity|].
  split; [reflexivity|].
  split; [reflexivity|].
  split; [vm_compute; reflexivity|].
  split; [vm_compute; reflexivity|].
  intros i d ctx. unfold process_pair. fold (gate rt (resolve_query d)).
  destruct (gate rt (resolve_query d)); [|reflexivity].
  unfold query_line.
  now destruct (print (py "Query: " ++
                       firstn 100 (py_str rt (resolve_query d)) ++ py "...")).
Qed.

(** The pairs of a run that ended without an exception are the pairs of
    the two lists up to the shorter one, in index order; and the run ends
    without an exception when the body of the loop raises on no chat
    item. *)
Lemma pair_loop_pairs (rt : PyRuntime) (chat_list context_list : list value) :
  let limit := Nat.min (List.length chat_list) (List.length context_list) in
  let r := pair_loop rt chat_list context_list 0 limit empty_run in
  (crash r = None ->
   visited r = combine chat_list context_list /\
   List.length (visited r) = limit) /\
  (Forall (fun chat => pair_raises rt chat = None) chat_list ->
   crash r = None).
Proof.
  intros limit r. split.
  - intros H. subst r.
    rewrite (pair_loop_visited rt chat_list context_list _ _ _ H). simpl.
    assert (Hl : List.length (combine chat_list context_list) = limit)
      by apply length_combine.
    rewrite firstn_all2 by lia. now split.
  - intros Hd.
    pose proof (pair_loop_first_raising rt chat_list context_list limit 0
                  empty_run (Nat.le_min_l _ _) (Nat.le_min_r _ _) eq_refl)
      as H.
    simpl in H. fold r in H.
    rewrite first_raising_none in H; [now destruct H|].
    now apply Forall_firstn.
Qed.

(** C9, at the failing input.  With the chat file holding the JSON array
    of the strings hello and world and the context file the array of a
    and b, the limit is 2, yet the loop takes up the first pair only and
    ends there in an AttributeError, the chat item having no items(). *)
Theorem pair_loop_aborts_on_non_mapping (rt : PyRuntime) :
  main rt (Ok (py "[`hello`, `world`]")) (Ok (py "[`a`, `b`]")) =
  Ok (Evaluated 2
        {| visited := [(VStr (py "hello"), VStr (py "a"))];
           calls := [];
           crash := Some AttributeError |}).
Proof. vm_compute. reflexivity. Qed.

(* ================================================================== *)
(** * From the loaded data to the loop *)
(* ================================================================== *)

Lemma flat_fallback_extract (data : value) :
  flat_fallback (extract_list_from_data data) data =
  extract_list_from_data data.
Proof.
  destruct data as [| | | | |l|d]; try reflexivity.
  - simpl. now destruct l.
  - unfold flat_fallback. now destruct (extract_list_from_data (VDict d)).
Qed.

(** X1.  The two fallback assignments that follow the unpacking never
    change a list: a list that [extract_list_from_data] returns as empty
    for data that is a list is that data itself.  The loop therefore
    always runs over the lists of [extract_list_from_data]. *)
Theorem flat_fallback_no_effect (rt : PyRuntime)
    (chats_data contexts_data : value) :
  flat_fallback (extract_list_from_data chats_data) chats_data =
    extract_list_from_data chats_data /\
  evaluate rt chats_data contexts_data =
    if is_none chats_data || is_none contexts_data then CouldNotLoad
    else
      let chat_list := extract_list_from_data chats_data in
      let context_list := extract_list_from_data contexts_data in
      let limit := Nat.min (List.length chat_list) (List.length context_list) in
      Evaluated limit (pair_loop rt chat_list context_list 0 limit empty_run).
Proof.
  split; [apply flat_fallback_extract|].
  unfold evaluate. rewrite !flat_fallback_extract.
  now destruct (is_none chats_data), (is_none contexts_data).
Qed.

(** After a failed strict parse [load_robust_json] returns a list of
    scraper fragments. *)
Lemma load_robust_json_salvaged (rt : PyRuntime) (content : str) (e : exn) :
  strict_parse content = Raise e ->
  exists items,
    load_robust_json rt (Ok content) = Ok (VList items) /\
    Forall (salvage_item rt) items.
Proof.
  intros Hs. unfold load_robust_json. simpl. rewrite Hs.
  destruct (salvage rt content) as [items|e'] eqn:Hv; simpl.
  - exists items. split; [now destruct items|].
    unfold salvage in Hv.
    eapply salvage_loop_items; [apply found_items_keys| |eassumption].
    constructor.
  - exists []. split; [reflexivity|constructor].
Qed.

(** X2.  What [load_robust_json] returns is either the value of the
    strict parse of the file's text, or a list of one-key mappings from
    the scraper (the empty list when the file could not be read); it
    returns the second only when the strict parse failed. *)
Theorem load_robust_json_strict_or_salvaged (rt : PyRuntime)
    (file : result str) :
  exists v,
    load_robust_json rt file = Ok v /\
    ((exists content, file = Ok content /\ strict_parse content = Ok v) \/
     (exists items,
         v = VList items /\
         Forall (salvage_item rt) items /\
         forall content, file = Ok content ->
                         exists e, strict_parse content = Raise e)).
Proof.
  destruct file as [content|e].
  - destruct (strict_parse content) as [parsed|e] eqn:Hs.
    + exists parsed. split; [|left; now exists content].
      unfold load_robust_json. simpl. now rewrite Hs.
    + destruct (load_robust_json_salvaged rt content e Hs)
        as (items & Hl & Hi).
      exists (VList items). split; [exact Hl|]. right. exists items.
      repeat split; [assumption|]. intros c [= <-]. now exists e.
  - exists (VList []). split; [reflexivity|]. right. exists [].
    repeat split; [constructor|]. intros c. discriminate.
Qed.

Lemma salvage_loop_raises (rt : PyRuntime) (found : list (str * str))
    (acc : list value) (kv : str * str) (e : exn) :
  In kv found -> clean_value rt (snd kv) = Raise e ->
  exists e', salvage_loop rt found acc = Raise e'.
Proof.
  revert acc. induction found as [|[k v] found IH]; intros acc [].
  - subst kv. simpl. intros ->. simpl. now exists e.
  - intros He. simpl. destruct (clean_value rt v) as [cv|e1]; simpl.
    + destruct ((len cv <? 2)%nat || isdigit rt cv); now apply IH.
    + now exists e1.
Qed.

(** X3.  The scraper is all or nothing: when the strict parse has failed
    and the value of any one match cannot be unescaped, the exception
    leaves the loop and [load_robust_json] returns the empty list,
    whatever the other matches were. *)
Theorem salvage_all_or_nothing (rt : PyRuntime) (content : str)
    (kv : str * str) (e0 e : exn) :
  strict_parse content = Raise e0 ->
  In kv (found_items content) ->
  clean_value rt (snd kv) = Raise e ->
  load_robust_json rt (Ok content) = Ok (VList []).
Proof.
  intros Hs Hin He. unfold load_robust_json. simpl. rewrite Hs.
  unfold salvage.
  destruct (salvage_loop_raises rt _ [] _ _ Hin He) as [e' ->].
  reflexivity.
Qed.

Lemma salvage_all_or_nothing_witness :
  found_items (py "`text`: `a good long fragment`, `message`: `\x`") =
    [(py "text", py "a good long fragment"); (py "message", py "\x")] /\
  load_robust_json ascii_runtime
    (Ok (py "`text`: `a good long fragment`, `message`: `\x`")) =
  Ok (VList []).
Proof.
  split; [reflexivity|].
  apply (salvage_all_or_nothing ascii_runtime _ (py "message", py "\x")
           JSONDecodeError UnicodeDecodeError).
  - reflexivity.
  - vm_compute. right. left. reflexivity.
  - reflexivity.
Defined.

(* ================================================================== *)
(** * Salvaged fragments in the loop *)
(* ================================================================== *)

(** The fields of a scraper fragment: a fragment under a query key is
    its own query and has no response; one under a response key has no
    query. *)
Lemma salvage_item_fields (rt : PyRuntime) (item : value) :
  salvage_item rt item ->
  exists key v,
    item = VDict [(key, VStr v)] /\ (2 <= len v)%nat /\
    ((In key query_keys /\
      resolve_query [(key, VStr v)] = VStr v /\
      resolve_response [(key, VStr v)] = VNone) \/
     resolve_query [(key, VStr v)] = VNone).
Proof.
  intros (key & v & -> & Hk & Hl & _). exists key, v.
  split; [reflexivity|]. split; [assumption|].
  destruct v as [|a v]; [simpl in Hl; lia|].
  simpl in Hk.
  destruct Hk as [<-|[<-|[<-|[<-|[<-|[<-|[]]]]]]];
    first [ right; reflexivity
          | left; split; [simpl; tauto | split; reflexivity] ].
Qed.

Lemma salvage_item_raises (rt : PyRuntime) (item : value) (e : exn) :
  salvage_item rt item -> pair_raises rt item = Some e ->
  e = UnicodeEncodeError.
Proof.
  intros (key & v & -> & _). unfold pair_raises.
  now destruct (gate rt (resolve_query [(key, VStr v)]) &&
                negb (printable
                        (query_line rt (resolve_query [(key, VStr v)]))));
    intros [= <-].
Qed.

Lemma In_firstn (A : Type) (n : nat) (l : list A) (x : A) :
  In x (firstn n l) -> In x l.
Proof.
  revert l. induction n as [|n IH]; intros [|a l]; simpl; try tauto.
  intros [->|H]; [now left|right]. now apply IH.
Qed.

(** The loop over chat items that are scraper fragments. *)
Lemma salvaged_chat_list (rt : PyRuntime) (chat_list context_list : list value) :
  Forall (salvage_item rt) chat_list ->
  let r :=
    pair_loop rt chat_list context_list 0
      (Nat.min (List.length chat_list) (List.length context_list)) empty_run in
  (crash r = None \/ crash r = Some UnicodeEncodeError) /\
  forall c, In c (calls r) ->
    call_response c = response_placeholder /\
    exists key v,
      In key query_keys /\
      nth_error chat_list (call_index c) = Some (VDict [(key, VStr v)]) /\
      call_query c = VStr v /\ (5 < len v)%nat.
Proof.
  intros Hs r. split.
  - destruct (pair_loop_taken rt chat_list context_list) as (_ & _ & Hc).
    fold r in Hc. rewrite Hc.
    destruct (first_raising rt _) as [[k e]|] eqn:Hf; [|now left].
    right. apply first_raising_bound in Hf as (_ & chat & Hn & He).
    apply nth_error_In in Hn.
    assert (Hin : In chat chat_list) by exact (In_firstn _ _ _ _ Hn).
    rewrite Forall_forall in Hs.
    now rewrite (salvage_item_raises rt chat e (Hs _ Hin) He).
  - intros c Hin.
    apply (pair_loop_calls_match rt chat_list context_list c) in Hin
      as (i & d & ctx & Hn & Hg & ->).
    apply (pair_loop_positions rt chat_list context_list) in Hn
      as (_ & Hn & _).
    rewrite Forall_forall in Hs.
    destruct (salvage_item_fields rt _ (Hs _ (nth_error_In _ _ Hn)))
      as (key & v & [= ->] & Hl & [(Hk & Hq & Hr)|Hq]);
      unfold makes_call in Hg; apply andb_true_iff in Hg as [Hg _].
    + simpl. rewrite Hr. split; [reflexivity|].
      exists key, v. rewrite Hq in *. repeat split; try assumption.
      unfold gate in Hg. apply andb_prop in Hg as [_ Hg]. simpl in Hg.
      now apply Nat.ltb_lt in Hg.
    + rewrite Hq in Hg. discriminate.
Qed.

(** X4.  When the strict parse of the chat file fails, the chat items
    are the fragments of the scraper: the run never ends in the
    AttributeError of a chat item that is not a mapping (it can end only
    in the UnicodeEncodeError of a query that cannot be printed), and
    every call to the oracle carries the placeholder as response and, as
    query, the text of the fragment at its own position, a fragment found
    under one of the query keys.  A response that the scraper recovered
    is never passed on. *)
Theorem salvaged_chats_use_placeholder (rt : PyRuntime)
    (content : str) (context_file : result str) (e : exn) :
  strict_parse content = Raise e ->
  exists items,
    load_robust_json rt (Ok content) = Ok (VList items) /\
    (main rt (Ok content) context_file = Ok CouldNotLoad \/
     exists limit r,
       main rt (Ok content) context_file = Ok (Evaluated limit r) /\
       (crash r = None \/ crash r = Some UnicodeEncodeError) /\
       forall c, In c (calls r) ->
         call_response c = py "Generated Response" /\
         exists key v,
           In key [py "user_query"; py "message"; py "query"; py "text"] /\
           nth_error items (call_index c) = Some (VDict [(key, VStr v)]) /\
           call_query c = VStr v /\ (5 < len v)%nat).
Proof.
  intros Hs.
  destruct (load_robust_json_salvaged rt content e Hs) as (items & Hv & Hi).
  exists items. split; [exact Hv|].
  destruct (load_robust_json_returns rt context_file) as [w Hw].
  unfold main. rewrite Hv, Hw. simpl. unfold evaluate.
  rewrite !flat_fallback_extract. simpl.
  destruct (is_none w); [now left|]. right.
  eexists _, _. split; [reflexivity|].
  exact (salvaged_chat_list rt items (extract_list_from_data w) Hi).
Qed.

Lemma salvaged_chats_use_placeholder_witness :
  exists limit r,
    main ascii_runtime
      (Ok (py "`query`: `What is 2+2?`, `response`: `It is four.`"))
      (Ok (py "[`arithmetic`, `more`]")) = Ok (Evaluated limit r) /\
    (crash r = None \/ crash r = Some UnicodeEncodeError) /\
    calls r =
      [{| call_index := 0; call_query := VStr (py "What is 2+2?");
          call_context := py "arithmetic";
          call_response := py "Generated Response" |}].
Proof.
  destruct (salvaged_chats_use_placeholder ascii_runtime
              (py "`query`: `What is 2+2?`, `response`: `It is four.`")
              (Ok (py "[`arithmetic`, `more`]")) JSONDecodeError)
    as (items & _ & [H|(limit & r & H & Hc & _)]).
  - reflexivity.
  - discriminate H.
  - exists limit, r. split; [exact H|]. split; [exact Hc|].
    vm_compute in H. injection H as _ <-. reflexivity.
Defined.

(** X5.  A scraper fragment used as context item gives its text as
    context when it was found under the key [text]; a fragment under any
    other role key gives the sentinel. *)
Theorem salvaged_context_text_only (rt : PyRuntime) (item : value) :
  salvage_item rt item ->
  exists key v,
    item = VDict [(key, VStr v)] /\
    resolve_context rt item =
      if str_eqb key (py "text") then v else py "Context Not Found".
Proof.
  intros (key & v & -> & Hk & _). exists key, v. split; [reflexivity|].
  simpl in Hk.
  destruct Hk as [<-|[<-|[<-|[<-|[<-|[<-|[]]]]]]]; reflexivity.
Qed.

Lemma salvaged_context_text_only_witness :
  exists key v,
    VDict [(py "message", VStr (py "the sky is blue"))] =
      VDict [(key, VStr v)] /\
    resolve_context ascii_runtime
      (VDict [(py "message", VStr (py "the sky is blue"))]) =
      if str_eqb key (py "text") then v else py "Context Not Found".
Proof.
  apply (salvaged_context_text_only ascii_runtime).
  exists (py "message"), (py "the sky is blue").
  repeat split; try reflexivity.
  - simpl. tauto.
  - simpl. lia.
Defined.

(* ================================================================== *)
(** * The role filter and the message fallback *)
(* ================================================================== *)

Lemma dict_get_In (d : dict) (k : str) (v : value) :
  dict_get d k = Some v -> In (k, v) d.
Proof.
  induction d as [|[k' v'] d IH]; simpl; [discriminate|].
  destruct (str_eqb k k') eqn:E.
  - intros [= ->]. apply str_eqb_eq in E as ->. now left.
  - intros H. right. now apply IH.
Qed.

(** When the key search ends on a falsy value, every value it met under
    one of the keys was falsy. *)
Lemma accept_all_falsy (keys : list str) (l : dict) (cur : value) :
  truthy cur = false ->
  truthy (fold_left (accept_step keys) l cur) = false ->
  forall kv, In kv l -> str_in (fst kv) keys = true -> truthy (snd kv) = false.
Proof.
  revert cur. induction l as [|a l IH]; intros cur Hc Hf kv Hin Hk;
    [destruct Hin|].
  cbn [fold_left] in Hf.
  assert (Hs : accept_step keys cur a =
               if str_in (fst a) keys then snd a else cur).
  { unfold accept_step. rewrite Hc. now destruct (str_in (fst a) keys). }
  rewrite Hs in Hf.
  destruct (str_in (fst a) keys) eqn:Ea.
  - destruct (truthy (snd a)) eqn:Ht.
    + rewrite accept_truthy in Hf by assumption. congruence.
    + destruct Hin as [<-|Hin]; [assumption|]. now apply (IH (snd a)).
  - destruct Hin as [<-|Hin]; [congruence|]. now apply (IH cur).
Qed.

(** X6.  For a chat item whose role is not the chatbot's, the fallback to
    the message key never lets a pair through: the resolved query passes
    the gate exactly when the value found by the key search does.  The
    fallback can only matter for an item with the chatbot's role. *)
Theorem message_fallback_only_for_chatbot (rt : PyRuntime) (chat : dict) :
  role_allows chat = true ->
  truthy (resolve_query chat) = truthy (fst (key_search chat)) /\
  gate rt (resolve_query chat) = gate rt (fst (key_search chat)).
Proof.
  intros Hr. unfold resolve_query, message_fallback.
  destruct (truthy (fst (key_search chat))) eqn:Ht; simpl;
    [now rewrite Ht|].
  destruct (dict_get chat (py "message")) as [m|] eqn:Hm;
    [|now rewrite Ht].
  assert (Hf : truthy m = false).
  { rewrite key_search_query, Hr, <- accept_from_none in Ht.
    apply (accept_all_falsy query_keys chat VNone eq_refl Ht (py "message", m)).
    - now apply dict_get_In.
    - reflexivity. }
  unfold gate. now rewrite Hf, Ht.
Qed.

Lemma message_fallback_only_for_chatbot_witness :
  gate ascii_runtime
    (resolve_query [(py "role", VStr (py "user")); (py "message", VStr []);
                    (py "text", VInt 0)]) =
  gate ascii_runtime
    (fst (key_search [(py "role", VStr (py "user")); (py "message", VStr []);
                      (py "text", VInt 0)])).
Proof.
  apply (message_fallback_only_for_chatbot ascii_runtime
           [(py "role", VStr (py "user")); (py "message", VStr []);
            (py "text", VInt 0)]).
  reflexivity.
Defined.

(** X7.  For a chat item with the chatbot's role the keys user_query,
    query and text are never used: the query is the value under the
    key message, and an item without that key is never evaluated. *)
Theorem chatbot_query_is_message (rt : PyRuntime) (chat : dict) :
  dict_get chat (py "role") = Some (VStr (py "AI/Chatbot")) ->
  resolve_query chat =
    match dict_get chat (py "message") with
    | Some m => m
    | None => VNone
    end /\
  (dict_has chat (py "message") = false ->
   forall i ctx, process_pair rt i (VDict chat) ctx = Ok None).
Proof.
  intros Hr.
  assert (Ha : role_allows chat = false).
  { unfold role_allows. now rewrite Hr. }
  assert (Hq : resolve_query chat =
               match dict_get chat (py "message") with
               | Some m => m
               | None => VNone
               end).
  { unfold resolve_query. rewrite key_search_query, Ha. reflexivity. }
  split; [exact Hq|].
  unfold dict_has. intros Hm i ctx. rewrite process_pair_dict, Hq.
  now destruct (dict_get chat (py "message")).
Qed.

Lemma chatbot_query_is_message_witness :
  process_pair ascii_runtime 0
    (VDict [(py "role", VStr (py "AI/Chatbot"));
            (py "text", VStr (py "Here is my long answer."))])
    (VStr (py "ctx")) = Ok None.
Proof.
  apply (chatbot_query_is_message ascii_runtime
           [(py "role", VStr (py "AI/Chatbot"));
            (py "text", VStr (py "Here is my long answer."))]);
    reflexivity.
Defined.

(* ================================================================== *)
(** * The order and the extent of a run *)
(* ================================================================== *)

Lemma StronglySorted_snoc (l : list nat) (x : nat) :
  StronglySorted lt l -> Forall (fun y => (y < x)%nat) l ->
  StronglySorted lt (l ++ [x]).
Proof.
  induction 1 as [|a l Hs IH Ha]; intros Hx; simpl.
  - repeat constructor.
  - inversion Hx; subst. constructor; [now apply IH|].
    apply Forall_app. split; [assumption|]. now repeat constructor.
Qed.

(** The calls of a run carry the indices of their pairs, in increasing
    order. *)
Lemma pair_loop_order (rt : PyRuntime) (chat_list context_list : list value)
    (n i : nat) (r : run) :
  StronglySorted lt (map call_index (calls r)) ->
  Forall (fun c => (call_index c < i)%nat) (calls r) ->
  (List.length (calls r) <= i)%nat ->
  let r' := pair_loop rt chat_list context_list i n r in
  StronglySorted lt (map call_index (calls r')) /\
  Forall (fun c => (call_index c < i + n)%nat) (calls r') /\
  (List.length (calls r') <= i + n)%nat.
Proof.
  revert i r. induction n as [|n IH]; intros i r Hs Hb Hl; simpl.
  - rewrite Nat.add_0_r. auto.
  - assert (Hw : Forall (fun c => (call_index c < i + S n)%nat) (calls r)).
    { eapply Forall_impl; [|exact Hb]. simpl. intros; lia. }
    unfold index.
    destruct (nth_error chat_list i) as [chat|]; simpl;
      [|repeat split; [assumption|assumption|lia]].
    destruct (nth_error context_list i) as [ctx|]; simpl;
      [|repeat split; [assumption|assumption|lia]].
    destruct (process_pair rt i chat ctx) as [[c|]|e] eqn:Hp; simpl;
      [| |repeat split; [assumption|assumption|lia]].
    + assert (Hi : call_index c = i).
      { destruct chat; try discriminate. rewrite process_pair_dict in Hp.
        destruct (gate rt (resolve_query d)); [|discriminate].
        destruct (printable (query_line rt (resolve_query d)));
          [|discriminate].
        now injection Hp as <-. }
      replace (i + S n)%nat with (S i + n)%nat by lia.
      apply IH; simpl.
      * rewrite map_app. simpl. apply StronglySorted_snoc; [assumption|].
        rewrite Forall_map, Hi. exact Hb.
      * apply Forall_app. split.
        -- eapply Forall_impl; [|exact Hb]. simpl. intros; lia.
        -- constructor; [lia|constructor].
      * rewrite length_app. simpl. lia.
    + replace (i + S n)%nat with (S i + n)%nat by lia.
      apply IH; simpl; [assumption| |lia].
      eapply Forall_impl; [|exact Hb]. simpl. intros; lia.
Qed.

(** X8.  The oracle is called in the order of the input: the indices of
    the calls of a run increase strictly, each is below the limit, and a
    run makes at most as many calls as the limit. *)
Theorem calls_in_input_order (rt : PyRuntime)
    (chat_list context_list : list value) :
  let limit := Nat.min (List.length chat_list) (List.length context_list) in
  let r := pair_loop rt chat_list context_list 0 limit empty_run in
  StronglySorted lt (map call_index (calls r)) /\
  Forall (fun c => (call_index c < limit)%nat) (calls r) /\
  (List.length (calls r) <= limit)%nat.
Proof.
  intros limit r.
  apply (pair_loop_order rt chat_list context_list limit 0 empty_run);
    simpl; [constructor|constructor|lia].
Qed.

(** X9.  A file that cannot be read leaves nothing to evaluate: whichever
    of the two files fails to open, the run either reports that no data
    was loaded or goes over zero pairs, without a call and without an
    exception. *)
Theorem unreadable_file_zero_pairs (rt : PyRuntime) (file : result str)
    (e : exn) :
  (main rt (Raise e) file = Ok CouldNotLoad \/
   main rt (Raise e) file = Ok (Evaluated 0 empty_run)) /\
  (main rt file (Raise e) = Ok CouldNotLoad \/
   main rt file (Raise e) = Ok (Evaluated 0 empty_run)).
Proof.
  destruct (load_robust_json_returns rt file) as [v Hv].
  unfold main. rewrite Hv. simpl. unfold evaluate. simpl.
  destruct (is_none v); simpl; split; auto; right;
    rewrite ?Nat.min_0_r; reflexivity.
Qed.

(** X10.  The loop stops at the first chat item, within the limit, on
    which its body raises: a chat item that is not a mapping, with the
    AttributeError of its missing items(), or a mapping whose query
    passes the gate and cannot be printed, with the UnicodeEncodeError
    of the print.  It then has taken up the pairs up to and including
    that one.  When its body raises on no chat item within the limit,
    it ends without an exception after taking up every pair. *)
Theorem pair_loop_stops_at_first_raising_pair (rt : PyRuntime)
    (chat_list context_list : list value) :
  let limit := Nat.min (List.length chat_list) (List.length context_list) in
  let r := pair_loop rt chat_list context_list 0 limit empty_run in
  match first_raising rt (firstn limit chat_list) with
  | None =>
      crash r = None /\ visited r = combine chat_list context_list
  | Some (k, e) =>
      crash r = Some e /\
      visited r = firstn (S k) (combine chat_list context_list) /\
      exists chat,
        nth_error chat_list k = Some chat /\
        match chat with
        | VDict d =>
            e = UnicodeEncodeError /\
            gate rt (resolve_query d) = true /\
            print (query_line rt (resolve_query d)) =
              Raise UnicodeEncodeError
        | _ => e = AttributeError
        end
  end.
Proof.
  intros limit r.
  destruct (pair_loop_taken rt chat_list context_list) as (Hv & _ & Hc).
  fold limit in Hv, Hc. fold r in Hv, Hc.
  destruct (first_raising rt (firstn limit chat_list)) as [[k e]|] eqn:Hf.
  - split; [exact Hc|]. split; [exact Hv|].
    apply first_raising_bound in Hf as (_ & chat & Hn & He).
    exists chat. split.
    + apply nth_error_firstn in Hn. tauto.
    + destruct chat as [| | | | | |d]; simpl in He; try congruence.
      destruct (gate rt (resolve_query d)); [|discriminate].
      simpl in He. rewrite print_cases.
      destruct (printable (query_line rt (resolve_query d)));
        [discriminate|].
      injection He as <-. now repeat split.
  - split; [exact Hc|]. rewrite Hv. apply firstn_all2.
    rewrite length_combine. reflexivity.
Qed.

(* ================================================================== *)
(** * Unescaping a salvaged value *)
(* ================================================================== *)

(** The bytes of one character: itself below 128, else two bytes or
    more, each from 128 to 255. *)
Lemma utf8_char_bytes (c : N) (b : list N) :
  utf8_char c = Ok b ->
  (c < 128 /\ b = [c]) \/
  (128 <= c /\ (2 <= List.length b)%nat /\
   Forall (fun x => 128 <= x /\ x < 256) b).
Proof.
  unfold utf8_char.
  assert (Hm : forall x, 128 <= 128 + x mod 64 /\ 128 + x mod 64 < 256).
  { intros x. pose proof (N.mod_lt x 64 ltac:(lia)) as H. revert H.
    generalize (x mod 64). intros; lia. }
  destruct (N.ltb_spec c 128) as [H1|H1]; [intros [= <-]; now left|].
  intros Hb. right. split; [assumption|]. revert Hb.
  destruct (N.ltb_spec c 2048) as [H2|H2].
  { intros [= <-]. split; [simpl; lia|].
    assert (H : 128 <= 192 + c / 64 /\ 192 + c / 64 < 256).
    { assert (H : c / 64 < 32) by (apply N.Div0.div_lt_upper_bound; lia).
      revert H. generalize (c / 64). intros; lia. }
    repeat (apply Forall_cons; [first [exact H | apply Hm]|]);
      apply Forall_nil. }
  destruct (N.ltb_spec c 65536) as [H3|H3].
  { destruct ((55296 <=? c) && (c <=? 57343)); [discriminate|].
    intros [= <-]. split; [simpl; lia|].
    assert (H : 128 <= 224 + c / 4096 /\ 224 + c / 4096 < 256).
    { assert (H : c / 4096 < 16) by (apply N.Div0.div_lt_upper_bound; lia).
      revert H. generalize (c / 4096). intros; lia. }
    repeat (apply Forall_cons; [first [exact H | apply Hm]|]);
      apply Forall_nil. }
  destruct (N.ltb_spec c 1114112) as [H4|H4]; [|discriminate].
  intros [= <-]. split; [simpl; lia|].
  assert (H : 128 <= 240 + c / 262144 /\ 240 + c / 262144 < 256).
  { assert (H : c / 262144 < 5) by (apply N.Div0.div_lt_upper_bound; lia).
    revert H. generalize (c / 262144). intros; lia. }
  repeat (apply Forall_cons; [first [exact H | apply Hm]|]);
    apply Forall_nil.
Qed.

Lemma utf8_encode_bytes (v : str) (b : list N) :
  utf8_encode v = Ok b ->
  (~ In 92 v -> ~ In 92 b) /\
  Forall (fun x => x < 256) b /\
  (len v <= len b)%nat /\
  (Forall (fun c => c < 128) v -> b = v) /\
  (Exists (fun c => 128 <= c) v -> (len v < len b)%nat).
Proof.
  revert b. induction v as [|c v IH]; intros b; simpl.
  - intros [= <-]. repeat split; auto. inversion 1.
  - destruct (utf8_char c) as [bc|] eqn:Hc; simpl; [|discriminate].
    destruct (utf8_encode v) as [bv|]; simpl; [|discriminate].
    intros [= <-].
    destruct (IH bv eq_refl) as (I1 & I2 & I3 & I4 & I5).
    unfold len in *. rewrite length_app.
    apply utf8_char_bytes in Hc as [[Hlt ->]|(Hge & Hl & Hb)].
    + simpl. repeat split.
      * intros Hn [->|Hin]; [apply Hn; now left|].
        apply I1; [|assumption]. intros Hv. apply Hn. now right.
      * constructor; [lia|assumption].
      * lia.
      * intros Hf. inversion Hf; subst. f_equal. now apply I4.
      * intros He. inversion He; subst; [lia|].
        specialize (I5 ltac:(assumption)). lia.
    + repeat split.
      * intros Hn Hin. apply in_app_or in Hin as [Hin|Hin].
        -- rewrite Forall_forall in Hb. specialize (Hb _ Hin). lia.
        -- apply I1; [|assumption]. intros Hv. apply Hn. now right.
      * apply Forall_app. split; [|assumption].
        eapply Forall_impl; [|exact Hb]. simpl. intros; lia.
      * simpl. lia.
      * intros Hf. inversion Hf; subst. lia.
      * intros _. simpl. lia.
Qed.

(** Bytes without a backslash decode to themselves. *)
Lemma unicode_escape_plain (rt : PyRuntime) (b : list N) (fuel : nat)
    (acc : str) :
  ~ In 92 b -> (List.length b <= fuel)%nat ->
  unicode_escape_from rt fuel acc b = Ok (rev acc ++ b).
Proof.
  revert fuel acc. induction b as [|c b IH]; intros fuel acc Hn Hl.
  - destruct fuel; simpl; now rewrite app_nil_r.
  - destruct fuel as [|fuel]; [simpl in Hl; lia|]. simpl.
    destruct (N.eqb_spec c 92) as [->|Hc]; [exfalso; apply Hn; now left|].
    simpl. rewrite IH.
    + simpl. now rewrite <- app_assoc.
    + intros Hin. apply Hn. now right.
    + simpl in Hl. lia.
Qed.

Lemma clean_value_plain (rt : PyRuntime) (v : str) :
  ~ In 92 v -> clean_value rt v = utf8_encode v.
Proof.
  intros Hn. unfold clean_value.
  destruct (utf8_encode v) as [b|e] eqn:Hb; simpl; [|reflexivity].
  unfold unicode_escape_decode. rewrite unicode_escape_plain.
  - reflexivity.
  - now apply (utf8_encode_bytes v b Hb).
  - lia.
Qed.

(** X11.  Unescaping leaves a value of ASCII characters without a
    backslash as it is. *)
Theorem clean_value_ascii_identity (rt : PyRuntime) (v : str) :
  Forall (fun c => c < 128) v -> ~ In 92 v -> clean_value rt v = Ok v.
Proof.
  intros Ha Hn. rewrite clean_value_plain by assumption.
  clear Hn. induction Ha as [|c v Hc Ha IH]; simpl; [reflexivity|].
  rewrite IH. unfold utf8_char.
  destruct (N.ltb_spec c 128); [reflexivity|lia].
Qed.

Lemma clean_value_ascii_identity_witness :
  clean_value ascii_runtime (py "What is 2+2?") = Ok (py "What is 2+2?").
Proof.
  apply (clean_value_ascii_identity ascii_runtime (py "What is 2+2?")).
  - repeat constructor.
  - vm_compute. intros H.
    repeat (destruct H as [H|H]; [discriminate H|]). exact H.
Defined.

(** X12.  Unescaping garbles every character above ASCII: a value
    without a backslash comes back as its UTF-8 bytes, one character below
    256 for each byte, so a value that holds a character from 128 on comes
    back longer than it was and is never returned intact. *)
Theorem clean_value_garbles_non_ascii (rt : PyRuntime) (v w : str) :
  ~ In 92 v ->
  clean_value rt v = Ok w ->
  utf8_encode v = Ok w /\
  Forall (fun c => c < 256) w /\
  (Exists (fun c => 128 <= c) v -> (len v < len w)%nat /\ w <> v).
Proof.
  intros Hn Hc. rewrite clean_value_plain in Hc by assumption.
  destruct (utf8_encode_bytes v w Hc) as (_ & Hb & _ & _ & He).
  repeat split; try assumption.
  - now apply He.
  - intros ->. specialize (He H). lia.
Qed.

Lemma clean_value_garbles_non_ascii_witness :
  clean_value ascii_runtime [99; 97; 102; 233] = Ok [99; 97; 102; 195; 169] /\
  (len [99; 97; 102; 233]%N < len [99; 97; 102; 195; 169]%N)%nat.
Proof.
  assert (Hn : ~ In 92 [99; 97; 102; 233]).
  { intros H. repeat (destruct H as [H|H]; [discriminate H|]). exact H. }
  split; [reflexivity|].
  apply (clean_value_garbles_non_ascii ascii_runtime
           [99; 97; 102; 233] [99; 97; 102; 195; 169] Hn eq_refl).
  right. right. right. left. discriminate.
Defined.

(* ================================================================== *)
(** * Strategy 1: lines, comments and the byte order mark *)
(* ================================================================== *)

Lemma splitlines_from_app (l rest cur : str) :
  forallb (fun c => negb (is_linebreak c)) l = true ->
  splitlines_from cur (l ++ rest) = splitlines_from (rev l ++ cur) rest.
Proof.
  revert cur. induction l as [|c l IH]; intros cur H; [reflexivity|].
  simpl in H. apply andb_true_iff in H as [Hc Hl].
  apply negb_true_iff in Hc.
  assert (H13 : (c =? 13) = false).
  { destruct (N.eqb_spec c 13) as [->|]; [discriminate|reflexivity]. }
  cbn [app splitlines_from]. rewrite H13, Hc, (IH _ Hl). simpl.
  now rewrite <- app_assoc.
Qed.

(** Lines without a line boundary inside, joined by line feeds, split
    into the same lines; a single line feed at the end adds none. *)
Lemma splitlines_join (ls : list str) (l tail : str) :
  Forall (fun l => forallb (fun c => negb (is_linebreak c)) l = true)
         (ls ++ [l]) ->
  l <> [] ->
  tail = [] \/ tail = [10] ->
  splitlines (join [10] (ls ++ [l]) ++ tail) = ls ++ [l].
Proof.
  intros Hp Hl Ht. unfold splitlines.
  induction ls as [|a ls IH].
  - simpl. inversion Hp as [|? ? Ha _]; subst.
    rewrite (splitlines_from_app l tail [] Ha), app_nil_r.
    destruct l as [|c l]; [congruence|].
    assert (Hr : rev (c :: l) <> []).
    { simpl. intros E. apply app_eq_nil in E as [_ E]. discriminate. }
    destruct Ht as [->| ->]; cbn [splitlines_from].
    + destruct (rev (c :: l)) eqn:E; [congruence|].
      rewrite <- E, rev_involutive. reflexivity.
    + simpl (10 =? 13). cbv iota. simpl (is_linebreak 10). cbv iota.
      now rewrite rev_involutive.
  - inversion Hp as [|? ? Ha Hp']; subst. specialize (IH Hp').
    replace (join [10] ((a :: ls) ++ [l]) ++ tail)
      with (a ++ 10 :: (join [10] (ls ++ [l]) ++ tail)).
    + rewrite (splitlines_from_app a _ [] Ha), app_nil_r.
      cbn [splitlines_from]. simpl (10 =? 13). cbv iota.
      simpl (is_linebreak 10). cbv iota.
      now rewrite rev_involutive, IH.
    + simpl. destruct (ls ++ [l]) eqn:E.
      * now destruct ls.
      * now rewrite <- app_assoc.
Qed.

(** X13.  Strategy 1 on a text made of lines that end in line feeds:
    the strict parser is handed the lines that are not comments, joined
    by line feeds.  Whole lines whose first characters after leading
    whitespace are two slashes are dropped before parsing, wherever they
    stand, and a final line feed is dropped as well. *)
Theorem strict_parse_drops_comment_lines (ls : list str) (l tail : str) :
  Forall (fun l => forallb (fun c => negb (is_linebreak c)) l = true)
         (ls ++ [l]) ->
  l <> [] ->
  tail = [] \/ tail = [10] ->
  strict_parse (join [10] (ls ++ [l]) ++ tail) =
  Json.loads
    (join [10] (filter (fun line => negb (is_comment_line line)) (ls ++ [l]))).
Proof.
  intros Hp Hl Ht. unfold strict_parse, clean_lines.
  now rewrite splitlines_join.
Qed.

Lemma strict_parse_drops_comment_lines_witness :
  strict_parse
    (join [10] ([py "// chat export"; py "[1,"; py "   // second item"] ++
                [py " 2]"]) ++ [10]) =
  Ok (VList [VInt 1; VInt 2]).
Proof.
  rewrite (strict_parse_drops_comment_lines
             [py "// chat export"; py "[1,"; py "   // second item"]
             (py " 2]") [10]).
  - reflexivity.
  - repeat constructor.
  - discriminate.
  - now right.
Defined.

Lemma splitlines_from_head (s cur : str) (c : N) :
  exists line rest, splitlines_from (cur ++ [c]) s = (c :: line) :: rest.
Proof.
  revert cur. induction s as [|x s IH]; intros cur; cbn [splitlines_from].
  - destruct (cur ++ [c]) eqn:E; [now destruct cur|].
    rewrite <- E, rev_app_distr. simpl. eauto.
  - assert (Hr : rev (cur ++ [c]) = c :: rev cur)
      by now rewrite rev_app_distr.
    destruct (x =? 13).
    + destruct s as [|d s]; [|destruct (d =? 10)]; rewrite Hr; eauto.
    + destruct (is_linebreak x); [rewrite Hr; eauto|].
      apply (IH (x :: cur)).
Qed.

Lemma lstrip_snoc (s : str) (c : N) :
  isspace c = false -> exists s', lstrip (s ++ [c]) = s' ++ [c].
Proof.
  intros Hc. induction s as [|x s IH]; simpl.
  - rewrite Hc. now exists [].
  - destruct (isspace x); [assumption|]. now exists (x :: s).
Qed.

(** What is not whitespace at the head of a line stays at the head of
    the stripped line. *)
Lemma strip_head (c : N) (l : str) :
  isspace c = false -> exists l', strip (c :: l) = c :: l'.
Proof.
  intros Hc. unfold strip, rstrip. simpl. rewrite Hc. simpl.
  destruct (lstrip_snoc (rev l) c Hc) as [s' ->].
  rewrite rev_app_distr. simpl. eauto.
Qed.

(** X14.  A text that starts with a byte order mark never passes
    strategy 1, however well formed the rest is: the mark stays at the
    head of the first line, that line is not a comment, and the strict
    parser rejects a text that starts with the mark.  Such a file always
    ends up with the scraper. *)
Theorem byte_order_mark_forces_salvage (rt : PyRuntime) (rest : str) :
  strict_parse (65279 :: rest) = Raise JSONDecodeError /\
  exists items,
    load_robust_json rt (Ok (65279 :: rest)) = Ok (VList items) /\
    Forall (salvage_item rt) items.
Proof.
  assert (Hs : strict_parse (65279 :: rest) = Raise JSONDecodeError).
  { unfold strict_parse, clean_lines, splitlines.
    cbn [splitlines_from]. change (65279 =? 13) with false.
    change (is_linebreak 65279) with false. cbv iota.
    destruct (splitlines_from_head rest [] 65279) as (line & more & Hh).
    simpl in Hh. rewrite Hh.
    cbn [filter].
    assert (Hc : is_comment_line (65279 :: line) = false).
    { unfold is_comment_line.
      destruct (strip_head 65279 line eq_refl) as [l' ->]. reflexivity. }
    rewrite Hc. cbn [negb].
    destruct (filter (fun l => negb (is_comment_line l)) more);
      reflexivity. }
  split; [exact Hs|]. exact (load_robust_json_salvaged rt _ _ Hs).
Qed.

(* ================================================================== *)
(** * Texts with nothing to find *)
(* ================================================================== *)

Lemma findall_from_no_quote (q : N) (s : str) (skip : nat) :
  ~ In q s -> Re.findall_from q skip s = [].
Proof.
  revert skip. induction s as [|c s IH]; intros skip Hn; [reflexivity|].
  assert (Hs : ~ In q s) by (intros H; apply Hn; now right).
  cbn [Re.findall_from]. destruct skip as [|k]; [|now apply IH].
  unfold Re.match_here. cbn [strip_prefix].
  destruct (N.eqb_spec q c) as [->|_]; [exfalso; apply Hn; now left|].
  now apply IH.
Qed.

(** X15.  The scraper needs a quote character: a text that holds
    neither the double nor the single quote of ASCII has no match, so
    [load_robust_json] returns what the strict parse gives or, when that
    fails, the empty list. *)
Theorem no_quotes_nothing_salvaged (rt : PyRuntime) (content : str) :
  ~ In 34 content -> ~ In 39 content ->
  found_items content = [] /\
  load_robust_json rt (Ok content) =
    Ok (match strict_parse content with
        | Ok parsed => parsed
        | Raise _ => VList []
        end).
Proof.
  intros H34 H39.
  assert (Hf : found_items content = []).
  { unfold found_items, Re.findall.
    now rewrite !findall_from_no_quote by assumption. }
  split; [exact Hf|].
  unfold load_robust_json, salvage. simpl. rewrite Hf.
  now destruct (strict_parse content).
Qed.

Lemma no_quotes_nothing_salvaged_witness :
  load_robust_json ascii_runtime (Ok (py "{message: hello there}")) =
  Ok (VList []).
Proof.
  apply (no_quotes_nothing_salvaged ascii_runtime
           (py "{message: hello there}"));
    vm_compute; intros H;
    repeat (destruct H as [H|H]; [discriminate H|]); exact H.
Defined.

Lemma splitlines_from_chars (P : N -> Prop) (s cur : str) :
  Forall P cur -> Forall P s -> Forall (Forall P) (splitlines_from cur s).
Proof.
  remember (List.length s) as n eqn:Hn.
  assert (Hle : (List.length s <= n)%nat) by lia. clear Hn.
  revert s cur Hle. induction n as [|n IH]; intros s cur Hle Hc Hs.
  - destruct s; [|simpl in Hle; lia]. simpl.
    destruct cur; constructor; [|constructor]. now apply Forall_rev.
  - destruct s as [|c s]; cbn [splitlines_from].
    + destruct cur; constructor; [|constructor]. now apply Forall_rev.
    + inversion Hs as [|? ? Hx Hs']; subst. simpl in Hle.
      assert (Hr : Forall P (rev cur)) by now apply Forall_rev.
      assert (Hn : Forall (Forall P) (splitlines_from [] s))
        by (apply IH; [lia|constructor|assumption]).
      destruct (c =? 13).
      * destruct s as [|d s]; [now constructor|].
        destruct (d =? 10); constructor; try assumption.
        inversion Hs'; subst. simpl in Hle.
        apply IH; [lia|constructor|assumption].
      * destruct (is_linebreak c); [now constructor|].
        apply IH; [lia|now constructor|assumption].
Qed.

Lemma join_chars (P : N -> Prop) (sep : str) (ls : list str) :
  Forall P sep -> Forall (Forall P) ls -> Forall P (join sep ls).
Proof.
  intros Hsep. induction 1 as [|l ls Hl Hls IH]; simpl; [constructor|].
  destruct ls; [assumption|].
  apply Forall_app. split; [assumption|].
  apply Forall_app. split; assumption.
Qed.

Lemma skip_ws_chars (P : N -> Prop) (s : str) :
  Forall P s -> Forall P (Json.skip_ws s).
Proof.
  induction 1 as [|c s Hc Hs IH]; simpl; [constructor|].
  destruct (Json.is_ws c); [assumption|now constructor].
Qed.

(** The code points that [str.isspace] accepts. *)
Lemma isspace_cases (c : N) :
  isspace c = true ->
  (9 <= c /\ c <= 32) \/ c = 133 \/ 160 <= c.
Proof.
  unfold isspace. rewrite !orb_true_iff, !andb_true_iff.
  rewrite !N.leb_le, !N.eqb_eq. lia.
Qed.

(** No JSON value starts with a whitespace character. *)
Lemma scan_once_space (depth : nat) (c : N) (s : str) :
  isspace c = true ->
  Json.scan_once depth (c :: s) = Raise JSONDecodeError.
Proof.
  intros Hc. apply isspace_cases in Hc.
  assert (Hne : forall k, 33 <= k -> k <= 132 -> (c =? k) = false)
    by (intros k H1 H2; apply N.eqb_neq; lia).
  assert (Hd : Json.is_digit c = false).
  { unfold Json.is_digit. apply andb_false_iff.
    rewrite !N.leb_gt. lia. }
  assert (H45 : (45 =? c) = false) by (apply N.eqb_neq; lia).
  destruct depth; cbn [Json.scan_once];
    rewrite !Hne by lia;
    unfold Json.named_constant; rewrite !Hne by lia;
    unfold Json.match_number; cbn [py map list_ascii_of_string strip_prefix];
    change (py_char "-") with 45; rewrite H45;
    unfold Json.int_part; rewrite Hne, Hd by lia; reflexivity.
Qed.

Lemma loads_blank (t : str) :
  Forall (fun c => isspace c = true) t ->
  Json.loads t = Raise JSONDecodeError.
Proof.
  intros Ht. unfold Json.loads.
  assert (Hb : startswith t [65279] = false).
  { destruct Ht as [|c t Hc _]; [reflexivity|].
    unfold startswith. cbn [strip_prefix].
    destruct (N.eqb_spec 65279 c) as [<-|_]; [|reflexivity].
    vm_compute in Hc. discriminate Hc. }
  rewrite Hb.
  pose proof (skip_ws_chars _ t Ht) as Hk.
  destruct (Json.skip_ws t) as [|c s].
  - now destruct (len t).
  - inversion Hk; subst. now rewrite scan_once_space.
Qed.

(** X16.  An empty file, or one of whitespace only, gives the empty
    list: the strict parse finds no value and the scraper no match. *)
Theorem blank_file_gives_empty_list (rt : PyRuntime) (content : str) :
  Forall (fun c => isspace c = true) content ->
  strict_parse content = Raise JSONDecodeError /\
  load_robust_json rt (Ok content) = Ok (VList []).
Proof.
  intros Hc.
  assert (Hs : strict_parse content = Raise JSONDecodeError).
  { unfold strict_parse, clean_lines. apply loads_blank.
    apply join_chars; [now repeat constructor|].
    pose proof (splitlines_from_chars _ content [] (Forall_nil _) Hc) as Hl.
    fold (splitlines content) in Hl. rewrite Forall_forall in *.
    intros l Hin. apply filter_In in Hin as [Hin _]. now apply Hl. }
  split; [exact Hs|].
  assert (Hq : forall q, isspace q = false -> ~ In q content).
  { intros q Hq Hin. rewrite Forall_forall in Hc.
    specialize (Hc q Hin). congruence. }
  unfold load_robust_json, salvage, found_items, Re.findall. simpl.
  rewrite Hs, !findall_from_no_quote by (apply Hq; reflexivity).
  reflexivity.
Qed.

Lemma blank_file_gives_empty_list_witness :
  load_robust_json ascii_runtime (Ok []) = Ok (VList []) /\
  load_robust_json ascii_runtime (Ok [32; 10; 9; 13; 10; 160]) =
    Ok (VList []).
Proof.
  split.
  - apply (blank_file_gives_empty_list ascii_runtime []). constructor.
  - apply (blank_file_gives_empty_list ascii_runtime
             [32; 10; 9; 13; 10; 160]).
    repeat constructor.
Defined.

(* ================================================================== *)
(** * What the scraper finds stands in the text *)
(* ================================================================== *)

Lemma match_body_text (q : N) (s acc v rest : str) :
  Re.match_body q acc s = Some (v, rest) ->
  exists body, v = rev acc ++ body /\ s = body ++ q :: rest.
Proof.
  remember (List.length s) as n eqn:Hn.
  assert (Hle : (List.length s <= n)%nat) by lia. clear Hn.
  revert s acc Hle. induction n as [|n IH]; intros s acc Hle;
    (destruct s as [|c s]; [discriminate|]); simpl in Hle; [lia|].
  cbn [Re.match_body].
  destruct (N.eqb_spec c q) as [->|_].
  - intros [= <- <-]. exists []. now rewrite app_nil_r.
  - destruct (c =? 92).
    + destruct s as [|d s]; [discriminate|].
      destruct (d =? 10); [discriminate|]. simpl in Hle.
      intros H. apply IH in H as (body & -> & ->); [|lia].
      exists (c :: d :: body). simpl. now rewrite <- !app_assoc.
    + intros H. apply IH in H as (body & -> & ->); [|lia].
      exists (c :: body). simpl. now rewrite <- app_assoc.
Qed.

Lemma lstrip_split (s : str) :
  exists ws, Forall (fun c => isspace c = true) ws /\ s = ws ++ lstrip s.
Proof.
  induction s as [|c s (ws & Hw & Hs)]; simpl.
  - exists []. now split.
  - destruct (isspace c) eqn:Hc.
    + exists (c :: ws). split; [now constructor|]. simpl. now f_equal.
    + exists []. now split.
Qed.

Lemma match_after_key_text (q : N) (s v rest : str) :
  Re.match_after_key q s = Some (v, rest) ->
  exists ws,
    Forall (fun c => isspace c = true) ws /\
    s = [q; 58] ++ ws ++ [q] ++ v ++ [q] ++ rest.
Proof.
  unfold Re.match_after_key.
  destruct (strip_prefix [q; 58] s) as [s1|] eqn:H1; [|discriminate].
  destruct (strip_prefix [q] (lstrip s1)) as [s2|] eqn:H2; [|discriminate].
  intros H. apply match_body_text in H as (body & -> & ->).
  apply strip_prefix_app in H1, H2.
  destruct (lstrip_split s1) as (ws & Hw & Hs).
  exists ws. split; [assumption|]. rewrite H1, Hs, H2. reflexivity.
Qed.

Lemma match_keys_text (q : N) (keys : list str) (s : str) kv rest :
  Re.match_keys q keys s = Some (kv, rest) ->
  exists ws,
    Forall (fun c => isspace c = true) ws /\
    s = fst kv ++ [q; 58] ++ ws ++ [q] ++ snd kv ++ [q] ++ rest.
Proof.
  induction keys as [|k keys IH]; simpl; [discriminate|].
  destruct (strip_prefix k s) as [r|] eqn:Hk; [|exact IH].
  destruct (Re.match_after_key q r) as [[v rest']|] eqn:Hm; [|exact IH].
  intros [= <- <-].
  apply match_after_key_text in Hm as (ws & Hw & ->).
  apply strip_prefix_app in Hk. exists ws. now split.
Qed.

Lemma findall_from_text (q : N) (s : str) (skip : nat) (kv : str * str) :
  In kv (Re.findall_from q skip s) ->
  exists pre ws post,
    Forall (fun c => isspace c = true) ws /\
    s = pre ++ [q] ++ fst kv ++ [q; 58] ++ ws ++ [q] ++ snd kv ++ [q] ++ post.
Proof.
  revert skip. induction s as [|c s IH]; intros skip; [intros []|].
  assert (Hs : forall k, In kv (Re.findall_from q k s) ->
    exists pre ws post,
      Forall (fun c => isspace c = true) ws /\
      c :: s =
      pre ++ [q] ++ fst kv ++ [q; 58] ++ ws ++ [q] ++ snd kv ++ [q] ++ post).
  { intros k H. apply IH in H as (pre & ws & post & Hw & ->).
    now exists (c :: pre), ws, post. }
  cbn [Re.findall_from]. destruct skip as [|k]; [|apply Hs].
  destruct (Re.match_here q (c :: s)) as [[kv0 rest]|] eqn:Hm; [|apply Hs].
  intros [<-|H]; [|now apply Hs in H].
  unfold Re.match_here in Hm.
  destruct (strip_prefix [q] (c :: s)) as [s'|] eqn:Hq; [|discriminate].
  apply strip_prefix_app in Hq.
  apply match_keys_text in Hm as (ws & Hw & ->).
  exists [], ws, rest. now split.
Qed.

(** X17.  The scraper invents nothing: every pair it finds stands in
    the text as it is, a role key between two quotes of the same kind, a
    colon, whitespace, and the value between two more of those quotes. *)
Theorem found_items_occur_in_text (content key v : str) :
  In (key, v) (found_items content) ->
  In key Re.role_keys /\
  exists q pre ws post,
    (q = 34 \/ q = 39) /\
    Forall (fun c => isspace c = true) ws /\
    content = pre ++ [q] ++ key ++ [q; 58] ++ ws ++ [q] ++ v ++ [q] ++ post.
Proof.
  intros Hin. split.
  - pose proof (found_items_keys content) as Hk.
    rewrite Forall_forall in Hk. exact (Hk _ Hin).
  - unfold found_items, Re.findall in Hin.
    apply in_app_or in Hin as [H|H];
      apply findall_from_text in H as (pre & ws & post & Hw & Heq);
      [exists 34|exists 39]; exists pre, ws, post; auto.
Qed.

Lemma found_items_occur_in_text_witness :
  exists q pre ws post,
    (q = 34 \/ q = 39) /\
    Forall (fun c => isspace c = true) ws /\
    py "{'id': 7, 'text':  'it is so', }" =
    pre ++ [q] ++ py "text" ++ [q; 58] ++ ws ++ [q] ++ py "it is so" ++
    [q] ++ post.
Proof.
  apply (found_items_occur_in_text
           (py "{'id': 7, 'text':  'it is so', }") (py "text")
           (py "it is so")).
  vm_compute. left. reflexivity.
Defined.

(* ================================================================== *)
(** * Pairs by position, fragments in order *)
(* ================================================================== *)

(** X18.  Pairs are matched by position and a skipped pair shifts
    nothing.  A run gets as far as the first pair on whose chat item the
    body of the loop raises, or through every pair within the limit; its
    calls are exactly those for the positions it got to at which the
    chat item is a mapping whose query passes the gate and can be
    printed, each call carrying its own position, the query and response
    of the chat item at that position and the context of the context item
    at the same position. *)
Theorem calls_pair_by_position (rt : PyRuntime)
    (chat_list context_list : list value) :
  let limit := Nat.min (List.length chat_list) (List.length context_list) in
  let r := pair_loop rt chat_list context_list 0 limit empty_run in
  let taken :=
    match first_raising rt (firstn limit chat_list) with
    | None => limit
    | Some (k, _) => S k
    end in
  List.length (visited r) = taken /\
  forall c,
    In c (calls r) <->
    exists d ctx,
      (call_index c < taken)%nat /\
      nth_error chat_list (call_index c) = Some (VDict d) /\
      nth_error context_list (call_index c) = Some ctx /\
      gate rt (resolve_query d) = true /\
      printable (query_line rt (resolve_query d)) = true /\
      c = call_for rt (call_index c) d ctx.
Proof.
  intros limit r taken.
  destruct (pair_loop_taken rt chat_list context_list) as (_ & Hl & _).
  fold limit in Hl. fold r in Hl. fold taken in Hl.
  split; [exact Hl|]. intros c. rewrite <- Hl. split.
  - intros Hin.
    apply (pair_loop_calls_match rt chat_list context_list c) in Hin
      as (i & d & ctx & Hi & Hg & ->).
    simpl.
    apply (pair_loop_positions rt chat_list context_list) in Hi
      as (H1 & H2 & H3).
    unfold makes_call in Hg. apply andb_true_iff in Hg as [Hg Hp].
    exists d, ctx. now repeat split.
  - intros (d & ctx & H1 & H2 & H3 & Hg & Hp & Hc).
    apply (pair_loop_calls_match rt chat_list context_list c).
    exists (call_index c), d, ctx. split; [|split; [|exact Hc]].
    + apply (pair_loop_positions rt chat_list context_list). now repeat split.
    + unfold makes_call. now rewrite Hg, Hp.
Qed.

(** The loop of the scraper as a map and a filter over the matches. *)
Lemma salvage_loop_order (rt : PyRuntime) (found : list (str * str))
    (acc items : list value) :
  salvage_loop rt found acc = Ok items ->
  exists cleaned,
    Forall2 (fun kv kc =>
               fst kc = fst kv /\ clean_value rt (snd kv) = Ok (snd kc))
            found cleaned /\
    items =
      acc ++
      map (fun kc => VDict [(fst kc, VStr (snd kc))])
        (filter (fun kc =>
                   negb ((len (snd kc) <? 2)%nat || isdigit rt (snd kc)))
                cleaned).
Proof.
  revert acc. induction found as [|[k v] found IH]; intros acc; simpl.
  - intros [= <-]. exists []. split; [constructor|now rewrite app_nil_r].
  - destruct (clean_value rt v) as [cv|e] eqn:Hc; simpl; [|discriminate].
    destruct ((len cv <? 2)%nat || isdigit rt cv) eqn:Hk; intros H;
      apply IH in H as (cleaned & Hf & ->);
      exists ((k, cv) :: cleaned);
      (split; [constructor; [now split|assumption]|]);
      simpl; rewrite Hk; simpl; [reflexivity|now rewrite <- app_assoc].
Qed.

(** X19.  The fragments of the scraper come out in the order of the
    matches, one for each match that is kept: the list it returns is the
    matches with their values unescaped, less those whose unescaped value
    is shorter than two characters or all digits, each as a one-key
    mapping. *)
Theorem salvage_keeps_match_order (rt : PyRuntime) (content : str)
    (items : list value) :
  salvage rt content = Ok items ->
  exists cleaned,
    Forall2 (fun kv kc =>
               fst kc = fst kv /\ clean_value rt (snd kv) = Ok (snd kc))
            (found_items content) cleaned /\
    items =
      map (fun kc => VDict [(fst kc, VStr (snd kc))])
        (filter (fun kc =>
                   negb ((len (snd kc) <? 2)%nat || isdigit rt (snd kc)))
                cleaned).
Proof.
  intros H. now apply salvage_loop_order in H.
Qed.

Lemma salvage_keeps_match_order_witness :
  exists cleaned,
    Forall2 (fun kv kc =>
               fst kc = fst kv /\
               clean_value ascii_runtime (snd kv) = Ok (snd kc))
            (found_items (py "'text': 'one\ttwo', `query`: `7`, `text`: `ab`"))
            cleaned /\
    [VDict [(py "text", VStr (py "ab"))];
     VDict [(py "text", VStr [111; 110; 101; 9; 116; 119; 111])]] =
      map (fun kc => VDict [(fst kc, VStr (snd kc))])
        (filter (fun kc =>
                   negb ((len (snd kc) <? 2)%nat ||
                         isdigit ascii_runtime (snd kc)))
                cleaned).
Proof.
  apply (salvage_keeps_match_order ascii_runtime
           (py "'text': 'one\ttwo', `query`: `7`, `text`: `ab`")).
  reflexivity.
Defined.

(* ================================================================== *)
(** * Strategy 1 on a text with Unix, Windows or old Mac line ends *)
(* ================================================================== *)

Lemma eol_refl (s : str) : eol s s.
Proof. induction s; now constructor. Qed.

Lemma eol_app (p s t : str) : eol s t -> eol (p ++ s) (p ++ t).
Proof. intros H. induction p; simpl; [assumption|now constructor]. Qed.

Lemma eol_length (s t : str) :
  eol s t -> (List.length t <= List.length s)%nat.
Proof. induction 1; simpl; lia. Qed.

Lemma eol_nil_inv (t : str) : eol [] t -> t = [].
Proof. now inversion 1. Qed.

(** A character that passes a test which both line ends fail stays where
    it is. *)
Lemma eol_cons_true (f : N -> bool) (c : N) (s t : str) :
  f 10 = false -> f 13 = false -> f c = true ->
  eol (c :: s) t -> exists t', t = c :: t' /\ eol s t'.
Proof.
  intros H10 H13 Hc H. inversion H; subst; try congruence. eauto.
Qed.

(** Where the text has a character that fails a test which both line
    ends fail, the rewritten text has one that fails it too, or ends. *)
Lemma eol_cons_false (f : N -> bool) (c : N) (s t : str) :
  f 10 = false -> f 13 = false -> f c = false ->
  eol (c :: s) t ->
  match t with
  | [] => True
  | d :: _ => f d = false
  end.
Proof.
  intros H10 H13 Hc H. inversion H; subst; auto.
Qed.

Lemma skip_ws_eol (s t : str) :
  eol s t -> eol (Json.skip_ws s) (Json.skip_ws t).
Proof.
  induction 1 as [| | | |c s t H IH|s t H IH|s t H IH];
    try (simpl; constructor); try exact IH.
  simpl. destruct (Json.is_ws c); [exact IH|now constructor].
Qed.

Lemma strip_prefix_eol (p s t : str) :
  ~ In 10 p -> ~ In 13 p -> eol s t ->
  match strip_prefix p s with
  | Some r => exists r', strip_prefix p t = Some r' /\ eol r r'
  | None => strip_prefix p t = None
  end.
Proof.
  revert s t. induction p as [|x p IH]; intros s t H10 H13 H.
  - simpl. now exists t.
  - assert (Hx10 : (x =? 10) = false)
      by (apply N.eqb_neq; intros ->; apply H10; now left).
    assert (Hx13 : (x =? 13) = false)
      by (apply N.eqb_neq; intros ->; apply H13; now left).
    destruct s as [|c s].
    + apply eol_nil_inv in H as ->. reflexivity.
    + cbn [strip_prefix]. destruct (x =? c) eqn:Hc.
      * destruct (eol_cons_true (N.eqb x) c s t Hx10 Hx13 Hc H)
          as (t' & -> & H').
        cbn [strip_prefix]. rewrite Hc.
        apply IH; [| |assumption]; intros Hin; [apply H10|apply H13];
          now right.
      * pose proof (eol_cons_false (N.eqb x) c s t Hx10 Hx13 Hc H) as Hd.
        destruct t as [|d t]; [reflexivity|].
        cbn [strip_prefix]. now rewrite Hd.
Qed.

Lemma hex_digits_eol (n : nat) (acc : N) (s t : str) c r :
  Json.hex_digits n acc s = Some (c, r) -> eol s t ->
  exists r', Json.hex_digits n acc t = Some (c, r') /\ eol r r'.
Proof.
  revert acc s t. induction n as [|n IH]; intros acc s t; simpl.
  - intros [= <- <-] H. now exists t.
  - destruct s as [|x s]; [discriminate|].
    destruct (Json.hex_value x) as [h|] eqn:Hx; [|discriminate].
    intros Hs H.
    destruct (eol_cons_true
                (fun y => match Json.hex_value y with
                          | Some _ => true
                          | None => false
                          end) x s t eq_refl eq_refl) as (t' & -> & H');
      [now rewrite Hx|assumption|].
    rewrite Hx. now apply IH with (s := s).
Qed.

Lemma unicode_escape_eol (s t : str) u r :
  Json.unicode_escape s = Ok (u, r) -> eol s t ->
  exists r', Json.unicode_escape t = Ok (u, r') /\ eol r r'.
Proof.
  unfold Json.unicode_escape. intros Hs H.
  destruct (Json.hex_digits 4 0 s) as [[c r1]|] eqn:E1; [|discriminate].
  destruct (hex_digits_eol _ _ _ _ _ _ E1 H) as (r1' & -> & H1).
  assert (Hdone : Ok (c, r1) = Ok (u, r) ->
                  exists r', Ok (c, r1') = Ok (u, r') /\ eol r r')
    by (intros [= <- <-]; now exists r1').
  destruct (Json.is_high_surrogate c); [|now apply Hdone].
  pose proof (strip_prefix_eol (py "\u") r1 r1') as Hp.
  destruct (strip_prefix (py "\u") r1) as [r2|].
  - destruct Hp as (r2' & -> & H2);
      [vm_compute; intuition discriminate
      |vm_compute; intuition discriminate|assumption|].
    pose proof (eol_length _ _ H2) as Hl.
    destruct (Nat.leb_spec 4 (len r2)) as [H4|H4].
    + destruct (Json.hex_digits 4 0 r2) as [[c2 r3]|] eqn:E2;
        [|discriminate].
      destruct (hex_digits_eol _ _ _ _ _ _ E2 H2) as (r3' & E2' & H3).
      pose proof (hex_digits_length _ _ _ _ _ E2') as Hl'.
      destruct (Nat.leb_spec 4 (len r2')) as [_|H4'];
        [|unfold len in *; lia].
      rewrite E2'. destruct (Json.is_low_surrogate c2); [|now apply Hdone].
      injection Hs as <- <-. now exists r3'.
    + destruct (Nat.leb_spec 4 (len r2')) as [H4'|_];
        [unfold len in *; lia|]. now apply Hdone.
  - rewrite Hp by (try assumption; vm_compute; intuition discriminate).
    now apply Hdone.
Qed.

Lemma scanstring_eol (fuel : nat) (acc s t : str) x r :
  Json.scanstring fuel acc s = Ok (x, r) -> eol s t ->
  exists r', Json.scanstring fuel acc t = Ok (x, r') /\ eol r r'.
Proof.
  revert acc s t. induction fuel as [|fuel IH]; intros acc s t;
    cbn [Json.scanstring]; [discriminate|].
  destruct s as [|c s]; [discriminate|]. intros Hs H.
  destruct (c =? 34) eqn:H34.
  { destruct (eol_cons_true (fun y => y =? 34) c s t eq_refl eq_refl H34 H)
      as (t' & -> & H').
    rewrite H34. injection Hs as <- <-. now exists t'. }
  destruct (c =? 92) eqn:H92.
  { destruct (eol_cons_true (fun y => y =? 92) c s t eq_refl eq_refl H92 H)
      as (t' & -> & H').
    rewrite H34, H92. destruct s as [|e s]; [discriminate|].
    destruct (e =? 117) eqn:H117.
    - destruct (eol_cons_true (fun y => y =? 117) e s t' eq_refl eq_refl
                  H117 H') as (t'' & -> & H'').
      rewrite H117.
      destruct (Json.unicode_escape s) as [[u r1]|] eqn:Eu; [|discriminate].
      destruct (unicode_escape_eol _ _ _ _ Eu H'') as (r1' & -> & H1).
      cbn [bind] in *. now apply IH with (s := r1).
    - destruct (Json.simple_escape e) as [y|] eqn:Ee; [|discriminate].
      destruct (eol_cons_true
                  (fun y => match Json.simple_escape y with
                            | Some _ => true
                            | None => false
                            end) e s t' eq_refl eq_refl) as (t'' & -> & H'');
        [now rewrite Ee|assumption|].
      rewrite H117, Ee. now apply IH with (s := s). }
  destruct (c <=? 31) eqn:H31; [discriminate|].
  destruct (eol_cons_true (fun y => negb (y <=? 31)) c s t eq_refl eq_refl)
    as (t' & -> & H'); [now rewrite H31|assumption|].
  rewrite H34, H92, H31. now apply IH with (s := s).
Qed.

Lemma parse_string_eol (s t : str) x r :
  Json.parse_string s = Ok (x, r) -> eol s t ->
  exists r', Json.parse_string t = Ok (x, r') /\ eol r r'.
Proof.
  unfold Json.parse_string. intros Hs H.
  destruct (scanstring_eol _ _ _ _ _ _ Hs H) as (r' & Ht & Hr).
  exists r'. split; [|assumption]. rewrite <- Ht.
  pose proof (eol_length _ _ H). apply scanstring_fuel; unfold len; lia.
Qed.

Lemma span_digits_eol (s t : str) :
  eol s t ->
  exists r',
    Json.span_digits t = (fst (Json.span_digits s), r') /\
    eol (snd (Json.span_digits s)) r'.
Proof.
  revert t. induction s as [|c s IH]; intros t H.
  - apply eol_nil_inv in H as ->. exists []. split; [reflexivity|constructor].
  - cbn [Json.span_digits]. destruct (Json.is_digit c) eqn:Hc.
    + destruct (eol_cons_true Json.is_digit c s t eq_refl eq_refl Hc H)
        as (t' & -> & H').
      destruct (IH t' H') as (r' & Ht & Hr).
      exists r'. cbn [Json.span_digits]. rewrite Hc, Ht.
      now destruct (Json.span_digits s).
    + pose proof (eol_cons_false Json.is_digit c s t eq_refl eq_refl Hc H)
        as Hd.
      exists t. split; [|exact H].
      destruct t as [|d t]; [reflexivity|].
      cbn [Json.span_digits]. now rewrite Hd.
Qed.

Lemma int_part_eol (s t : str) ip r :
  Json.int_part s = Some (ip, r) -> eol s t ->
  exists r', Json.int_part t = Some (ip, r') /\ eol r r'.
Proof.
  destruct s as [|c s]; [discriminate|]. cbn [Json.int_part]. intros Hs H.
  destruct (c =? 48) eqn:H48.
  - destruct (eol_cons_true (fun y => y =? 48) c s t eq_refl eq_refl H48 H)
      as (t' & -> & H').
    cbn [Json.int_part]. rewrite H48. injection Hs as <- <-. now exists t'.
  - destruct (Json.is_digit c) eqn:Hc; [|discriminate].
    destruct (eol_cons_true Json.is_digit c s t eq_refl eq_refl Hc H)
      as (t' & -> & H').
    cbn [Json.int_part]. rewrite H48, Hc.
    destruct (span_digits_eol s t' H') as (r' & -> & Hr).
    destruct (Json.span_digits s) as [d r0]. injection Hs as <- <-.
    now exists r'.
Qed.

Lemma frac_part_eol (s t : str) :
  eol s t ->
  match Json.frac_part s with
  | Some (d, r) => exists r', Json.frac_part t = Some (d, r') /\ eol r r'
  | None => Json.frac_part t = None
  end.
Proof.
  intros H. unfold Json.frac_part.
  pose proof (strip_prefix_eol (py ".") s t) as Hp.
  destruct (strip_prefix (py ".") s) as [s1|].
  - destruct Hp as (t1 & -> & H1);
      [vm_compute; intuition discriminate
      |vm_compute; intuition discriminate|assumption|].
    destruct (span_digits_eol s1 t1 H1) as (r' & -> & Hr).
    destruct (Json.span_digits s1) as [[|x d] r]; simpl; [reflexivity|].
    now exists r'.
  - now rewrite Hp by (try assumption; vm_compute; intuition discriminate).
Qed.

Lemma exp_part_eol (s t : str) :
  eol s t ->
  match Json.exp_part s with
  | Some (e, r) => exists r', Json.exp_part t = Some (e, r') /\ eol r r'
  | None => Json.exp_part t = None
  end.
Proof.
  intros H. destruct s as [|c s].
  { apply eol_nil_inv in H as ->. reflexivity. }
  cbn [Json.exp_part].
  destruct ((c =? 101) || (c =? 69)) eqn:Hc.
  - destruct (eol_cons_true (fun y => (y =? 101) || (y =? 69)) c s t
                eq_refl eq_refl Hc H) as (t' & -> & H').
    cbn [Json.exp_part]. rewrite Hc.
    assert (Hsign : exists neg s1 t1,
      match strip_prefix (py "-") s, strip_prefix (py "+") s with
      | Some x, _ => (true, x)
      | None, Some x => (false, x)
      | None, None => (false, s)
      end = (neg, s1) /\
      match strip_prefix (py "-") t', strip_prefix (py "+") t' with
      | Some x, _ => (true, x)
      | None, Some x => (false, x)
      | None, None => (false, t')
      end = (neg, t1) /\ eol s1 t1).
    { pose proof (strip_prefix_eol (py "-") s t') as Hm.
      pose proof (strip_prefix_eol (py "+") s t') as Hp.
      destruct (strip_prefix (py "-") s) as [s1|].
      - destruct Hm as (t1 & -> & H1);
          [vm_compute; intuition discriminate
          |vm_compute; intuition discriminate|assumption|].
        now exists true, s1, t1.
      - rewrite Hm by (try assumption; vm_compute; intuition discriminate).
        destruct (strip_prefix (py "+") s) as [s1|].
        + destruct Hp as (t1 & -> & H1);
            [vm_compute; intuition discriminate
            |vm_compute; intuition discriminate|assumption|].
          now exists false, s1, t1.
        + rewrite Hp
            by (try assumption; vm_compute; intuition discriminate).
          now exists false, s, t'. }
    destruct Hsign as (neg & s1 & t1 & -> & -> & H1).
    destruct (span_digits_eol s1 t1 H1) as (r' & -> & Hr).
    destruct (Json.span_digits s1) as [[|x d] r]; simpl; [reflexivity|].
    now exists r'.
  - pose proof (eol_cons_false (fun y => (y =? 101) || (y =? 69)) c s t
                  eq_refl eq_refl Hc H) as Hd.
    destruct t as [|d t]; [reflexivity|].
    cbn [Json.exp_part]. now rewrite Hd.
Qed.

Lemma match_number_eol (s t : str) v r :
  Json.match_number s = Ok (v, r) -> eol s t ->
  exists r', Json.match_number t = Ok (v, r') /\ eol r r'.
Proof.
  unfold Json.match_number. intros Hs H.
  assert (Hsign : exists neg s0 t0,
    match strip_prefix (py "-") s with
    | Some x => (true, x)
    | None => (false, s)
    end = (neg, s0) /\
    match strip_prefix (py "-") t with
    | Some x => (true, x)
    | None => (false, t)
    end = (neg, t0) /\ eol s0 t0).
  { pose proof (strip_prefix_eol (py "-") s t) as Hm.
    destruct (strip_prefix (py "-") s) as [s0|].
    - destruct Hm as (t0 & -> & H0);
        [vm_compute; intuition discriminate
        |vm_compute; intuition discriminate|assumption|].
      now exists true, s0, t0.
    - rewrite Hm by (try assumption; vm_compute; intuition discriminate).
      now exists false, s, t. }
  destruct Hsign as (neg & s0 & t0 & Es & -> & H0). rewrite Es in Hs.
  destruct (Json.int_part s0) as [[ip r0]|] eqn:Ei; [|discriminate].
  destruct (int_part_eol _ _ _ _ Ei H0) as (r0' & -> & Hr0).
  pose proof (frac_part_eol r0 r0' Hr0) as Hf.
  assert (Hfrac : exists fp r1 r1',
    match Json.frac_part r0 with
    | Some (d, x) => (Some d, x)
    | None => (None, r0)
    end = (fp, r1) /\
    match Json.frac_part r0' with
    | Some (d, x) => (Some d, x)
    | None => (None, r0')
    end = (fp, r1') /\ eol r1 r1').
  { destruct (Json.frac_part r0) as [[d x]|].
    - destruct Hf as (x' & -> & Hx). now exists (Some d), x, x'.
    - rewrite Hf. now exists None, r0, r0'. }
  destruct Hfrac as (fp & r1 & r1' & Ef & -> & Hr1). rewrite Ef in Hs.
  pose proof (exp_part_eol r1 r1' Hr1) as He.
  assert (Hexp : exists ep r2 r2',
    match Json.exp_part r1 with
    | Some (e, x) => (Some e, x)
    | None => (None, r1)
    end = (ep, r2) /\
    match Json.exp_part r1' with
    | Some (e, x) => (Some e, x)
    | None => (None, r1')
    end = (ep, r2') /\ eol r2 r2').
  { destruct (Json.exp_part r1) as [[e x]|].
    - destruct He as (x' & -> & Hx). now exists (Some e), x, x'.
    - rewrite He. now exists None, r1, r1'. }
  destruct Hexp as (ep & r2 & r2' & Ee & -> & Hr2). rewrite Ee in Hs.
  exists r2'. split; [|destruct fp, ep; now injection Hs as <- <-].
  destruct fp, ep; injection Hs as <- _; reflexivity.
Qed.

Lemma constant_eol (name : str) (v : value) (s t : str) :
  ~ In 10 name -> ~ In 13 name -> eol s t ->
  match Json.constant name v s with
  | Some (w, r) => exists r', Json.constant name v t = Some (w, r') /\ eol r r'
  | None => Json.constant name v t = None
  end.
Proof.
  intros H10 H13 H. unfold Json.constant.
  pose proof (strip_prefix_eol name s t H10 H13 H) as Hp.
  destruct (strip_prefix name s) as [r|].
  - destruct Hp as (r' & -> & Hr). now exists r'.
  - now rewrite Hp.
Qed.

Lemma named_constant_eol (c : N) (s t : str) :
  eol s t ->
  match Json.named_constant c s with
  | Some (w, r) => exists r', Json.named_constant c t = Some (w, r') /\ eol r r'
  | None => Json.named_constant c t = None
  end.
Proof.
  intros H. unfold Json.named_constant.
  repeat match goal with
         | |- context [if ?b then _ else _] => destruct b
         end;
    try reflexivity;
    apply constant_eol; try assumption; vm_compute; intuition discriminate.
Qed.

Section LineEnds.
Variable scan : str -> result (value * str).
Hypothesis scan_forward : reads_forward scan.
Hypothesis scan_eol :
  forall s t v r,
    scan s = Ok (v, r) -> eol s t ->
    exists r', scan t = Ok (v, r') /\ eol r r'.

Lemma array_loop_eol (n : nat) (acc : list value) (s t : str) v r :
  Json.array_loop scan n acc s = Ok (v, r) -> eol s t ->
  exists r', Json.array_loop scan n acc t = Ok (v, r') /\ eol r r'.
Proof.
  revert acc s t. induction n as [|n IH]; intros acc s t;
    cbn [Json.array_loop]; [discriminate|].
  intros Hs H.
  destruct (scan s) as [[x r1]|e] eqn:E; cbn [bind] in Hs; [|discriminate].
  destruct (scan_eol _ _ _ _ E H) as (r1' & -> & H1). cbn [bind].
  pose proof (skip_ws_eol _ _ H1) as Hk.
  destruct (Json.skip_ws r1) as [|c r2]; [discriminate|].
  destruct (c =? 93) eqn:H93.
  { destruct (eol_cons_true (fun y => y =? 93) c r2 _ eq_refl eq_refl H93 Hk)
      as (r2' & -> & H2).
    rewrite H93. injection Hs as <- <-. now exists r2'. }
  destruct (c =? 44) eqn:H44; [|discriminate].
  destruct (eol_cons_true (fun y => y =? 44) c r2 _ eq_refl eq_refl H44 Hk)
    as (r2' & -> & H2).
  rewrite H93, H44. apply IH with (s := Json.skip_ws r2); [assumption|].
  now apply skip_ws_eol.
Qed.

Lemma object_loop_eol (n : nat) (acc : dict) (s t : str) v r :
  Json.object_loop scan n acc s = Ok (v, r) -> eol s t ->
  exists r', Json.object_loop scan n acc t = Ok (v, r') /\ eol r r'.
Proof.
  revert acc s t. induction n as [|n IH]; intros acc s t;
    cbn [Json.object_loop]; [discriminate|].
  intros Hs H.
  pose proof (strip_prefix_eol (py "`") s t) as Hq.
  destruct (strip_prefix (py "`") s) as [s1|]; [|discriminate].
  destruct Hq as (t1 & -> & H1);
    [vm_compute; intuition discriminate
    |vm_compute; intuition discriminate|assumption|].
  destruct (Json.parse_string s1) as [[k r1]|e] eqn:Ek; cbn [bind] in Hs;
    [|discriminate].
  destruct (parse_string_eol _ _ _ _ Ek H1) as (r1' & -> & Hr1). cbn [bind].
  pose proof (strip_prefix_eol (py ":") _ _ ltac:(vm_compute; intuition discriminate)
                ltac:(vm_compute; intuition discriminate)
                (skip_ws_eol _ _ Hr1)) as Hc.
  destruct (strip_prefix (py ":") (Json.skip_ws r1)) as [r2|];
    [|discriminate].
  destruct Hc as (r2' & -> & Hr2).
  destruct (scan (Json.skip_ws r2)) as [[x r3]|e] eqn:E; cbn [bind] in Hs;
    [|discriminate].
  destruct (scan_eol _ _ _ _ E (skip_ws_eol _ _ Hr2)) as (r3' & -> & Hr3).
  cbn [bind].
  pose proof (skip_ws_eol _ _ Hr3) as Hk.
  destruct (Json.skip_ws r3) as [|c r4]; [discriminate|].
  destruct (c =? 125) eqn:H125.
  { destruct (eol_cons_true (fun y => y =? 125) c r4 _ eq_refl eq_refl
                H125 Hk) as (r4' & -> & H4).
    rewrite H125. injection Hs as <- <-. now exists r4'. }
  destruct (c =? 44) eqn:H44; [|discriminate].
  destruct (eol_cons_true (fun y => y =? 44) c r4 _ eq_refl eq_refl H44 Hk)
    as (r4' & -> & H4).
  rewrite H125, H44. apply IH with (s := Json.skip_ws r4); [assumption|].
  now apply skip_ws_eol.
Qed.

Lemma parse_array_eol (s t : str) v r :
  Json.parse_array scan s = Ok (v, r) -> eol s t ->
  exists r', Json.parse_array scan t = Ok (v, r') /\ eol r r'.
Proof.
  unfold Json.parse_array. intros Hs H.
  pose proof (skip_ws_eol _ _ H) as Hk.
  pose proof (strip_prefix_eol (py "]") _ _
                ltac:(vm_compute; intuition discriminate)
                ltac:(vm_compute; intuition discriminate) Hk) as Hp.
  destruct (strip_prefix (py "]") (Json.skip_ws s)) as [r0|].
  - destruct Hp as (r0' & -> & Hr). injection Hs as <- <-. now exists r0'.
  - rewrite Hp. destruct (array_loop_eol _ _ _ _ _ _ Hs Hk) as (r' & Ht & Hr).
    exists r'. split; [|assumption]. rewrite <- Ht.
    pose proof (eol_length _ _ Hk).
    apply array_loop_ext; auto; unfold len; lia.
Qed.

Lemma parse_object_eol (s t : str) v r :
  Json.parse_object scan s = Ok (v, r) -> eol s t ->
  exists r', Json.parse_object scan t = Ok (v, r') /\ eol r r'.
Proof.
  unfold Json.parse_object. intros Hs H.
  pose proof (skip_ws_eol _ _ H) as Hk.
  pose proof (strip_prefix_eol (py "}") _ _
                ltac:(vm_compute; intuition discriminate)
                ltac:(vm_compute; intuition discriminate) Hk) as Hp.
  destruct (strip_prefix (py "}") (Json.skip_ws s)) as [r0|].
  - destruct Hp as (r0' & -> & Hr). injection Hs as <- <-. now exists r0'.
  - rewrite Hp.
    destruct (object_loop_eol _ _ _ _ _ _ Hs Hk) as (r' & Ht & Hr).
    exists r'. split; [|assumption]. rewrite <- Ht.
    pose proof (eol_length _ _ Hk).
    apply object_loop_ext; auto; unfold len; lia.
Qed.
End LineEnds.

Lemma scan_once_eol (depth : nat) (s t : str) v r :
  Json.scan_once depth s = Ok (v, r) -> eol s t ->
  exists r', Json.scan_once depth t = Ok (v, r') /\ eol r r'.
Proof.
  revert s t v r. induction depth as [|d IH]; intros s t v r;
    (destruct s as [|c s]; [discriminate|]); cbn [Json.scan_once];
    intros Hs H.
  all: destruct (c =? 34) eqn:H34;
    [destruct (eol_cons_true (fun y => y =? 34) c s t eq_refl eq_refl H34 H)
       as (t' & -> & H'); cbn [Json.scan_once]; rewrite H34;
     destruct (Json.parse_string s) as [[x r1]|e] eqn:E; cbn [bind] in Hs;
       [|discriminate];
     destruct (parse_string_eol _ _ _ _ E H') as (r1' & -> & Hr1);
     cbn [bind]; injection Hs as <- <-; now exists r1'|].
  all: destruct (c =? 123) eqn:H123;
    [destruct (eol_cons_true (fun y => y =? 123) c s t eq_refl eq_refl H123 H)
       as (t' & -> & H'); cbn [Json.scan_once]; rewrite H34, H123;
     first [discriminate
           | apply (parse_object_eol _ (scan_once_length d) IH _ _ _ _ Hs H')]
    |].
  all: destruct (c =? 91) eqn:H91;
    [destruct (eol_cons_true (fun y => y =? 91) c s t eq_refl eq_refl H91 H)
       as (t' & -> & H'); cbn [Json.scan_once]; rewrite H34, H123, H91;
     first [discriminate
           | apply (parse_array_eol _ (scan_once_length d) IH _ _ _ _ Hs H')]
    |].
  all: assert (Hplain : exists t', t = c :: t' /\ eol s t');
    [destruct (N.eq_dec c 10) as [->|H10];
       [vm_compute in Hs; discriminate|];
     destruct (N.eq_dec c 13) as [->|H13];
       [vm_compute in Hs; discriminate|];
     apply (eol_cons_true (fun y => negb (y =? 10) && negb (y =? 13)) c s t
              eq_refl eq_refl);
       [apply N.eqb_neq in H10, H13; now rewrite H10, H13|assumption]
    |].
  all: destruct Hplain as (t' & -> & H'); cbn [Json.scan_once];
    rewrite H34, H123, H91;
    pose proof (named_constant_eol c (c :: s) (c :: t') H) as Hn;
    destruct (Json.named_constant c (c :: s)) as [[w r0]|];
    [destruct Hn as (r0' & -> & Hr0); injection Hs as <- <-; now exists r0'
    |rewrite Hn; now apply match_number_eol with (s := c :: s)].
Qed.

(** Rewriting the line ends of a text does not change what the decoder
    returns for it. *)
Lemma loads_eol (s t : str) (v : value) :
  Json.loads s = Ok v -> eol s t -> Json.loads t = Ok v.
Proof.
  unfold Json.loads. intros Hs H.
  pose proof (strip_prefix_eol [65279] s t
                ltac:(vm_compute; intuition discriminate)
                ltac:(vm_compute; intuition discriminate) H) as Hb.
  unfold startswith in *.
  destruct (strip_prefix [65279] s); [discriminate|]. rewrite Hb.
  destruct (Json.scan_once (len s) (Json.skip_ws s)) as [[w r]|e] eqn:E;
    cbn [bind] in Hs; [|discriminate].
  destruct (scan_once_eol _ _ _ _ _ E (skip_ws_eol _ _ H)) as (r' & Ht & Hr).
  pose proof (eol_length _ _ H) as Hl.
  pose proof (skip_ws_length t) as Hw.
  rewrite (scan_once_depth _ (len t)) in Ht by (unfold len; lia).
  rewrite Ht. cbn [bind].
  pose proof (skip_ws_eol _ _ Hr) as Hk.
  destruct (Json.skip_ws r); [|discriminate].
  apply eol_nil_inv in Hk as ->. exact Hs.
Qed.

Lemma splitlines_from_nil (s cur : str) :
  splitlines_from cur s = [] -> cur = [] /\ s = [].
Proof.
  revert cur. induction s as [|c s IH]; intros cur; cbn [splitlines_from].
  - now destruct cur.
  - destruct (c =? 13).
    + destruct s as [|d s]; [discriminate|]. now destruct (d =? 10).
    + destruct (is_linebreak c); [discriminate|].
      intros H. apply IH in H as [H _]. discriminate.
Qed.

(** Splitting into lines and joining by line feeds rewrites the line
    ends and nothing else. *)
Lemma splitlines_eol (s cur : str) :
  plain_line_ends s = true ->
  eol (rev cur ++ s) (join [10] (splitlines_from cur s)).
Proof.
  remember (List.length s) as n eqn:Hn.
  assert (Hle : (List.length s <= n)%nat) by lia. clear Hn.
  revert s cur Hle. induction n as [|n IH]; intros s cur Hle Hp.
  { destruct s; [|simpl in Hle; lia]. rewrite app_nil_r. simpl.
    destruct cur; [constructor|apply eol_refl]. }
  destruct s as [|c s].
  { rewrite app_nil_r. simpl. destruct cur; [constructor|apply eol_refl]. }
  simpl in Hle. unfold plain_line_ends in Hp. simpl in Hp.
  apply andb_true_iff in Hp as [Hc Hp]. fold (plain_line_ends s) in Hp.
  assert (Hjoin : forall rest tail,
    (List.length rest <= n)%nat -> plain_line_ends rest = true ->
    (forall t, eol rest t -> eol tail (10 :: t)) ->
    (rest = [] -> eol tail []) ->
    eol (rev cur ++ tail)
        (join [10] (rev cur :: splitlines_from [] rest))).
  { intros rest tail Hl Hr Hstep Hend.
    pose proof (IH rest [] Hl Hr) as Hrest. simpl in Hrest.
    destruct (splitlines_from [] rest) as [|l ls] eqn:El.
    - apply splitlines_from_nil in El as [_ ->]. simpl.
      rewrite <- (app_nil_r (rev cur)) at 2. apply eol_app. now apply Hend.
    - rewrite join_cons. apply eol_app. simpl. now apply Hstep. }
  cbn [splitlines_from]. destruct (N.eqb_spec c 13) as [->|H13].
  - destruct s as [|d s].
    + apply (Hjoin [] [13]); [simpl; lia|reflexivity| |].
      * intros t Ht. apply eol_nil_inv in Ht as ->. repeat constructor.
      * intros _. constructor.
    + simpl in Hle. destruct (N.eqb_spec d 10) as [->|H10].
      * unfold plain_line_ends in Hp. simpl in Hp.
        fold (plain_line_ends s) in Hp.
        apply (Hjoin s (13 :: 10 :: s)); [lia|assumption| |].
        -- intros t Ht. now constructor.
        -- intros ->. constructor.
      * apply (Hjoin (d :: s) (13 :: d :: s)); [simpl; lia|assumption| |].
        -- intros t Ht. now constructor.
        -- discriminate.
  - destruct (is_linebreak c) eqn:Hb.
    + assert (c = 10) as ->.
      { rewrite ?Hb in Hc. simpl in Hc.
        apply orb_true_iff in Hc as [Hc|Hc];
          [now apply N.eqb_eq in Hc
          |first [discriminate Hc | apply N.eqb_eq in Hc; congruence]]. }
      apply (Hjoin s (10 :: s)); [lia|assumption| |].
      * intros t Ht. now constructor.
      * intros ->. constructor.
    + replace (rev cur ++ c :: s) with (rev (c :: cur) ++ s)
        by (simpl; now rewrite <- app_assoc).
      apply IH; [lia|assumption].
Qed.

(** X20.  Strategy 1 loses nothing on a well-formed text with Unix,
    Windows or old Mac line ends: when the only line boundaries of the
    text are line feeds and carriage returns and no line is a comment,
    [load_robust_json] returns what the strict parser returns on the
    text itself. *)
Theorem well_formed_text_loads_verbatim (rt : PyRuntime) (content : str)
    (v : value) :
  plain_line_ends content = true ->
  has_comment_line content = false ->
  Json.loads content = Ok v ->
  strict_parse content = Ok v /\ load_robust_json rt (Ok content) = Ok v.
Proof.
  intros Hp Hc Hv.
  assert (Hs : strict_parse content = Ok v).
  { unfold strict_parse, clean_lines.
    replace (filter (fun line => negb (is_comment_line line))
               (splitlines content)) with (splitlines content).
    - apply (loads_eol content); [assumption|].
      apply (splitlines_eol content [] Hp).
    - symmetry. apply forallb_filter_id. apply forallb_forall.
      intros l Hl. apply negb_true_iff.
      destruct (is_comment_line l) eqn:E; [|reflexivity].
      unfold has_comment_line in Hc.
      assert (existsb is_comment_line (splitlines content) = true)
        by (apply existsb_exists; eauto).
      congruence. }
  split; [exact Hs|]. unfold load_robust_json. simpl. now rewrite Hs.
Qed.

Lemma well_formed_text_loads_verbatim_witness :
  load_robust_json ascii_runtime
    (Ok (py "{`chats`:" ++ [13; 10] ++ py " [`hello`, 2]" ++ [13] ++
         py "}" ++ [13; 10])) =
  Ok (VDict [(py "chats", VList [VStr (py "hello"); VInt 2])]).
Proof.
  apply (well_formed_text_loads_verbatim ascii_runtime
           (py "{`chats`:" ++ [13; 10] ++ py " [`hello`, 2]" ++ [13] ++
            py "}" ++ [13; 10]));
    reflexivity.
Defined.
